(** * Zisk: a shallow embedding of [zisk_repl.py]

    The development follows the layout of the source: the AST produced by
    [ZiskParser], the run-time values of the interpreter, [ZiskTypeSystem],
    [ZiskOptimizer], [ZiskParser] and the execution engine of [ZiskREPL].
    Python integers are [Z]; Python floats are IEEE binary64 numbers, taken
    from the Standard Library's [SpecFloat] (53-bit precision, emax 1024);
    dictionaries are [gmap]s; Python lists and dictionaries created by the
    program live in an explicit heap, because the interpreter mutates them
    in place. *)

From Stdlib Require Import ZArith String Ascii List Bool Lia.
From Stdlib Require Import Floats.SpecFloat.
From stdpp Require Import base option list gmap strings pretty.

Set Warnings "-register-all".

Local Open Scope Z_scope.
Local Open Scope string_scope.

(** ** Numbers *)

Definition prec : Z := 53.
Definition emax : Z := 1024.

(** A [NUMERO] literal holds a Python [int] or a Python [float]. *)
Inductive numero :=
| NInt (z : Z)
| NFloat (f : spec_float).

(** ** The AST

    The parser builds tuples [('TAG', child, ...)]; a child position may
    also hold Python's [None] (an absent initialiser, an absent [sino]
    block, a statement removed by the optimizer): [NADA]. *)

Inductive ast :=
| NADA
| PROGRAMA (declaraciones : list ast)
| BLOQUE (sentencias : list ast)
| DECLARACION_VAR (nombre : string) (tipo : option string) (valor : ast)
| DECLARACION_CONST (nombre : string) (tipo : option string) (valor : ast)
| DECLARACION_VAR_MIEMBRO (nombre : string) (tipo : option string)
    (valor : ast) (es_estatico es_publico : bool)
| DECLARACION_CONST_MIEMBRO (nombre : string) (tipo : option string)
    (valor : ast) (es_estatico es_publico : bool)
| FUNCION (nombre : string) (parametros : list (string * option string))
    (tipo_retorno : option string) (cuerpo : ast)
| CLASE (nombre : string) (superclase : option string) (miembros : list ast)
| METODO (nombre : string) (parametros : list (string * option string))
    (tipo_retorno : option string) (cuerpo : ast) (es_estatico es_publico : bool)
| IMPORTA (path_modulo : string) (alias_modulo : option string)
| SI (condicion bloque_si bloque_sino : ast)
| MIENTRAS (condicion cuerpo : ast)
| PARA (inicializacion condicion actualizacion cuerpo : ast)
| HACER_MIENTRAS (cuerpo condicion : ast)
| RETORNA (valor : ast) (lc : Z * Z)
| BREAK (lc : Z * Z)
| CONTINUA (lc : Z * Z)
| TRY_CATCH (bloque_try : ast) (error_var_nombre : option string)
    (bloque_catch bloque_finally : ast)
| ASIGNACION (operador : string) (izquierda derecha : ast)
| OPERACION_ARITMETICA (operador : string) (izquierda derecha : ast)
| OPERACION_COMPARACION (operador : string) (izquierda derecha : ast)
| OPERACION_LOGICA (operador : string) (izquierda derecha : ast)
| OPERACION_UNARIA (operador : string) (expresion : ast)
| LLAMADA (callee : ast) (argumentos : list ast)
| LLAMADA_NATIVA (nombre : string) (argumentos : list ast)
| CONSTRUCTOR (clase_nombre : string) (argumentos : list ast)
| ACCESO_MIEMBRO (objeto : ast) (miembro : string)
| ACCESO_INDICE (coleccion indice : ast)
| IDENTIFICADOR (nombre : string)
| ESTE
| NUMERO (n : numero)
| CADENA (s : string)
| BOOLEANO (b : bool)
| NULO
| LISTA_LITERAL (elementos : list ast)
| OBJETO_LITERAL (propiedades : list (string * ast)).

(** Truth value of a child position ([if val_node:]): a tuple is true,
    [None] is false. *)
Definition node_truthy (n : ast) : bool :=
  match n with NADA => false | _ => true end.

(** ** Exceptions *)

(** The classes of the [ZiskError] family (lines 7-15 and 2963-2966). *)
Inductive error_class :=
| ZiskError
| ZiskTypeError
| ZiskRuntimeError
| ZiskAttributeError
| ZiskIndexError
| ZiskKeyError.

(** [issubclass(c, ZiskRuntimeError)]. *)
Definition is_runtime_error (c : error_class) : bool :=
  match c with
  | ZiskRuntimeError | ZiskAttributeError | ZiskIndexError | ZiskKeyError => true
  | ZiskError | ZiskTypeError => false
  end.

Definition error_class_name (c : error_class) : string :=
  match c with
  | ZiskError => "ZiskError"
  | ZiskTypeError => "ZiskTypeError"
  | ZiskRuntimeError => "ZiskRuntimeError"
  | ZiskAttributeError => "ZiskAttributeError"
  | ZiskIndexError => "ZiskIndexError"
  | ZiskKeyError => "ZiskKeyError"
  end.

(** An error object. [mensaje] keeps the fixed text of the source's
    message and the names interpolated in it; other interpolated run-time
    data (values, counts, positions in the text) is left out. *)
Record zisk_error := MkError {
  clase_error : error_class;
  mensaje : string;
  linea : Z;
  columna : Z }.

(** Host exceptions that the interpreter lets escape or wraps. *)
Inductive py_exception :=
| PyTypeError (arity_text : bool)
    (* [arity_text]: the message contains "takes ... but ..." or
       "required positional arguments" (tested at line 2540) *)
| PyValueError
| PyIndexError
| PyZeroDivisionError
| PyOverflowError.

Definition py_exception_name (p : py_exception) : string :=
  match p with
  | PyTypeError _ => "TypeError"
  | PyValueError => "ValueError"
  | PyIndexError => "IndexError"
  | PyZeroDivisionError => "ZeroDivisionError"
  | PyOverflowError => "OverflowError"
  end.

(** ** Run-time values *)

Definition loc := nat.

(** The data captured by [zisk_function_wrapper] (lines 1942-1984). *)
Record zisk_function := MkFunction {
  _zisk_name : string;
  _zisk_params : list (string * option string);
  _zisk_return_type : option string;
  body_node : ast }.

(** The entries of [self.functions] that are built in (lines 1711-1721). *)
Inductive native :=
| native_mostrar
| native_ingresar
| native_longitud
| native_tipo_de
| native_convertir (target_type_zisk : string).

Inductive value :=
| VNone
| VBool (b : bool)
| VInt (z : Z)
| VFloat (f : spec_float)
| VStr (s : string)
| VList (l : loc)
| VDict (l : loc)
| VFunction (f : zisk_function)
| VNative (n : native)
| VClass (nombre : string)                (* the Python class of a Zisk class *)
| VInstance (clase_nombre : string) (l : loc) (* an instance of a Zisk class *)
| VError (e : zisk_error).                (* an error object bound by [catch] *)

(** What flies through the interpreter's [raise]. *)
Inductive exn :=
| Zisk (e : zisk_error)
| ReturnException (v : value)
| BreakException
| ContinueException
| Python (p : py_exception).

(** The host classes that [type_map] mentions. *)
Inductive py_type :=
| py_int | py_float | py_str | py_bool | py_list | py_dict
| py_function | py_type_ | py_NoneType.

(** [isinstance(value, py_type)]. [bool] is a subclass of [int]; the native
    routines bound as methods ([self._native_mostrar]) are not of the
    plain function type, the [convertir_*] lambdas are. *)
Definition isinstance (v : value) (t : py_type) : bool :=
  match t, v with
  | py_int, (VInt _ | VBool _) => true
  | py_float, VFloat _ => true
  | py_str, VStr _ => true
  | py_bool, VBool _ => true
  | py_list, VList _ => true
  | py_dict, VDict _ => true
  | py_function, (VFunction _ | VNative (native_convertir _)) => true
  | py_type_, VClass _ => true
  | py_NoneType, VNone => true
  | _, _ => false
  end.

(** [value.__class__.__name__]. *)
Definition class_name_of (v : value) : string :=
  match v with
  | VNone => "NoneType"
  | VBool _ => "bool"
  | VInt _ => "int"
  | VFloat _ => "float"
  | VStr _ => "str"
  | VList _ => "list"
  | VDict _ => "dict"
  | VFunction _ => "function"
  | VNative (native_convertir _) => "function"
  | VNative _ => "method"
  | VClass _ => "type"
  | VInstance c _ => c
  | VError e => error_class_name (clase_error e)
  end.

(** ** ZiskTypeSystem (lines 948-1128) *)

Module ZiskTypeSystem.

Record t := Mk {
  type_annotations : gmap string string;
  class_hierarchy : gmap string (option string);
  method_signatures :
    gmap string (option string * list (string * option string)) }.

Definition init : t :=
  {| type_annotations := ∅; class_hierarchy := ∅; method_signatures := ∅ |}.

(** [self.type_map], in insertion order. *)
Definition type_map_items : list (string * py_type) :=
  [ ("entero", py_int); ("decimal", py_float); ("texto", py_str);
    ("booleano", py_bool); ("lista", py_list); ("objeto", py_dict);
    ("funcion", py_function); ("clase", py_type_); ("nulo", py_NoneType) ].

Fixpoint assoc_get {A} (k : string) (l : list (string * A)) : option A :=
  match l with
  | [] => None
  | (k', a) :: l' => if String.eqb k k' then Some a else assoc_get k l'
  end.

Definition type_map_get (name : string) : option py_type :=
  assoc_get name type_map_items.

Definition in_hierarchy (self : t) (name : string) : bool :=
  bool_decide (is_Some (class_hierarchy self !! name)).

(** [check_type] (lines 966-1005). The [while] loop over [current_class]
    runs its body once and leaves through the unconditional [break]. *)
Definition check_type (self : t) (v : value) (expected_type_zisk : string) : bool :=
  if String.eqb expected_type_zisk "nulo" then
    match v with VNone => true | _ => false end
  else
    let by_name :=
      if in_hierarchy self expected_type_zisk then
        (* the value is the class itself *)
        match v with
        | VClass n => String.eqb n expected_type_zisk
        | _ => false
        end
        (* the value is an instance *)
        || String.eqb (class_name_of v) expected_type_zisk
        (* "Chequear herencia": first iteration only, then [break] *)
        || String.eqb (class_name_of v) expected_type_zisk
      else false in
    if by_name then true
    else
      match type_map_get expected_type_zisk with
      | None => false
      | Some py_t => isinstance v py_t
      end.

(** [infer_type] (lines 1007-1023). *)
Fixpoint infer_type_loop (self : t) (v : value) (items : list (string * py_type))
  : string :=
  match items with
  | [] => "desconocido"
  | (type_name, py_t) :: rest =>
      if String.eqb type_name "clase"
         && match v with VClass n => in_hierarchy self n | _ => false end
      then "clase"
      else if isinstance v py_t then
        (if String.eqb type_name "objeto"
            && match v with VDict _ => true | _ => false end
         then "objeto" else type_name)
      else infer_type_loop self v rest
  end.

Definition infer_type (self : t) (v : value) : string :=
  match v with
  | VNone => "nulo"
  | _ =>
      if in_hierarchy self (class_name_of v) then class_name_of v
      else infer_type_loop self v type_map_items
  end.

(** [validate_assignment] (lines 1025-1052): [None] when the call
    returns, [Some e] when it raises [e]. *)
Definition validate_assignment (self : t) (var_name_or_context : string)
    (v : value) (expected_type_zisk : option string)
    (lin col : Z) (is_return : bool) : option zisk_error :=
  match expected_type_zisk with
  | None => None
  | Some expected =>
      (* [if value is None and expected != 'nulo': pass] *)
      match v with
      | VNone => None
      | _ =>
          if negb (check_type self v expected) then
            Some (MkError ZiskTypeError
                    ("Tipos incompatibles: no se puede "
                       ++ (if is_return then "retornar valor" else "asignar valor")
                       ++ " de tipo '" ++ infer_type self v ++ "' a '"
                       ++ var_name_or_context ++ "' de tipo '" ++ expected ++ "'.")
                    lin col)
          else None
      end
  end.

Definition add_variable_annotation (self : t) (var_name : string)
    (var_type_zisk : option string) : t :=
  match var_type_zisk with
  | Some ty =>
      if negb (String.eqb ty "") then
        {| type_annotations := <[var_name := ty]> (type_annotations self);
           class_hierarchy := class_hierarchy self;
           method_signatures := method_signatures self |}
      else self
  | None => self
  end.

Definition add_class (self : t) (class_name : string)
    (superclass_name : option string) : t :=
  {| type_annotations := type_annotations self;
     class_hierarchy := <[class_name := superclass_name]> (class_hierarchy self);
     method_signatures := method_signatures self |}.

(** [validate_function_call] (lines 1095-1111). *)
Fixpoint validate_params (self : t) (func_name : string) (args : list value)
    (expected : list (string * option string)) (lin col : Z) : option zisk_error :=
  match args, expected with
  | arg_value :: args', (param_name, expected_type) :: expected' =>
      let r :=
        match expected_type with
        | Some ty =>
            if negb (String.eqb ty "") then
              validate_assignment self
                ("parámetro '" ++ param_name ++ "' de '" ++ func_name ++ "'")
                arg_value (Some ty) lin col false
            else None
        | None => None
        end in
      match r with
      | Some e => Some e
      | None => validate_params self func_name args' expected' lin col
      end
  | _, _ => None
  end.

Definition validate_function_call (self : t) (func_name : string)
    (args : list value) (expected : list (string * option string))
    (lin col : Z) : option zisk_error :=
  if negb (Nat.eqb (length args) (length expected)) then
    Some (MkError ZiskTypeError
            ("Función/Método '" ++ func_name ++ "' espera otro número de argumentos.")
            lin col)
  else validate_params self func_name args expected lin col.

(** [is_subclass_or_same] (lines 1113-1128). The loop visits each class
    at most once (the [visited] guard), so the size of the hierarchy
    bounds the number of iterations. *)
Fixpoint is_subclass_loop (self : t) (fuel : nat) (current : string)
    (visited : list string) (parent_class_name : string) : bool :=
  match fuel with
  | O => false
  | S fuel' =>
      match class_hierarchy self !! current with
      | None => false
      | Some superclass =>
          match superclass with
          | Some sup =>
              if String.eqb sup parent_class_name then true
              else if bool_decide (sup ∈ visited) then false
              else is_subclass_loop self fuel' sup (sup :: visited) parent_class_name
          | None => false
          end
      end
  end.

Definition is_subclass_or_same (self : t) (child_class_name parent_class_name : string)
  : bool :=
  if String.eqb child_class_name parent_class_name then true
  else is_subclass_loop self (S (size (class_hierarchy self)))
         child_class_name [child_class_name] parent_class_name.

(** [get_variable_type] (lines 1058-1059). *)
Definition get_variable_type (self : t) (var_name : string) : option string :=
  type_annotations self !! var_name.

(** The key [f"{class_name}.{method_name}"]. *)
Definition method_key (class_name method_name : string) : string :=
  class_name ++ "." ++ method_name.

(** [add_method_signature] (lines 1068-1075). *)
Definition add_method_signature (self : t) (class_name method_name : string)
    (return_type_zisk : option string)
    (param_types_zisk : option (list (string * option string))) : t :=
  {| type_annotations := type_annotations self;
     class_hierarchy := class_hierarchy self;
     method_signatures :=
       <[method_key class_name method_name :=
           (return_type_zisk, default [] param_types_zisk)]> (method_signatures self) |}.

(** [get_method_signature] (lines 1077-1093): [Some r] when the call
    returns [r], [None] when [fuel] rounds of the loop have not ended it.
    A signature is a dictionary of two entries, which is true. *)
Fixpoint get_method_signature_loop (self : t) (fuel : nat)
    (current_cls_name method_name : string)
  : option (option (option string * list (string * option string))) :=
  match fuel with
  | O => None
  | S fuel' =>
      if String.eqb current_cls_name "" then Some None
      else
        match class_hierarchy self !! current_cls_name with
        | Some (Some superclass_name) =>
            if String.eqb superclass_name "" then Some None
            else
              match method_signatures self !! method_key superclass_name method_name with
              | Some sig_super => Some (Some sig_super)
              | None => get_method_signature_loop self fuel' superclass_name method_name
              end
        | _ => Some None
        end
  end.

Definition get_method_signature (self : t) (fuel : nat) (class_name method_name : string)
  : option (option (option string * list (string * option string))) :=
  match method_signatures self !! method_key class_name method_name with
  | Some sig => Some (Some sig)
  | None => get_method_signature_loop self fuel class_name method_name
  end.

End ZiskTypeSystem.

(** ** Host arithmetic

    The operators the interpreter and the optimizer apply to the operands
    are Python's. On [int] they are exact; on [float] they are the IEEE
    binary64 operations; an [int] meeting a [float] is first converted
    ([OverflowError] when it does not fit). *)

Definition host (A : Type) : Type := A + py_exception.

Definition host_bind {A B} (x : host A) (f : A -> host B) : host B :=
  match x with inl a => f a | inr p => inr p end.

(** [float(z)], rounded to nearest-even. *)
Definition float_of_int (z : Z) : host spec_float :=
  match binary_normalize prec emax z 0 false with
  | S754_infinity _ => inr PyOverflowError
  | f => inl f
  end.

Definition to_float (n : numero) : host spec_float :=
  match n with
  | NInt z => float_of_int z
  | NFloat f => inl f
  end.

(** An integer as an unrounded floating-point datum [m * 2^0]. *)
Definition exact_of_int (z : Z) : spec_float :=
  match z with
  | Z0 => S754_zero false
  | Zpos m => S754_finite false m 0
  | Zneg m => S754_finite true m 0
  end.

Definition float_is_zero (f : spec_float) : bool :=
  match f with S754_zero _ => true | _ => false end.

Definition float_negative (f : spec_float) : bool :=
  match f with
  | S754_finite s _ _ | S754_infinity s => s
  | _ => false
  end.

(** C's [fmod] on binary64: the exact remainder of the truncated division,
    with the sign of the dividend. *)
Definition fmod (x y : spec_float) : spec_float :=
  match x, y with
  | S754_nan, _ | _, S754_nan => S754_nan
  | S754_infinity _, _ => S754_nan
  | _, S754_zero _ => S754_nan
  | _, S754_infinity _ => x
  | S754_zero _, _ => x
  | S754_finite sx mx ex, S754_finite sy my ey =>
      let e := Z.min ex ey in
      let X := Z.shiftl (Zpos mx) (ex - e) in
      let Y := Z.shiftl (Zpos my) (ey - e) in
      let r := Z.rem X Y in
      binary_normalize prec emax (if sx then - r else r) e sx
  end.

(** [float_rem] of CPython, for a divisor that is not zero. *)
Definition float_rem (vx wx : spec_float) : spec_float :=
  let m := fmod vx wx in
  if negb (float_is_zero m) then
    (if negb (Bool.eqb (float_negative wx) (float_negative m))
     then SFadd prec emax m wx else m)
  else S754_zero (float_negative wx).

Definition numero_is_zero (n : numero) : bool :=
  match n with
  | NInt z => Z.eqb z 0
  | NFloat f => float_is_zero f
  end.

Definition py_float_op (op : spec_float -> spec_float -> spec_float)
    (a b : numero) : host numero :=
  host_bind (to_float a) (fun x =>
  host_bind (to_float b) (fun y => inl (NFloat (op x y)))).

Definition py_add (a b : numero) : host numero :=
  match a, b with
  | NInt x, NInt y => inl (NInt (x + y))
  | _, _ => py_float_op (SFadd prec emax) a b
  end.

Definition py_sub (a b : numero) : host numero :=
  match a, b with
  | NInt x, NInt y => inl (NInt (x - y))
  | _, _ => py_float_op (SFsub prec emax) a b
  end.

Definition py_mul (a b : numero) : host numero :=
  match a, b with
  | NInt x, NInt y => inl (NInt (x * y))
  | _, _ => py_float_op (SFmul prec emax) a b
  end.

(** [a / b]: true division. *)
Definition py_truediv (a b : numero) : host numero :=
  match a, b with
  | NInt x, NInt y =>
      if Z.eqb y 0 then inr PyZeroDivisionError
      else
        match SFdiv prec emax (exact_of_int x) (exact_of_int y) with
        | S754_infinity _ => inr PyOverflowError
        | f => inl (NFloat f)
        end
  | _, _ =>
      host_bind (to_float a) (fun x =>
      host_bind (to_float b) (fun y =>
        if float_is_zero y then inr PyZeroDivisionError
        else inl (NFloat (SFdiv prec emax x y))))
  end.

(** [a % b]. *)
Definition py_mod (a b : numero) : host numero :=
  match a, b with
  | NInt x, NInt y =>
      if Z.eqb y 0 then inr PyZeroDivisionError
      else inl (NInt (x mod y))
  | _, _ =>
      host_bind (to_float a) (fun x =>
      host_bind (to_float b) (fun y =>
        if float_is_zero y then inr PyZeroDivisionError
        else inl (NFloat (float_rem x y))))
  end.

(** ** ZiskOptimizer (lines 1633-1696) *)

Module ZiskOptimizer.

(** A list item or tuple child whose first component is the string [tag]
    is taken for an AST node by [optimize]; a parameter pair or an object
    property whose name is one of the three rewritten tags fails in the
    tuple unpacking. *)
Definition pair_tag_check (tag : string) : host unit :=
  if String.eqb tag "OPERACION_ARITMETICA" || String.eqb tag "SI"
     || String.eqb tag "MIENTRAS"
  then inr PyValueError else inl tt.

Fixpoint optimize_params (ps : list (string * option string))
  : host (list (string * option string)) :=
  match ps with
  | [] => inl []
  | (name, ty) :: ps' =>
      host_bind (pair_tag_check name) (fun _ =>
      host_bind (optimize_params ps') (fun ps'' => inl ((name, ty) :: ps'')))
  end.

(** Constant folding of [('OPERACION_ARITMETICA', op, lhs, rhs)] once the
    children are optimized: [Some r] when a [return] (or an exception)
    leaves [optimize], [None] when control falls through to the end. The
    [ZiskError] built at lines 1670 and 1673 is not raised. *)
Definition fold_constant (op : string) (lhs rhs : ast) : option (host ast) :=
  match lhs with
  | NADA => Some (inr (PyTypeError false))
  | NUMERO l_val =>
      match rhs with
      | NADA => Some (inr (PyTypeError false))
      | NUMERO r_val =>
          let r :=
            if String.eqb op "+" then Some (py_add l_val r_val)
            else if String.eqb op "-" then Some (py_sub l_val r_val)
            else if String.eqb op "*" then Some (py_mul l_val r_val)
            else if String.eqb op "/" then Some (py_truediv l_val r_val)
            else if String.eqb op "%" then Some (py_mod l_val r_val)
            else None in
          match r with
          | Some (inl v) => Some (inl (NUMERO v))
          | Some (inr (PyTypeError _)) => None      (* [except TypeError: pass] *)
          | Some (inr p) => Some (inr p)
          | None => None
          end
      | _ => None
      end
  | _ => None
  end.

(** [optimize] (lines 1639-1696); the result [NADA] is Python's [None]. *)
Fixpoint optimize (ast_node : ast) : host ast :=
  let fix optimize_list (l : list ast) : host (list ast) :=
    match l with
    | [] => inl []
    | item :: l' =>
        host_bind (optimize item) (fun item' =>
        host_bind (optimize_list l') (fun l'' =>
          inl (if node_truthy item' then item' :: l'' else l'')))
    end in
  let fix optimize_props (l : list (string * ast)) : host (list (string * ast)) :=
    match l with
    | [] => inl []
    | (clave, valor) :: l' =>
        host_bind (optimize valor) (fun valor' =>
        host_bind (pair_tag_check clave) (fun _ =>
        host_bind (optimize_props l') (fun l'' => inl ((clave, valor') :: l''))))
    end in
  match ast_node with
  | NADA => inl NADA
  | PROGRAMA ds => host_bind (optimize_list ds) (fun ds' => inl (PROGRAMA ds'))
  | BLOQUE ss => host_bind (optimize_list ss) (fun ss' => inl (BLOQUE ss'))
  | DECLARACION_VAR n t v =>
      host_bind (optimize v) (fun v' => inl (DECLARACION_VAR n t v'))
  | DECLARACION_CONST n t v =>
      host_bind (optimize v) (fun v' => inl (DECLARACION_CONST n t v'))
  | DECLARACION_VAR_MIEMBRO n t v e p =>
      host_bind (optimize v) (fun v' => inl (DECLARACION_VAR_MIEMBRO n t v' e p))
  | DECLARACION_CONST_MIEMBRO n t v e p =>
      host_bind (optimize v) (fun v' => inl (DECLARACION_CONST_MIEMBRO n t v' e p))
  | FUNCION n ps r c =>
      host_bind (optimize_params ps) (fun ps' =>
      host_bind (optimize c) (fun c' => inl (FUNCION n ps' r c')))
  | CLASE n sup ms =>
      host_bind (optimize_list ms) (fun ms' => inl (CLASE n sup ms'))
  | METODO n ps r c e p =>
      host_bind (optimize_params ps) (fun ps' =>
      host_bind (optimize c) (fun c' => inl (METODO n ps' r c' e p)))
  | IMPORTA path al => inl (IMPORTA path al)
  | SI cond si_b sino_b =>
      host_bind (optimize cond) (fun cond' =>
      host_bind (optimize si_b) (fun si_b' =>
      host_bind (optimize sino_b) (fun sino_b' =>
        match cond' with
        | NADA => inr (PyTypeError false)
        | BOOLEANO true => inl si_b'
        | BOOLEANO false => inl sino_b'
        | _ => inl (SI cond' si_b' sino_b')
        end)))
  | MIENTRAS cond cuerpo =>
      host_bind (optimize cond) (fun cond' =>
      host_bind (optimize cuerpo) (fun cuerpo' =>
        match cond' with
        | NADA => inr (PyTypeError false)
        | BOOLEANO false => inl NADA
        | _ => inl (MIENTRAS cond' cuerpo')
        end))
  | PARA i c u b =>
      host_bind (optimize i) (fun i' =>
      host_bind (optimize c) (fun c' =>
      host_bind (optimize u) (fun u' =>
      host_bind (optimize b) (fun b' => inl (PARA i' c' u' b')))))
  | HACER_MIENTRAS b c =>
      host_bind (optimize b) (fun b' =>
      host_bind (optimize c) (fun c' => inl (HACER_MIENTRAS b' c')))
  | RETORNA v lc => host_bind (optimize v) (fun v' => inl (RETORNA v' lc))
  | BREAK lc => inl (BREAK lc)
  | CONTINUA lc => inl (CONTINUA lc)
  | TRY_CATCH t ev c f =>
      host_bind (optimize t) (fun t' =>
      host_bind (optimize c) (fun c' =>
      host_bind (optimize f) (fun f' => inl (TRY_CATCH t' ev c' f'))))
  | ASIGNACION op l r =>
      host_bind (optimize l) (fun l' =>
      host_bind (optimize r) (fun r' => inl (ASIGNACION op l' r')))
  | OPERACION_ARITMETICA op l r =>
      host_bind (optimize l) (fun l' =>
      host_bind (optimize r) (fun r' =>
        match fold_constant op l' r' with
        | Some res => res
        | None => inl (OPERACION_ARITMETICA op l' r')
        end))
  | OPERACION_COMPARACION op l r =>
      host_bind (optimize l) (fun l' =>
      host_bind (optimize r) (fun r' => inl (OPERACION_COMPARACION op l' r')))
  | OPERACION_LOGICA op l r =>
      host_bind (optimize l) (fun l' =>
      host_bind (optimize r) (fun r' => inl (OPERACION_LOGICA op l' r')))
  | OPERACION_UNARIA op e =>
      host_bind (optimize e) (fun e' => inl (OPERACION_UNARIA op e'))
  | LLAMADA c args =>
      host_bind (optimize c) (fun c' =>
      host_bind (optimize_list args) (fun args' => inl (LLAMADA c' args')))
  | LLAMADA_NATIVA n args =>
      host_bind (optimize_list args) (fun args' => inl (LLAMADA_NATIVA n args'))
  | CONSTRUCTOR n args =>
      host_bind (optimize_list args) (fun args' => inl (CONSTRUCTOR n args'))
  | ACCESO_MIEMBRO o m =>
      host_bind (optimize o) (fun o' => inl (ACCESO_MIEMBRO o' m))
  | ACCESO_INDICE c i =>
      host_bind (optimize c) (fun c' =>
      host_bind (optimize i) (fun i' => inl (ACCESO_INDICE c' i')))
  | IDENTIFICADOR n => inl (IDENTIFICADOR n)
  | ESTE => inl ESTE
  | NUMERO n => inl (NUMERO n)
  | CADENA s => inl (CADENA s)
  | BOOLEANO b => inl (BOOLEANO b)
  | NULO => inl NULO
  | LISTA_LITERAL es =>
      host_bind (optimize_list es) (fun es' => inl (LISTA_LITERAL es'))
  | OBJETO_LITERAL ps =>
      host_bind (optimize_props ps) (fun ps' => inl (OBJETO_LITERAL ps'))
  end.

End ZiskOptimizer.

(** ** ZiskParser (lines 135-945) *)

Module ZiskParser.

(** A token [(tipo, valor, linea, columna)], as the lexer emits it. *)
Record token := MkToken {
  tipo_token : string;
  valor_token : string;
  linea_token : Z;
  columna_token : Z }.

(** The parser object. [scopes] holds the innermost frame first; a frame
    maps a name to its declaration kind and declared type. [current_token]
    is [tokens[token_index]], or [None] past the end. *)
Record t := Mk {
  tokens : list token;
  token_index : nat;
  scopes : list (gmap string (string * option string));
  current_class : option string }.

Definition init : t :=
  {| tokens := []; token_index := 0; scopes := [∅]; current_class := None |}.

Definition current_token (self : t) : option token :=
  tokens self !! token_index self.

Inductive result (A : Type) :=
| Ok (a : A) (self : t)
| Error (e : zisk_error) (self : t)   (* a [ZiskError] is raised *)
| HostError (p : py_exception) (self : t)
| OutOfFuel.
Arguments Ok {A} a self.
Arguments Error {A} e self.
Arguments HostError {A} p self.
Arguments OutOfFuel {A}.

Definition P (A : Type) : Type := t -> result A.

Definition ret {A} (a : A) : P A := fun self => Ok a self.

Definition error {A} (msg : string) (lin col : Z) : P A :=
  fun self => Error (MkError ZiskError msg lin col) self.

Definition bind {A B} (m : P A) (k : A -> P B) : P B :=
  fun self =>
    match m self with
    | Ok a self' => k a self'
    | Error e self' => Error e self'
    | HostError p self' => HostError p self'
    | OutOfFuel => OutOfFuel
    end.

#[local] Notation "'let*' x ':=' m 'in' k" := (bind m (fun x => k))
  (at level 10, x pattern, m at level 200, k at level 200).

Definition peek : P (option token) := fun self => Ok (current_token self) self.

Definition set_scopes (sc : list (gmap string (string * option string))) (self : t) : t :=
  {| tokens := tokens self; token_index := token_index self; scopes := sc;
     current_class := current_class self |}.

Definition set_current_class (c : option string) : P unit :=
  fun self =>
    Ok tt {| tokens := tokens self; token_index := token_index self;
             scopes := scopes self; current_class := c |}.

Definition enter_scope : P unit :=
  fun self => Ok tt (set_scopes (∅ :: scopes self) self).

(** [exit_scope]: the last frame is never popped. *)
Definition exit_scope : P unit :=
  fun self =>
    Ok tt match scopes self with
          | _ :: (_ :: _) as rest => set_scopes rest self
          | _ => self
          end.

Definition current_scope (self : t) : gmap string (string * option string) :=
  match scopes self with
  | frame :: _ => frame
  | [] => ∅
  end.

Definition variable_declared_in_current_scope (name : string) (self : t) : bool :=
  bool_decide (is_Some (current_scope self !! name)).

(** [self.current_scope()[name] = decl]. *)
Definition register (name : string) (decl : string * option string) : P unit :=
  fun self =>
    match scopes self with
    | frame :: rest => Ok tt (set_scopes (<[name := decl]> frame :: rest) self)
    | [] => HostError PyIndexError self
    end.

(** The position reported at the end of the input. *)
Definition end_position (at_end_of_lexeme : bool) (self : t) : Z * Z :=
  match last (tokens self) with
  | Some tk =>
      (linea_token tk,
       if at_end_of_lexeme
       then columna_token tk + Z.of_nat (String.length (valor_token tk))
       else columna_token tk)
  | None => (1, 1)
  end.

(** [consume] (lines 908-938). *)
Definition consume (expected_type expected_value : option string) : P token :=
  fun self =>
    match current_token self with
    | None =>
        let '(lin, col) := end_position true self in
        error "Se esperaba un token pero se llegó al final del código." lin col self
    | Some tk =>
        if match expected_type with
           | Some ty => negb (String.eqb (tipo_token tk) ty)
           | None => false
           end
        then
          error ("Se esperaba token de tipo " ++ default "" expected_type
                   ++ ", pero se encontró " ++ tipo_token tk ++ ".")
            (linea_token tk) (columna_token tk) self
        else if match expected_value with
                | Some v => negb (String.eqb (valor_token tk) v)
                | None => false
                end
        then
          error ("Se esperaba valor '" ++ default "" expected_value
                   ++ "', pero se encontró '" ++ valor_token tk ++ "'.")
            (linea_token tk) (columna_token tk) self
        else
          Ok tk {| tokens := tokens self; token_index := S (token_index self);
                   scopes := scopes self; current_class := current_class self |}
    end.

Definition consume_type (ty : string) : P token := consume (Some ty) None.
Definition consume_value (ty v : string) : P token := consume (Some ty) (Some v).

(** [current_token] is of the given type. *)
Definition is_type (ty : string) (o : option token) : bool :=
  match o with
  | Some tk => String.eqb (tipo_token tk) ty
  | None => false
  end.

(** [current_token] is of the given type and text. *)
Definition is_type_value (ty v : string) (o : option token) : bool :=
  match o with
  | Some tk => String.eqb (tipo_token tk) ty && String.eqb (valor_token tk) v
  | None => false
  end.

(** [self.current_token and self.current_token[1] != v]. *)
Definition not_closing (v : string) (o : option token) : bool :=
  match o with
  | Some tk => negb (String.eqb (valor_token tk) v)
  | None => false
  end.

Definition in_list (x : string) (l : list string) : bool := existsb (String.eqb x) l.

Definition consume_optional_semicolon : P bool :=
  let* tk := peek in
  if is_type "PUNTO_COMA" tk
  then let* _ := consume_type "PUNTO_COMA" in ret true
  else ret false.

(** *** Naming conventions: the regular expressions of the parser *)

Definition between (lo hi c : ascii) : bool :=
  (nat_of_ascii lo <=? nat_of_ascii c)%nat && (nat_of_ascii c <=? nat_of_ascii hi)%nat.
Definition is_lower (c : ascii) : bool := between "a" "z" c.
Definition is_upper (c : ascii) : bool := between "A" "Z" c.
Definition is_digit (c : ascii) : bool := between "0" "9" c.
Definition is_underscore (c : ascii) : bool := Ascii.eqb c "_".

(** [rest*$]: characters of the class to the end, or to a final newline. *)
Fixpoint all_to_end (cls : ascii -> bool) (s : string) : bool :=
  match s with
  | EmptyString => true
  | String c rest =>
      if cls c then all_to_end cls rest
      else Ascii.eqb c "010" && match rest with EmptyString => true | _ => false end
  end.

(** [^[a-z_][a-zA-Z0-9_]*$] *)
Definition lower_name (s : string) : bool :=
  match s with
  | String c rest =>
      (is_lower c || is_underscore c)
      && all_to_end (fun c => is_lower c || is_upper c || is_digit c || is_underscore c) rest
  | EmptyString => false
  end.

(** [^[A-Z][a-zA-Z0-9_]*$] *)
Definition pascal_name (s : string) : bool :=
  match s with
  | String c rest =>
      is_upper c
      && all_to_end (fun c => is_lower c || is_upper c || is_digit c || is_underscore c) rest
  | EmptyString => false
  end.

(** [^[A-Z_][A-Z0-9_]*$] *)
Definition upper_name (s : string) : bool :=
  match s with
  | String c rest =>
      (is_upper c || is_underscore c)
      && all_to_end (fun c => is_upper c || is_digit c || is_underscore c) rest
  | EmptyString => false
  end.

Definition starts_with_underscore (s : string) : bool :=
  match s with
  | String c _ => is_underscore c
  | EmptyString => false
  end.

(** *** Literals *)

Fixpoint digits_value (s : string) (acc : Z) : option Z :=
  match s with
  | EmptyString => Some acc
  | String c rest =>
      if is_digit c
      then digits_value rest (10 * acc + Z.of_nat (nat_of_ascii c - 48))
      else None
  end.

Fixpoint split_at_dot (s : string) : option (string * string) :=
  match s with
  | EmptyString => None
  | String c rest =>
      if Ascii.eqb c "."
      then Some (EmptyString, rest)
      else match split_at_dot rest with
           | Some (a, b) => Some (String c a, b)
           | None => None
           end
  end.

(** [float(token_value) if '.' in token_value else int(token_value)] on a
    lexeme of the lexer's form, digits or digits.digits. The decimal
    [digits.digits] is the quotient of two integers, rounded once. *)
Definition numero_of_lexeme (token_value : string) : host numero :=
  match split_at_dot token_value with
  | None =>
      match token_value, digits_value token_value 0 with
      | String _ _, Some z => inl (NInt z)
      | _, _ => inr PyValueError
      end
  | Some (ent, frac) =>
      match ent, frac, digits_value (ent ++ frac) 0 with
      | String _ _, String _ _, Some m =>
          inl (NFloat (SFdiv prec emax (exact_of_int m)
                         (exact_of_int (10 ^ Z.of_nat (String.length frac)))))
      | _, _, _ => inr PyValueError
      end
  end.

(** [token_value[1:-1]] *)
Definition strip_quotes (token_value : string) : string :=
  String.substring 1 (String.length token_value - 2) token_value.

(** [if self.current_class:] *)
Definition opt_truthy_class (o : option string) : bool :=
  match o with
  | Some c => negb (String.eqb c "")
  | None => false
  end.

(** *** The grammar

    The methods call each other recursively. [self_] stands for the calls
    that go back up the grammar (an expression inside an expression, a
    declaration inside a block), [iterations] bounds the [while] loops,
    each round of which consumes at least one token. *)

Inductive entry :=
| parse_expresion_
| parse_expresion_asignacion_
| parse_expresion_unaria_
| parse_declaracion_.

Section Grammar.

Variable self_ : entry -> P ast.
Variable iterations : nat.

(** The loop shared by call arguments, list literals and the like:
    expressions separated by [COMA] up to the token [cierre]. *)
Fixpoint parse_argumentos (k : nat) (cierre : string) (argumentos : list ast)
  : P (list ast) :=
  match k with
  | O => fun _ => OutOfFuel
  | S k' =>
      let* tk := peek in
      if not_closing cierre tk then
        let* _ :=
          if (0 <? length argumentos)%nat
          then let* _ := consume_type "COMA" in ret tt
          else ret tt in
        let* e := self_ parse_expresion_ in
        parse_argumentos k' cierre (argumentos ++ [e])
      else ret argumentos
  end.

(** [parse_lista_literal] (lines 672-680). *)
Definition parse_lista_literal : P ast :=
  let* _ := consume_value "CORCHETE" "[" in
  let* elementos := parse_argumentos iterations "]" [] in
  let* _ := consume_value "CORCHETE" "]" in
  ret (LISTA_LITERAL elementos).

(** [parse_objeto_literal] (lines 682-706). *)
Fixpoint parse_propiedades (k : nat) (propiedades : list (string * ast))
  : P (list (string * ast)) :=
  match k with
  | O => fun _ => OutOfFuel
  | S k' =>
      let* tk := peek in
      if not_closing "}" tk then
        let* _ :=
          if (0 <? length propiedades)%nat
          then let* _ := consume_type "COMA" in ret tt
          else ret tt in
        let* clave_token := peek in
        match clave_token with
        | None => fun self => HostError (PyTypeError false) self
        | Some ct =>
            let* clave_str :=
              if String.eqb (tipo_token ct) "IDENTIFICADOR" then
                let* _ := consume_type "IDENTIFICADOR" in ret (valor_token ct)
              else if String.eqb (tipo_token ct) "CADENA" then
                let* _ := consume_type "CADENA" in ret (strip_quotes (valor_token ct))
              else
                error "Se esperaba un identificador o cadena como clave de objeto."
                  (linea_token ct) (columna_token ct) in
            let* _ := consume_type "DOS_PUNTOS" in
            let* valor_expr := self_ parse_expresion_ in
            parse_propiedades k' (propiedades ++ [(clave_str, valor_expr)])
        end
      else ret propiedades
  end.

Definition parse_objeto_literal : P ast :=
  let* _ := consume_value "LLAVE" "{" in
  let* propiedades := parse_propiedades iterations [] in
  let* _ := consume_value "LLAVE" "}" in
  ret (OBJETO_LITERAL propiedades).

(** [parse_expresion_primaria] (lines 590-670). *)
Definition parse_expresion_primaria : P ast :=
  let* tk := peek in
  match tk with
  | None =>
      fun self =>
        let '(lin, col) := end_position false self in
        error "Se esperaba una expresión primaria, pero se encontró el fin del archivo."
          lin col self
  | Some tok =>
      let token_type := tipo_token tok in
      let token_value := valor_token tok in
      if String.eqb token_type "IDENTIFICADOR" then
        let* _ := consume_type "IDENTIFICADOR" in ret (IDENTIFICADOR token_value)
      else if String.eqb token_type "NUMERO" then
        let* _ := consume_type "NUMERO" in
        match numero_of_lexeme token_value with
        | inl n => ret (NUMERO n)
        | inr p => fun self => HostError p self
        end
      else if String.eqb token_type "CADENA" then
        let* _ := consume_type "CADENA" in ret (CADENA (strip_quotes token_value))
      else if String.eqb token_type "VERDADERO" then
        let* _ := consume_type "VERDADERO" in ret (BOOLEANO true)
      else if String.eqb token_type "FALSO" then
        let* _ := consume_type "FALSO" in ret (BOOLEANO false)
      else if String.eqb token_type "NULO" then
        let* _ := consume_type "NULO" in ret NULO
      else if String.eqb token_type "PARENTESIS" && String.eqb token_value "(" then
        let* _ := consume_value "PARENTESIS" "(" in
        let* expresion := self_ parse_expresion_ in
        let* _ := consume_value "PARENTESIS" ")" in
        ret expresion
      else if String.eqb token_type "CORCHETE" && String.eqb token_value "[" then
        parse_lista_literal
      else if String.eqb token_type "LLAVE" && String.eqb token_value "{" then
        parse_objeto_literal
      else if String.eqb token_type "ESTE" then
        let* _ := consume_type "ESTE" in
        fun self =>
          if negb (opt_truthy_class (current_class self)) then
            error "'este' solo puede usarse dentro de un método de clase."
              (linea_token tok) (columna_token tok) self
          else Ok ESTE self
      else if String.eqb token_type "NUEVO" then
        let* _ := consume_type "NUEVO" in
        let* clase_nombre_token := consume_type "IDENTIFICADOR" in
        let* _ := consume_value "PARENTESIS" "(" in
        let* argumentos := parse_argumentos iterations ")" [] in
        let* _ := consume_value "PARENTESIS" ")" in
        ret (CONSTRUCTOR (valor_token clase_nombre_token) argumentos)
      else if String.eqb token_type "INGRESAR" then
        let* _ := consume_type "INGRESAR" in
        let* _ := consume_value "PARENTESIS" "(" in
        let* tk' := peek in
        let* prompt_expr :=
          if not_closing ")" tk'
          then let* e := self_ parse_expresion_ in ret [e]
          else ret [] in
        let* _ := consume_value "PARENTESIS" ")" in
        ret (LLAMADA_NATIVA "ingresar" prompt_expr)
      else
        error ("Expresión primaria no válida: token inesperado '" ++ token_value ++ "'.")
          (linea_token tok) (columna_token tok)
  end.

(** [parse_expresion_llamada_o_acceso] (lines 555-587). *)
Fixpoint parse_sufijos (k : nat) (expr : ast) : P ast :=
  match k with
  | O => fun _ => OutOfFuel
  | S k' =>
      let* tk := peek in
      if is_type_value "PARENTESIS" "(" tk then
        let* _ := consume_value "PARENTESIS" "(" in
        let* argumentos := parse_argumentos iterations ")" [] in
        let* _ := consume_value "PARENTESIS" ")" in
        parse_sufijos k' (LLAMADA expr argumentos)
      else if is_type_value "CORCHETE" "[" tk then
        let* _ := consume_value "CORCHETE" "[" in
        let* indice := self_ parse_expresion_ in
        let* _ := consume_value "CORCHETE" "]" in
        parse_sufijos k' (ACCESO_INDICE expr indice)
      else if is_type "PUNTO" tk then
        let* _ := consume_type "PUNTO" in
        let* miembro_token := consume_type "IDENTIFICADOR" in
        parse_sufijos k' (ACCESO_MIEMBRO expr (valor_token miembro_token))
      else ret expr
  end.

Definition parse_expresion_llamada_o_acceso : P ast :=
  let* expr := parse_expresion_primaria in
  parse_sufijos iterations expr.

(** [current_token] is an [OPERADOR] whose text is in [ops]. *)
Definition is_operator (ops : list string) (o : option token) : bool :=
  match o with
  | Some tk => String.eqb (tipo_token tk) "OPERADOR" && in_list (valor_token tk) ops
  | None => false
  end.

(** [parse_expresion_unaria] (lines 547-553). *)
Definition parse_expresion_unaria : P ast :=
  let* tk := peek in
  if is_operator ["-"; "!"] tk then
    let* operador_token := consume_type "OPERADOR" in
    let* expresion := self_ parse_expresion_unaria_ in
    ret (OPERACION_UNARIA (valor_token operador_token) expresion)
  else parse_expresion_llamada_o_acceso.

(** The left-associative loop of a binary level: [operand (op operand)*]. *)
Fixpoint parse_binaria (k : nat) (ops : list string) (node : string -> ast -> ast -> ast)
    (operand : P ast) (izquierda : ast) : P ast :=
  match k with
  | O => fun _ => OutOfFuel
  | S k' =>
      let* tk := peek in
      if is_operator ops tk then
        let* operador_token := consume_type "OPERADOR" in
        let* derecha := operand in
        parse_binaria k' ops node operand (node (valor_token operador_token) izquierda derecha)
      else ret izquierda
  end.

Definition parse_expresion_multiplicacion : P ast :=
  let* izquierda := parse_expresion_unaria in
  parse_binaria iterations ["*"; "/"; "%"] OPERACION_ARITMETICA
    parse_expresion_unaria izquierda.

Definition parse_expresion_adicion : P ast :=
  let* izquierda := parse_expresion_multiplicacion in
  parse_binaria iterations ["+"; "-"] OPERACION_ARITMETICA
    parse_expresion_multiplicacion izquierda.

Definition parse_expresion_comparacion : P ast :=
  let* izquierda := parse_expresion_adicion in
  parse_binaria iterations ["=="; "!="; "<"; ">"; "<="; ">="] OPERACION_COMPARACION
    parse_expresion_adicion izquierda.

Definition parse_expresion_logica_y : P ast :=
  let* izquierda := parse_expresion_comparacion in
  parse_binaria iterations ["&&"] OPERACION_LOGICA parse_expresion_comparacion izquierda.

Definition parse_expresion_logica_o : P ast :=
  let* izquierda := parse_expresion_logica_y in
  parse_binaria iterations ["||"] OPERACION_LOGICA parse_expresion_logica_y izquierda.

(** [parse_expresion_asignacion] (lines 476-501). *)
Definition parse_expresion_asignacion : P ast :=
  let* izquierda := parse_expresion_logica_o in
  let* tk := peek in
  if is_operator ["="; "+="; "-="; "*="; "/="; "%="] tk then
    let* op_token := consume_type "OPERADOR" in
    if negb match izquierda with
            | IDENTIFICADOR _ | ACCESO_MIEMBRO _ _ | ACCESO_INDICE _ _ => true
            | _ => false
            end
    then
      error
        "El lado izquierdo de una asignación debe ser una variable, propiedad o elemento de lista."
        (linea_token op_token) (columna_token op_token)
    else
      let* derecha := self_ parse_expresion_asignacion_ in
      ret (ASIGNACION (valor_token op_token) izquierda derecha)
  else ret izquierda.

Definition parse_expresion : P ast := parse_expresion_asignacion.

(** [: TIPO], when present. *)
Definition parse_tipo_opcional : P (option string) :=
  let* tk := peek in
  if is_type "DOS_PUNTOS" tk then
    let* _ := consume_type "DOS_PUNTOS" in
    let* tipo_tk := consume_type "TIPO" in
    ret (Some (valor_token tipo_tk))
  else ret None.

(** [parse_declaracion_variable] (lines 358-391). *)
Definition parse_declaracion_variable (es_miembro es_estatico_miembro es_publico_miembro : bool)
  : P ast :=
  let* _ := consume_type "VAR" in
  let* nombre_token := consume_type "IDENTIFICADOR" in
  let nombre := valor_token nombre_token in
  if negb (lower_name nombre) then
    error "Nombre de variable debe usar camelCase o snake_case comenzando con minúscula."
      (linea_token nombre_token) (columna_token nombre_token)
  else
    fun self =>
      if negb es_miembro && variable_declared_in_current_scope nombre self then
        error ("Variable '" ++ nombre ++ "' ya declarada en este ámbito.")
          (linea_token nombre_token) (columna_token nombre_token) self
      else
        (let* tipo := parse_tipo_opcional in
         let* tk := peek in
         let* valor :=
           if is_type_value "OPERADOR" "=" tk then
             let* _ := consume_value "OPERADOR" "=" in
             self_ parse_expresion_
           else ret NADA in
         let* _ := if negb es_miembro then register nombre ("VAR", tipo) else ret tt in
         let* _ := consume_optional_semicolon in
         if es_miembro then
           ret (DECLARACION_VAR_MIEMBRO nombre tipo valor es_estatico_miembro
                  es_publico_miembro)
         else ret (DECLARACION_VAR nombre tipo valor)) self.

(** [parse_declaracion_constante] (lines 394-421). *)
Definition parse_declaracion_constante
    (es_miembro es_estatico_miembro es_publico_miembro : bool) : P ast :=
  let* _ := consume_type "CONST" in
  let* nombre_token := consume_type "IDENTIFICADOR" in
  let nombre := valor_token nombre_token in
  if negb (upper_name nombre) then
    error "Nombre de constante debe usar MAYUSCULAS_CON_GUIONES_BAJOS."
      (linea_token nombre_token) (columna_token nombre_token)
  else
    fun self =>
      if negb es_miembro && variable_declared_in_current_scope nombre self then
        error ("Constante '" ++ nombre ++ "' ya declarada en este ámbito.")
          (linea_token nombre_token) (columna_token nombre_token) self
      else
        (let* tipo := parse_tipo_opcional in
         let* _ := consume_value "OPERADOR" "=" in
         let* valor := self_ parse_expresion_ in
         let* _ := if negb es_miembro then register nombre ("CONST", tipo) else ret tt in
         let* _ := consume_optional_semicolon in
         if es_miembro then
           ret (DECLARACION_CONST_MIEMBRO nombre tipo valor es_estatico_miembro
                  es_publico_miembro)
         else ret (DECLARACION_CONST nombre tipo valor)) self.

(** [parse_bloque] (lines 873-887). *)
Fixpoint parse_sentencias (k : nat) (sentencias : list ast) : P (list ast) :=
  match k with
  | O => fun _ => OutOfFuel
  | S k' =>
      let* tk := peek in
      if not_closing "}" tk then
        let* d := self_ parse_declaracion_ in
        parse_sentencias k' (sentencias ++ [d])
      else ret sentencias
  end.

Definition parse_bloque (is_function_body : bool) : P ast :=
  let* _ := if negb is_function_body then enter_scope else ret tt in
  let* _ := consume_value "LLAVE" "{" in
  let* sentencias := parse_sentencias iterations [] in
  let* _ := consume_value "LLAVE" "}" in
  let* _ := exit_scope in
  ret (BLOQUE sentencias).

(** [parse_bloque_o_sentencia] (lines 889-899). *)
Definition parse_bloque_o_sentencia : P ast :=
  let* tk := peek in
  if is_type_value "LLAVE" "{" tk then parse_bloque false
  else
    let* _ := enter_scope in
    let* sentencia := self_ parse_declaracion_ in
    let* _ := exit_scope in
    ret (BLOQUE [sentencia]).

(** [parse_si] (lines 708-724). *)
Definition parse_si : P ast :=
  let* _ := consume_type "SI" in
  let* condicion := parse_expresion in
  let* tk := peek in
  let* _ :=
    if is_type "ENTONCES" tk then let* _ := consume_type "ENTONCES" in ret tt
    else ret tt in
  let* bloque_si := parse_bloque_o_sentencia in
  let* tk' := peek in
  let* bloque_sino :=
    if is_type "SINO" tk' then
      let* _ := consume_type "SINO" in parse_bloque_o_sentencia
    else ret NADA in
  ret (SI condicion bloque_si bloque_sino).

(** [parse_mientras] (lines 726-730). *)
Definition parse_mientras : P ast :=
  let* _ := consume_type "MIENTRAS" in
  let* condicion := parse_expresion in
  let* cuerpo := parse_bloque_o_sentencia in
  ret (MIENTRAS condicion cuerpo).

(** [parse_para] (lines 732-759). *)
Definition parse_para : P ast :=
  let* _ := consume_type "PARA" in
  let* _ := consume_value "PARENTESIS" "(" in
  let* tk := peek in
  let* inicializacion :=
    match tk with
    | Some t0 =>
        if negb (String.eqb (tipo_token t0) "PUNTO_COMA") then
          if String.eqb (tipo_token t0) "VAR" then
            parse_declaracion_variable false false true
          else
            let* e := parse_expresion in
            let* _ := consume_type "PUNTO_COMA" in ret e
        else let* _ := consume_type "PUNTO_COMA" in ret NADA
    | None => let* _ := consume_type "PUNTO_COMA" in ret NADA
    end in
  let* tk1 := peek in
  let* condicion :=
    match tk1 with
    | Some t1 =>
        if negb (String.eqb (tipo_token t1) "PUNTO_COMA") then parse_expresion
        else ret NADA
    | None => ret NADA
    end in
  let* _ := consume_type "PUNTO_COMA" in
  let* tk2 := peek in
  let* actualizacion :=
    if not_closing ")" tk2 then parse_expresion else ret NADA in
  let* _ := consume_value "PARENTESIS" ")" in
  let* cuerpo := parse_bloque_o_sentencia in
  ret (PARA inicializacion condicion actualizacion cuerpo).

(** [parse_hacer_mientras] (lines 762-768). *)
Definition parse_hacer_mientras : P ast :=
  let* _ := consume_type "HACER_MIENTRAS" in
  let* cuerpo := parse_bloque_o_sentencia in
  let* _ := consume_type "MIENTRAS" in
  let* condicion := parse_expresion in
  let* _ := consume_optional_semicolon in
  ret (HACER_MIENTRAS cuerpo condicion).

(** [parse_mostrar] (lines 770-780). *)
Definition parse_mostrar : P ast :=
  let* _ := consume_type "MOSTRAR" in
  let* _ := consume_value "PARENTESIS" "(" in
  let* argumentos := parse_argumentos iterations ")" [] in
  let* _ := consume_value "PARENTESIS" ")" in
  let* _ := consume_optional_semicolon in
  ret (LLAMADA_NATIVA "mostrar" argumentos).

(** [parse_retorna] (lines 785-794). *)
Definition parse_retorna : P ast :=
  let* start_token := consume_type "RETORNA" in
  let* tk := peek in
  let* valor :=
    match tk with
    | Some _ =>
        if negb (is_type "PUNTO_COMA" tk || is_type_value "LLAVE" "}" tk)
        then parse_expresion else ret NADA
    | None => ret NADA
    end in
  let* _ := consume_optional_semicolon in
  ret (RETORNA valor (linea_token start_token, columna_token start_token)).

Definition parse_break : P ast :=
  let* start_token := consume_type "BREAK" in
  let* _ := consume_optional_semicolon in
  ret (BREAK (linea_token start_token, columna_token start_token)).

Definition parse_continua : P ast :=
  let* start_token := consume_type "CONTINUA" in
  let* _ := consume_optional_semicolon in
  ret (CONTINUA (linea_token start_token, columna_token start_token)).

(** [parse_try_catch] (lines 806-829). The scope entered for the error
    variable is not the one that [parse_bloque] pops: the block enters and
    leaves a scope of its own. *)
Definition parse_try_catch : P ast :=
  let* _ := consume_type "TRY" in
  let* bloque_try := parse_bloque false in
  let* tk := peek in
  let* catch_clause :=
    if is_type "CATCH" tk then
      let* _ := consume_type "CATCH" in
      let* _ := consume_value "PARENTESIS" "(" in
      let* error_var_token := consume_type "IDENTIFICADOR" in
      let* _ := consume_value "PARENTESIS" ")" in
      let* _ := enter_scope in
      let* _ := register (valor_token error_var_token) ("VAR_ERROR", None) in
      let* b := parse_bloque false in
      ret (Some (valor_token error_var_token), b)
    else ret (None, NADA) in
  let* tk' := peek in
  let* bloque_finally :=
    if is_type "FINALLY" tk' then
      let* _ := consume_type "FINALLY" in parse_bloque false
    else ret NADA in
  ret (TRY_CATCH bloque_try (fst catch_clause) (snd catch_clause) bloque_finally).

(** [parse_importa] (lines 831-870). *)
Definition parse_importa : P ast :=
  let* _ := consume_type "IMPORTA" in
  let* tk := peek in
  match tk with
  | None => fun self => HostError (PyTypeError false) self
  | Some t0 =>
      let* path_modulo_str :=
        if String.eqb (tipo_token t0) "CADENA" then
          let* path_token := consume_type "CADENA" in
          ret (strip_quotes (valor_token path_token))
        else if String.eqb (tipo_token t0) "IDENTIFICADOR" then
          let* modulo_token := consume_type "IDENTIFICADOR" in
          ret (valor_token modulo_token)
        else
          error
            "Se esperaba un nombre de módulo (identificador) o una ruta (cadena) después de 'importa'."
            (linea_token t0) (columna_token t0) in
      let* tk' := peek in
      let* alias_modulo :=
        if is_type "COMO" tk' then
          let* _ := consume_type "COMO" in
          let* alias_token := consume_type "IDENTIFICADOR" in
          ret (Some (valor_token alias_token))
        else ret None in
      let* _ := consume_optional_semicolon in
      ret (IMPORTA path_modulo_str alias_modulo)
  end.

(** [parse_sentencia] (lines 424-459). *)
Definition parse_sentencia : P ast :=
  let* tk := peek in
  match tk with
  | None =>
      fun self =>
        let '(lin, col) := end_position false self in
        error "Se esperaba una sentencia, pero se encontró el fin del archivo." lin col self
  | Some t0 =>
      let token_type := tipo_token t0 in
      if String.eqb token_type "SI" then parse_si
      else if String.eqb token_type "MIENTRAS" then parse_mientras
      else if String.eqb token_type "PARA" then parse_para
      else if String.eqb token_type "HACER_MIENTRAS" then parse_hacer_mientras
      else if String.eqb token_type "MOSTRAR" then parse_mostrar
      else if String.eqb token_type "INGRESAR" then
        let* expr := parse_expresion in
        let* _ := consume_optional_semicolon in ret expr
      else if String.eqb token_type "RETORNA" then parse_retorna
      else if String.eqb token_type "BREAK" then parse_break
      else if String.eqb token_type "CONTINUA" then parse_continua
      else if String.eqb token_type "TRY" then parse_try_catch
      else if String.eqb token_type "LLAVE" && String.eqb (valor_token t0) "{" then
        parse_bloque false
      else
        let* expr := parse_expresion in
        let* _ := consume_optional_semicolon in ret expr
  end.

(** The parameter list of a function or method, up to [)]. *)
Fixpoint parse_parametros (k : nat) (metodo : bool)
    (parametros : list (string * option string)) : P (list (string * option string)) :=
  match k with
  | O => fun _ => OutOfFuel
  | S k' =>
      let* tk := peek in
      if not_closing ")" tk then
        let* _ :=
          if (0 <? length parametros)%nat
          then let* _ := consume_type "COMA" in ret tt
          else ret tt in
        let* param_token := consume_type "IDENTIFICADOR" in
        let param_nombre := valor_token param_token in
        if metodo && String.eqb param_nombre "este" then
          error "'este' es una palabra reservada y no puede ser un nombre de parámetro."
            (linea_token param_token) (columna_token param_token)
        else
          let* tipo_param := parse_tipo_opcional in
          let* _ := register param_nombre ("PARAM", tipo_param) in
          parse_parametros k' metodo (parametros ++ [(param_nombre, tipo_param)])
      else ret parametros
  end.

(** [parse_funcion] (lines 205-242). *)
Definition parse_funcion : P ast :=
  let* _ := consume_type "FUNCION" in
  let* nombre_token := consume_type "IDENTIFICADOR" in
  let nombre := valor_token nombre_token in
  if negb (lower_name nombre) then
    error "Nombre de función debe usar camelCase o snake_case comenzando con minúscula."
      (linea_token nombre_token) (columna_token nombre_token)
  else
    let* _ := consume_value "PARENTESIS" "(" in
    let* _ := enter_scope in
    let* parametros := parse_parametros iterations false [] in
    let* _ := consume_value "PARENTESIS" ")" in
    let* tipo_retorno := parse_tipo_opcional in
    let* cuerpo := parse_bloque true in
    ret (FUNCION nombre parametros tipo_retorno cuerpo).

(** [parse_metodo_clase] (lines 307-356). *)
Definition parse_metodo_clase (es_estatico es_publico : bool) : P ast :=
  let* _ := consume_type "FUNCION" in
  let* nombre_token := consume_type "IDENTIFICADOR" in
  let nombre := valor_token nombre_token in
  if es_publico && negb (lower_name nombre) then
    error
      "Nombre de método público debe usar camelCase o snake_case comenzando con minúscula."
      (linea_token nombre_token) (columna_token nombre_token)
  else if negb es_publico
          && negb (starts_with_underscore nombre || lower_name nombre)
          && negb (starts_with_underscore nombre)
  then
    error "Nombre de método privado convencionalmente debe comenzar con '_'."
      (linea_token nombre_token) (columna_token nombre_token)
  else
    let* _ := consume_value "PARENTESIS" "(" in
    let* _ := enter_scope in
    let* parametros := parse_parametros iterations true [] in
    let* _ := consume_value "PARENTESIS" ")" in
    let* tipo_retorno := parse_tipo_opcional in
    let* cuerpo := parse_bloque true in
    ret (METODO nombre parametros tipo_retorno cuerpo es_estatico es_publico).

(** The modifiers in front of a class member (lines 267-277). *)
Fixpoint parse_modificadores (k : nat) (es_estatico es_publico : bool)
  : P (bool * bool) :=
  match k with
  | O => fun _ => OutOfFuel
  | S k' =>
      let* tk := peek in
      if is_type "ESTATICO" tk then
        let* _ := consume None None in parse_modificadores k' true es_publico
      else if is_type "PUBLICO" tk then
        let* _ := consume None None in parse_modificadores k' es_estatico true
      else if is_type "PRIVADO" tk then
        let* _ := consume None None in parse_modificadores k' es_estatico false
      else ret (es_estatico, es_publico)
  end.

(** The members of a class, up to [}] (lines 265-286). *)
Fixpoint parse_miembros (k : nat) (miembros : list ast) : P (list ast) :=
  match k with
  | O => fun _ => OutOfFuel
  | S k' =>
      let* tk := peek in
      if not_closing "}" tk then
        let* modificadores := parse_modificadores iterations false true in
        let es_estatico := fst modificadores in
        let es_publico := snd modificadores in
        let* tk' := peek in
        if is_type "VAR" tk' then
          let* m := parse_declaracion_variable true es_estatico es_publico in
          parse_miembros k' (miembros ++ [m])
        else if is_type "CONST" tk' then
          let* m := parse_declaracion_constante true es_estatico es_publico in
          parse_miembros k' (miembros ++ [m])
        else if is_type "FUNCION" tk' then
          let* m := parse_metodo_clase es_estatico es_publico in
          parse_miembros k' (miembros ++ [m])
        else
          match tk' with
          | None =>
              fun self =>
                let '(lin, col) := end_position false self in
                error
                  "Se esperaba un miembro de clase o '}' pero se encontró el fin del archivo."
                  lin col self
          | Some t1 =>
              error "En una clase solo se permiten variables, constantes y métodos."
                (linea_token t1) (columna_token t1)
          end
      else ret miembros
  end.

(** [parse_clase] (lines 244-292). *)
Definition parse_clase : P ast :=
  let* _ := consume_type "CLASE" in
  let* nombre_token := consume_type "IDENTIFICADOR" in
  let nombre := valor_token nombre_token in
  if negb (pascal_name nombre) then
    error "Nombre de clase debe usar PascalCase."
      (linea_token nombre_token) (columna_token nombre_token)
  else
    let* tk := peek in
    let* superclase :=
      if is_type "EXTIENDE" tk then
        let* _ := consume_type "EXTIENDE" in
        let* superclase_token := consume_type "IDENTIFICADOR" in
        ret (Some (valor_token superclase_token))
      else ret None in
    let* old_class := (fun self => Ok (current_class self) self) in
    let* _ := set_current_class (Some nombre) in
    let* _ := enter_scope in
    let* _ := consume_value "LLAVE" "{" in
    let* miembros := parse_miembros iterations [] in
    let* _ := consume_value "LLAVE" "}" in
    let* _ := exit_scope in
    let* _ := set_current_class old_class in
    ret (CLASE nombre superclase miembros).

(** [parse_declaracion] (lines 180-203). *)
Definition parse_declaracion : P ast :=
  let* tk := peek in
  match tk with
  | None =>
      fun self =>
        let '(lin, col) := end_position false self in
        error "Se esperaba una declaración, pero se encontró el fin del archivo."
          lin col self
  | Some t0 =>
      let token_type := tipo_token t0 in
      if String.eqb token_type "FUNCION" then parse_funcion
      else if String.eqb token_type "CLASE" then parse_clase
      else if String.eqb token_type "VAR" then parse_declaracion_variable false false true
      else if String.eqb token_type "CONST" then
        parse_declaracion_constante false false true
      else if String.eqb token_type "IMPORTA" then parse_importa
      else parse_sentencia
  end.

Definition parse_entry (e : entry) : P ast :=
  match e with
  | parse_expresion_ => parse_expresion
  | parse_expresion_asignacion_ => parse_expresion_asignacion
  | parse_expresion_unaria_ => parse_expresion_unaria
  | parse_declaracion_ => parse_declaracion
  end.

End Grammar.

(** The recursion of the grammar, cut off after [fuel] nested calls. *)
Fixpoint parse_rec (fuel : nat) (e : entry) : P ast :=
  match fuel with
  | O => fun _ => OutOfFuel
  | S fuel' => parse_entry (parse_rec fuel') fuel' e
  end.

(** [parse_programa] (lines 174-178). *)
Fixpoint parse_programa (fuel k : nat) (declaraciones : list ast) : P ast :=
  match k with
  | O => fun _ => OutOfFuel
  | S k' =>
      let* tk := peek in
      match tk with
      | Some _ =>
          let* d := parse_rec fuel parse_declaracion_ in
          parse_programa fuel k' (declaraciones ++ [d])
      | None => ret (PROGRAMA declaraciones)
      end
  end.

(** [parse] (lines 168-172): the token list is replaced and the index
    reset; the scopes and the current class are those the parser object
    already has. *)
Definition parse (fuel : nat) (toks : list token) : P ast :=
  fun self =>
    parse_programa fuel fuel []
      {| tokens := toks; token_index := 0; scopes := scopes self;
         current_class := current_class self |}.

End ZiskParser.

(** ** ZiskLexer (lines 29-131)

    The text is a sequence of characters with code points below 256. None of
    the patterns of [tokens_spec] looks behind the position it is tried at,
    so a match at [posicion] is a match on [code[posicion:]]; the functions
    below work on that rest of the text and give the matched text
    ([match.group()]) together with the text after the match. *)

Module ZiskLexer.

Import ZiskParser.

(** The forms of regular expression that [tokens_spec] uses. *)
Inductive pattern :=
| Palabra (w : string)              (* the characters of a word *)
| Alternativas (ws : list string)   (* one of several words, the first that fits *)
| PatIdentificador                  (* a letter or underscore, then letters, digits, underscores *)
| PatNumero                         (* digits, then optionally a point and digits *)
| PatCadena                         (* a quoted text with backslash escapes *)
| PatOperador                       (* a two-character operator, else a one-character one *)
| Caracter (cs : list ascii)        (* one character of a set *)
| PatComentarioLinea                (* two slashes or a hash, then the rest of the line *)
| PatComentarioBloque               (* slash-star to star-slash, or three hashes to three hashes *)
| PatEspacio                        (* white space *)
| PatCualquiera.                    (* any character but a newline *)

(** [self.tokens_spec], in order (lines 31-87). *)
Definition tokens_spec : list (string * pattern) :=
  [ ("HACER_MIENTRAS", Palabra "hacer_mientras");
    ("VERDADERO", Palabra "verdadero");
    ("CONTINUA", Palabra "continua");
    ("EXTIENDE", Palabra "extiende");
    ("ENTONCES", Palabra "entonces");
    ("ESTATICO", Palabra "estatico");
    ("FUNCION", Palabra "funcion");
    ("IMPORTA", Palabra "importa");
    ("INGRESAR", Palabra "ingresar");
    ("MIENTRAS", Palabra "mientras");
    ("MOSTRAR", Palabra "mostrar");
    ("PRIVADO", Palabra "privado");
    ("PUBLICO", Palabra "publico");
    ("RETORNA", Palabra "retorna");
    ("FINALLY", Palabra "finally");
    ("AWAIT", Palabra "await");
    ("CLASE", Palabra "clase");
    ("CONST", Palabra "const");
    ("DESDE", Palabra "desde");
    ("FALSO", Palabra "falso");
    ("NUEVO", Palabra "nuevo");
    ("SINO", Palabra "sino");
    ("ASYNC", Palabra "async");
    ("BREAK", Palabra "break");
    ("CATCH", Palabra "catch");
    ("COMO", Palabra "como");
    ("ESTE", Palabra "este");
    ("PARA", Palabra "para");
    ("NULO", Palabra "nulo");
    ("TIPO", Alternativas ["entero"; "decimal"; "texto"; "booleano"; "lista"; "objeto";
                           "funcion"; "clase"]);
    ("VAR", Palabra "var");
    ("SI", Palabra "si");
    ("EN", Palabra "en");
    ("TRY", Palabra "try");
    ("IDENTIFICADOR", PatIdentificador);
    ("NUMERO", PatNumero);
    ("CADENA", PatCadena);
    ("OPERADOR", PatOperador);
    ("PARENTESIS", Caracter ["("%char; ")"%char]);
    ("LLAVE", Caracter ["{"%char; "}"%char]);
    ("CORCHETE", Caracter ["["%char; "]"%char]);
    ("COMA", Caracter [","%char]);
    ("PUNTO", Caracter ["."%char]);
    ("PUNTO_COMA", Caracter [";"%char]);
    ("DOS_PUNTOS", Caracter [":"%char]);
    ("COMENTARIO_LINEA", PatComentarioLinea);
    ("COMENTARIO_BLOQUE", PatComentarioBloque);
    ("ESPACIO", PatEspacio);
    ("NO_VALIDO", PatCualquiera) ].

Definition comilla : ascii := "034".
Definition barra_invertida : ascii := "092".
Definition salto_de_linea : ascii := "010".

(** [\s] on a text pattern: the characters for which [str.isspace] holds. *)
Definition is_space (c : ascii) : bool :=
  let n := nat_of_ascii c in
  ((9 <=? n) && (n <=? 13) || (28 <=? n) && (n <=? 32)
   || (n =? 133) || (n =? 160))%nat.

Definition is_letter (c : ascii) : bool := is_lower c || is_upper c || is_underscore c.
Definition is_word (c : ascii) : bool := is_letter c || is_digit c.

(** The rest of [s] after the word [w], when [s] starts with it. *)
Fixpoint strip_prefix (w s : string) : option string :=
  match w with
  | EmptyString => Some s
  | String a w' =>
      match s with
      | String b s' => if Ascii.eqb a b then strip_prefix w' s' else None
      | EmptyString => None
      end
  end.

(** The longest prefix of characters of a class, and the rest: a greedy
    [cls*]. *)
Fixpoint span (cls : ascii -> bool) (s : string) : string * string :=
  match s with
  | String c rest =>
      if cls c then (String c (fst (span cls rest)), snd (span cls rest))
      else (EmptyString, s)
  | EmptyString => (EmptyString, EmptyString)
  end.

Definition match_palabra (w s : string) : option (string * string) :=
  match strip_prefix w s with
  | Some rest => Some (w, rest)
  | None => None
  end.

Fixpoint match_alternativas (ws : list string) (s : string) : option (string * string) :=
  match ws with
  | [] => None
  | w :: ws' =>
      match match_palabra w s with
      | Some r => Some r
      | None => match_alternativas ws' s
      end
  end.

Definition match_caracter (cs : list ascii) (s : string) : option (string * string) :=
  match s with
  | String c rest =>
      if existsb (Ascii.eqb c) cs then Some (String c EmptyString, rest) else None
  | EmptyString => None
  end.

Definition match_identificador (s : string) : option (string * string) :=
  match s with
  | String c rest =>
      if is_letter c
      then Some (String c (fst (span is_word rest)), snd (span is_word rest))
      else None
  | EmptyString => None
  end.

(** [\d+(\.\d+)?]: the digits, then a point and digits when both are there. *)
Definition match_numero (s : string) : option (string * string) :=
  let ent := span is_digit s in
  match fst ent with
  | EmptyString => None
  | String _ _ =>
      match snd ent with
      | String c rest =>
          let frac := span is_digit rest in
          if Ascii.eqb c "."
          then match fst frac with
               | EmptyString => Some ent
               | String _ _ => Some (fst ent ++ String c (fst frac), snd frac)
               end
          else Some ent
      | EmptyString => Some ent
      end
  end.

(** The body of a text literal and the closing quote: rounds of one
    character that is neither a quote nor a backslash, or of a backslash
    and one character that is not a newline. The two alternatives
    of the group start with different characters, so the repetition can be
    cut into rounds in one way only, and each round starts with a character
    that is not a quote: the pattern fits exactly when the rounds stop in
    front of a quote. *)
Fixpoint cadena_cuerpo (s : string) : option (string * string) :=
  match s with
  | EmptyString => None
  | String c rest =>
      if Ascii.eqb c comilla then Some (String c EmptyString, rest)
      else if Ascii.eqb c barra_invertida then
        match rest with
        | String d rest' =>
            if Ascii.eqb d salto_de_linea then None
            else match cadena_cuerpo rest' with
                 | Some r => Some (String c (String d (fst r)), snd r)
                 | None => None
                 end
        | EmptyString => None
        end
      else match cadena_cuerpo rest with
           | Some r => Some (String c (fst r), snd r)
           | None => None
           end
  end.

Definition match_cadena (s : string) : option (string * string) :=
  match s with
  | String c rest =>
      if Ascii.eqb c comilla
      then match cadena_cuerpo rest with
           | Some r => Some (String c (fst r), snd r)
           | None => None
           end
      else None
  | EmptyString => None
  end.

Definition match_operador (s : string) : option (string * string) :=
  match
    match_alternativas ["=="; "!="; "<="; ">="; "||"; "&&"; "+="; "-="; "*="; "/="; "%="] s
  with
  | Some r => Some r
  | None =>
      match_caracter ["+"%char; "-"%char; "*"%char; "/"%char; "%"%char; "="%char;
                "<"%char; ">"%char; "!"%char] s
  end.

Definition match_comentario_linea (s : string) : option (string * string) :=
  match match_alternativas ["//"; "#"] s with
  | Some r =>
      let linea := span (fun c => negb (Ascii.eqb c salto_de_linea)) (snd r) in
      Some (fst r ++ fst linea, snd linea)
  | None => None
  end.

(** [[\s\S]*?] followed by the word [cierre]: up to its first occurrence. *)
Fixpoint hasta (cierre s : string) : option (string * string) :=
  match strip_prefix cierre s with
  | Some rest => Some (cierre, rest)
  | None =>
      match s with
      | String c s' =>
          match hasta cierre s' with
          | Some r => Some (String c (fst r), snd r)
          | None => None
          end
      | EmptyString => None
      end
  end.

Definition delimitado (abre cierre s : string) : option (string * string) :=
  match strip_prefix abre s with
  | Some rest =>
      match hasta cierre rest with
      | Some r => Some (abre ++ fst r, snd r)
      | None => None
      end
  | None => None
  end.

Definition match_comentario_bloque (s : string) : option (string * string) :=
  match delimitado "/*" "*/" s with
  | Some r => Some r
  | None => delimitado "###" "###" s
  end.

Definition match_espacio (s : string) : option (string * string) :=
  match fst (span is_space s) with
  | EmptyString => None
  | String _ _ => Some (span is_space s)
  end.

Definition match_cualquiera (s : string) : option (string * string) :=
  match s with
  | String c rest =>
      if Ascii.eqb c salto_de_linea then None else Some (String c EmptyString, rest)
  | EmptyString => None
  end.

Definition match_pattern (p : pattern) (s : string) : option (string * string) :=
  match p with
  | Palabra w => match_palabra w s
  | Alternativas ws => match_alternativas ws s
  | PatIdentificador => match_identificador s
  | PatNumero => match_numero s
  | PatCadena => match_cadena s
  | PatOperador => match_operador s
  | Caracter cs => match_caracter cs s
  | PatComentarioLinea => match_comentario_linea s
  | PatComentarioBloque => match_comentario_bloque s
  | PatEspacio => match_espacio s
  | PatCualquiera => match_cualquiera s
  end.

(** The alternation of the named groups: the first group, in the order of
    the list, whose pattern fits gives [match.lastgroup] and the match. *)
Fixpoint first_match (spec : list (string * pattern)) (s : string)
  : option (string * (string * string)) :=
  match spec with
  | [] => None
  | (name, p) :: spec' =>
      match match_pattern p s with
      | Some r => Some (name, r)
      | None => first_match spec' s
      end
  end.

(** [self.regex_compilado.match(code, posicion)], on [code[posicion:]]. *)
Definition regex_compilado (resto : string) : option (string * (string * string)) :=
  first_match tokens_spec resto.

(** [valor_token.count('\n')] *)
Fixpoint count_newlines (s : string) : Z :=
  match s with
  | EmptyString => 0
  | String c rest =>
      (if Ascii.eqb c salto_de_linea then 1 else 0) + count_newlines rest
  end.

(** [valor_token.rfind('\n')], scanning from index [i]. *)
Fixpoint rfind_newline (s : string) (i found : Z) : Z :=
  match s with
  | EmptyString => found
  | String c rest =>
      rfind_newline rest (i + 1) (if Ascii.eqb c salto_de_linea then i else found)
  end.

Inductive result :=
| Tokens (tokens_encontrados : list token)
| Error (e : zisk_error)
| OutOfFuel.

(** The loop of [tokenize] (lines 104-129); [resto] is [code[posicion:]]. *)
Fixpoint tokenize_loop (fuel : nat) (resto : string)
    (posicion linea_num col_inicio_linea : Z) (tokens_encontrados : list token)
  : result :=
  match resto with
  | EmptyString => Tokens tokens_encontrados
  | String primero _ =>
      match fuel with
      | O => OutOfFuel
      | S fuel' =>
          match regex_compilado resto with
          | None =>
              Error (MkError ZiskError
                       ("Carácter inesperado no reconocido por el lexer: '"
                          ++ String primero EmptyString ++ "'")
                       linea_num (posicion - col_inicio_linea + 1))
          | Some (tipo_token, (valor_token, resto')) =>
              let col_actual := posicion - col_inicio_linea + 1 in
              let saltos_linea_en_token := count_newlines valor_token in
              let continuar tokens_encontrados' :=
                tokenize_loop fuel' resto'
                  (posicion + Z.of_nat (String.length valor_token))
                  (if (0 <? saltos_linea_en_token)%Z
                   then linea_num + saltos_linea_en_token else linea_num)
                  (if (0 <? saltos_linea_en_token)%Z
                   then posicion + rfind_newline valor_token 0 (-1) + 1
                   else col_inicio_linea)
                  tokens_encontrados' in
              if in_list tipo_token ["COMENTARIO_LINEA"; "COMENTARIO_BLOQUE"; "ESPACIO"]
              then continuar tokens_encontrados
              else if String.eqb tipo_token "NO_VALIDO" then
                Error (MkError ZiskError
                         ("Carácter no válido: '" ++ valor_token ++ "'")
                         linea_num col_actual)
              else
                continuar
                  (tokens_encontrados
                     ++ [MkToken tipo_token valor_token linea_num col_actual])%list
          end
      end
  end.

(** [tokenize] (lines 94-131). Each round of the loop consumes at least
    one character, so the length of the text bounds their number. *)
Definition tokenize (code : string) : result :=
  tokenize_loop (String.length code) code 0 1 0 [].

(** The words of [tokens_spec]: the keywords and the type names. *)
Definition palabras_reservadas : list string :=
  flat_map (fun e => match snd e with
                     | Palabra w => [w]
                     | Alternativas ws => ws
                     | _ => []
                     end) tokens_spec.

End ZiskLexer.

(** ** ZiskREPL: the execution engine (lines 1700-2715)

    Not embedded: class declarations and instances ([CLASE], and with it
    [self.classes] and [self.current_self], which stay empty), module
    import, keyboard input, the [convertir_*] natives and the attributes
    of host objects other than dictionaries. Where the behaviour of the
    source depends on one of these, the model answers [Unmodelled]. Text
    is taken to be ASCII (one character per byte). *)

Module ZiskREPL.

(** An entry of a scope frame: [(value, {'is_const': ..., 'type': ...})]. *)
Record binding := MkBinding {
  valor_de : value;
  is_const : bool;
  tipo_de : string }.

Inductive heap_object :=
| HList (items : list value)
| HDict (items : gmap string value).

Record state := MkState {
  scopes : list (gmap string binding);  (* innermost frame first *)
  heap : list heap_object;
  functions : gmap string value;
  type_system : ZiskTypeSystem.t;
  is_in_loop : Z;
  is_in_function : Z;
  salida : list (list value) }.          (* the argument lists given to [print] *)

Definition native_functions : gmap string value :=
  <["mostrar" := VNative native_mostrar]>
  (<["ingresar" := VNative native_ingresar]>
  (<["longitud" := VNative native_longitud]>
  (<["tipo_de" := VNative native_tipo_de]>
  (<["convertir_a_entero" := VNative (native_convertir "entero")]>
  (<["convertir_a_decimal" := VNative (native_convertir "decimal")]>
  (<["convertir_a_texto" := VNative (native_convertir "texto")]>
  (<["convertir_a_booleano" := VNative (native_convertir "booleano")]> ∅))))))).

(** [ZiskREPL.__init__] with its own, fresh type system. *)
Definition init : state :=
  {| scopes := [∅]; heap := []; functions := native_functions;
     type_system := ZiskTypeSystem.init;
     is_in_loop := 0; is_in_function := 0; salida := [] |}.

Inductive outcome (A : Type) :=
| Val (a : A) (s : state)    (* normal completion *)
| Exc (e : exn) (s : state)  (* an exception propagates *)
| OutOfFuel
| Unmodelled.
Arguments Val {A} a s.
Arguments Exc {A} e s.
Arguments OutOfFuel {A}.
Arguments Unmodelled {A}.

Definition M (A : Type) : Type := state -> outcome A.

Definition ret {A} (a : A) : M A := fun s => Val a s.
Definition raise {A} (e : exn) : M A := fun s => Exc e s.
Definition unmodelled {A} : M A := fun _ => Unmodelled.

Definition bind {A B} (m : M A) (k : A -> M B) : M B :=
  fun s =>
    match m s with
    | Val a s' => k a s'
    | Exc e s' => Exc e s'
    | OutOfFuel => OutOfFuel
    | Unmodelled => Unmodelled
    end.

#[local] Notation "'let*' x ':=' m 'in' k" := (bind m (fun x => k))
  (at level 10, x pattern, m at level 200, k at level 200).

Definition get_state : M state := fun s => Val s s.
Definition modify (f : state -> state) : M unit := fun s => Val tt (f s).

(** [try: body finally: cleanup], for a cleanup that cannot fail. *)
Definition try_finally {A} (body : M A) (cleanup : state -> state) : M A :=
  fun s =>
    match body s with
    | Val a s' => Val a (cleanup s')
    | Exc e s' => Exc e (cleanup s')
    | OutOfFuel => OutOfFuel
    | Unmodelled => Unmodelled
    end.

Definition raise_zisk {A} (c : error_class) (msg : string) (lin col : Z) : M A :=
  raise (Zisk (MkError c msg lin col)).

Definition raise_python {A} (p : py_exception) : M A := raise (Python p).

Definition lift_host {A} (h : host A) : M A :=
  match h with inl a => ret a | inr p => raise_python p end.

(** *** Scopes *)

Definition set_scopes (sc : list (gmap string binding)) (s : state) : state :=
  {| scopes := sc; heap := heap s; functions := functions s;
     type_system := type_system s; is_in_loop := is_in_loop s;
     is_in_function := is_in_function s; salida := salida s |}.

Definition set_heap (h : list heap_object) (s : state) : state :=
  {| scopes := scopes s; heap := h; functions := functions s;
     type_system := type_system s; is_in_loop := is_in_loop s;
     is_in_function := is_in_function s; salida := salida s |}.

Definition set_functions (f : gmap string value) (s : state) : state :=
  {| scopes := scopes s; heap := heap s; functions := f;
     type_system := type_system s; is_in_loop := is_in_loop s;
     is_in_function := is_in_function s; salida := salida s |}.

Definition set_type_system (ts : ZiskTypeSystem.t) (s : state) : state :=
  {| scopes := scopes s; heap := heap s; functions := functions s;
     type_system := ts; is_in_loop := is_in_loop s;
     is_in_function := is_in_function s; salida := salida s |}.

Definition add_in_loop (d : Z) (s : state) : state :=
  {| scopes := scopes s; heap := heap s; functions := functions s;
     type_system := type_system s; is_in_loop := is_in_loop s + d;
     is_in_function := is_in_function s; salida := salida s |}.

Definition add_in_function (d : Z) (s : state) : state :=
  {| scopes := scopes s; heap := heap s; functions := functions s;
     type_system := type_system s; is_in_loop := is_in_loop s;
     is_in_function := is_in_function s + d; salida := salida s |}.

Definition print (args : list value) (s : state) : state :=
  {| scopes := scopes s; heap := heap s; functions := functions s;
     type_system := type_system s; is_in_loop := is_in_loop s;
     is_in_function := is_in_function s; salida := salida s ++ [args] |}.

Definition enter_scope (s : state) : state := set_scopes (∅ :: scopes s) s.

(** [exit_scope]: the last frame is never popped. *)
Definition exit_scope (s : state) : state :=
  match scopes s with
  | _ :: (_ :: _) as rest => set_scopes rest s
  | _ => s
  end.

(** The first frame, from the innermost outwards, that holds [name], with
    its position. *)
Fixpoint find_scope (name : string) (sc : list (gmap string binding)) (i : nat)
  : option (nat * binding) :=
  match sc with
  | [] => None
  | frame :: sc' =>
      match frame !! name with
      | Some b => Some (i, b)
      | None => find_scope name sc' (S i)
      end
  end.

(** [opt_truthy ty]: the truth value of an optional string ([if tipo:]). *)
Definition opt_truthy (o : option string) : bool :=
  match o with
  | Some t => negb (String.eqb t "")
  | None => false
  end.

(** [_declare_variable] (lines 1770-1784). *)
Definition _declare_variable (name : string) (v : value) (tipo_zisk : option string)
    (const : bool) (lin col : Z) : M unit :=
  fun s =>
    match scopes s with
    | [] => Exc (Python PyIndexError) s
    | scope :: rest =>
        if match scope !! name with Some b => is_const b | None => false end then
          raise_zisk ZiskRuntimeError
            ("No se puede reasignar la constante '" ++ name ++ "'.") lin col s
        else if bool_decide (is_Some (scope !! name)) && const then
          raise_zisk ZiskRuntimeError
            ("'" ++ name
               ++ "' ya está declarada como variable, no puede ser redeclarada como constante.")
            lin col s
        else
          match
            (if opt_truthy tipo_zisk then
               ZiskTypeSystem.validate_assignment (type_system s) name v tipo_zisk
                 lin col false
             else None)
          with
          | Some e => Exc (Zisk e) s
          | None =>
              let ty :=
                if opt_truthy tipo_zisk then default "" tipo_zisk
                else ZiskTypeSystem.infer_type (type_system s) v in
              let s1 := set_scopes (<[name := MkBinding v const ty]> scope :: rest) s in
              Val tt
                (if opt_truthy tipo_zisk then
                   set_type_system
                     (ZiskTypeSystem.add_variable_annotation (type_system s1) name tipo_zisk)
                     s1
                 else s1)
          end
    end.

(** [_assign_variable] (lines 1787-1799). No branch of [execute] calls
    it. *)
Definition _assign_variable (name : string) (v : value) (lin col : Z) : M unit :=
  fun s =>
    match find_scope name (scopes s) 0 with
    | Some (i, b) =>
        if is_const b then
          raise_zisk ZiskRuntimeError
            ("No se puede reasignar la constante '" ++ name ++ "'.") lin col s
        else
          let original_type := tipo_de b in
          match
            (if negb (String.eqb original_type "") then
               ZiskTypeSystem.validate_assignment (type_system s) name v
                 (Some original_type) lin col false
             else None)
          with
          | Some e => Exc (Zisk e) s
          | None =>
              let ty :=
                if negb (String.eqb original_type "") then original_type
                else ZiskTypeSystem.infer_type (type_system s) v in
              Val tt
                (set_scopes (alter (insert name (MkBinding v false ty)) i (scopes s)) s)
          end
    | None =>
        raise_zisk ZiskRuntimeError ("Variable '" ++ name ++ "' no definida.") lin col s
    end.

(** [_get_variable_value] (lines 1801-1822); [self.classes] and
    [self.modules] are empty. *)
Definition _get_variable_value (name : string) (lin col : Z) : M value :=
  fun s =>
    match find_scope name (scopes s) 0 with
    | Some (_, b) => Val (valor_de b) s
    | None =>
        match functions s !! name with
        | Some f => Val f s
        | None =>
            raise_zisk ZiskRuntimeError ("Nombre '" ++ name ++ "' no definido.") lin col s
        end
    end.

(** *** The heap *)

Definition alloc (o : heap_object) : M loc :=
  fun s => Val (length (heap s)) (set_heap (heap s ++ [o]) s).

Definition store (l : loc) (o : heap_object) : M unit :=
  modify (fun s => set_heap (<[l := o]> (heap s)) s).

Definition read_list (l : loc) : M (list value) :=
  fun s =>
    match heap s !! l with
    | Some (HList xs) => Val xs s
    | _ => Unmodelled
    end.

Definition read_dict (l : loc) : M (gmap string value) :=
  fun s =>
    match heap s !! l with
    | Some (HDict d) => Val d s
    | _ => Unmodelled
    end.

(** *** Host operations on values *)

(** Python's truth value. *)
Definition truthy (h : list heap_object) (v : value) : option bool :=
  match v with
  | VNone => Some false
  | VBool b => Some b
  | VInt z => Some (negb (Z.eqb z 0))
  | VFloat f => Some (negb (float_is_zero f))
  | VStr s => Some (negb (String.eqb s ""))
  | VList l =>
      match h !! l with
      | Some (HList xs) => Some (negb (Nat.eqb (length xs) 0))
      | _ => None
      end
  | VDict l =>
      match h !! l with
      | Some (HDict d) => Some (negb (Nat.eqb (size d) 0))
      | _ => None
      end
  | VFunction _ | VNative _ | VClass _ | VInstance _ _ | VError _ => Some true
  end.

Definition is_true (v : value) : M bool :=
  fun s =>
    match truthy (heap s) v with
    | Some b => Val b s
    | None => Unmodelled
    end.

(** The operand as a number ([int], [float], or [bool] as [int]). *)
Definition as_number (v : value) : option numero :=
  match v with
  | VInt z => Some (NInt z)
  | VBool b => Some (NInt (Z.b2z b))
  | VFloat f => Some (NFloat f)
  | _ => None
  end.

Definition value_of_numero (n : numero) : value :=
  match n with
  | NInt z => VInt z
  | NFloat f => VFloat f
  end.

(** [isinstance(v, (int, float))]. *)
Definition is_numeric (v : value) : bool :=
  match as_number v with Some _ => true | None => false end.

(** [isinstance(v, int)]. *)
Definition as_int (v : value) : option Z :=
  match v with
  | VInt z => Some z
  | VBool b => Some (Z.b2z b)
  | _ => None
  end.

(** [v == 0]. *)
Definition equals_zero (v : value) : bool :=
  match as_number v with
  | Some n => numero_is_zero n
  | None => false
  end.

Fixpoint repeat_string (n : nat) (s : string) : string :=
  match n with
  | O => ""
  | S n' => s ++ repeat_string n' s
  end.

Fixpoint repeat_list {A} (n : nat) (l : list A) : list A :=
  match n with
  | O => []
  | S n' => l ++ repeat_list n' l
  end.

(** The binary operators [+ - * / %] of the host on two values: numbers,
    text and lists. String formatting with [%] is not embedded. *)
Definition py_arith (op : string) (a b : value) : M value :=
  match as_number a, as_number b with
  | Some x, Some y =>
      if String.eqb op "+" then let* n := lift_host (py_add x y) in ret (value_of_numero n)
      else if String.eqb op "-" then let* n := lift_host (py_sub x y) in ret (value_of_numero n)
      else if String.eqb op "*" then let* n := lift_host (py_mul x y) in ret (value_of_numero n)
      else if String.eqb op "/" then
        let* n := lift_host (py_truediv x y) in ret (value_of_numero n)
      else if String.eqb op "%" then let* n := lift_host (py_mod x y) in ret (value_of_numero n)
      else unmodelled
  | _, _ =>
      if String.eqb op "+" then
        match a, b with
        | VStr x, VStr y => ret (VStr (x ++ y))
        | VList x, VList y =>
            let* xs := read_list x in
            let* ys := read_list y in
            let* l := alloc (HList (xs ++ ys)) in ret (VList l)
        | _, _ => raise_python (PyTypeError false)
        end
      else if String.eqb op "*" then
        match a, b with
        | VStr x, _ =>
            match as_int b with
            | Some n => ret (VStr (repeat_string (Z.to_nat n) x))
            | None => raise_python (PyTypeError false)
            end
        | VList x, _ =>
            match as_int b with
            | Some n =>
                let* xs := read_list x in
                let* l := alloc (HList (repeat_list (Z.to_nat n) xs)) in ret (VList l)
            | None => raise_python (PyTypeError false)
            end
        | _, VStr y =>
            match as_int a with
            | Some n => ret (VStr (repeat_string (Z.to_nat n) y))
            | None => raise_python (PyTypeError false)
            end
        | _, VList y =>
            match as_int a with
            | Some n =>
                let* ys := read_list y in
                let* l := alloc (HList (repeat_list (Z.to_nat n) ys)) in ret (VList l)
            | None => raise_python (PyTypeError false)
            end
        | _, _ => raise_python (PyTypeError false)
        end
      else if String.eqb op "%" then
        match a with
        | VStr _ => unmodelled
        | _ => raise_python (PyTypeError false)
        end
      else raise_python (PyTypeError false)
  end.

(** Exact comparison of two numbers ([None]: a NaN is involved). *)
Definition compare_int_float (x : Z) (f : spec_float) : option comparison :=
  match f with
  | S754_nan => None
  | S754_infinity s => Some (if s then Gt else Lt)
  | S754_zero _ => Some (x ?= 0)%Z
  | S754_finite s m e =>
      let sm := if s then Zneg m else Zpos m in
      Some (if (0 <=? e)%Z then (x ?= Z.shiftl sm e)%Z
            else (Z.shiftl x (- e) ?= sm)%Z)
  end.

Definition compare_numero (a b : numero) : option comparison :=
  match a, b with
  | NInt x, NInt y => Some (x ?= y)%Z
  | NFloat x, NFloat y => SFcompare x y
  | NInt x, NFloat y => compare_int_float x y
  | NFloat x, NInt y => option_map CompOpp (compare_int_float y x)
  end.

Definition is_heap_value (v : value) : bool :=
  match v with
  | VList _ | VDict _ => true
  | _ => false
  end.

(** [a == b]. Equality of two lists or two dictionaries (structural) and of
    two functions or error objects (identity) is not embedded. *)
Definition py_eq (a b : value) : option bool :=
  match as_number a, as_number b with
  | Some x, Some y =>
      Some match compare_numero x y with Some Eq => true | _ => false end
  | _, _ =>
      match a, b with
      | VStr x, VStr y => Some (String.eqb x y)
      | VNone, VNone => Some true
      | VList _, VList _ | VDict _, VDict _ => None
      | (VFunction _ | VNative _ | VClass _ | VInstance _ _ | VError _),
        (VFunction _ | VNative _ | VClass _ | VInstance _ _ | VError _) => None
      | _, _ => Some false
      end
  end.

(** The result of [a < b], [a > b], [a <= b], [a >= b], given the test on
    the comparison; [TypeError] for operands without an order. *)
Definition py_order (test : comparison -> bool) (a b : value) : M value :=
  match as_number a, as_number b with
  | Some x, Some y =>
      ret (VBool match compare_numero x y with Some c => test c | None => false end)
  | _, _ =>
      match a, b with
      | VStr x, VStr y => ret (VBool (test (String.compare x y)))
      | VList _, VList _ => unmodelled
      | _, _ => raise_python (PyTypeError false)
      end
  end.

(** [str(v)], for the values whose text the embedding can give. *)
Definition str_of (v : value) : option string :=
  match v with
  | VStr t => Some t
  | VInt z => Some (pretty z)
  | VBool true => Some "True"
  | VBool false => Some "False"
  | VNone => Some "None"
  | _ => None
  end.

(** [int(str(v))] for a [v] that passed [isinstance(v, int)]: an [int]
    comes back unchanged, the text of a [bool] is refused. *)
Definition int_of_str_of (v : value) : host Z :=
  match v with
  | VInt z => inl z
  | _ => inr PyValueError
  end.

(** [callable(v)]. *)
Definition callable (v : value) : bool :=
  match v with
  | VFunction _ | VNative _ | VClass _ => true
  | _ => false
  end.

(** [hasattr(v, '__dict__')]. *)
Definition has_dict (v : value) : bool :=
  match v with
  | VFunction _ | VNative _ | VClass _ | VInstance _ _ | VError _ => true
  | _ => false
  end.

(** Where an assignment writes: what [_get_lvalue_location] returns. *)
Inductive lvalue :=
| InScope (i : nat) (name : string)    (* a frame of [self.scopes] and a name *)
| InDict (l : loc) (key : string)      (* a dictionary and a key *)
| InList (l : loc) (index_val : value)  (* a list and the index, kept as text *)
| InObject.                             (* a host object that has a [__dict__] *)

(** The value read back for a compound assignment. *)
Inductive current :=
| CurValue (v : value)
| CurBinding            (* the [(value, meta)] pair of a scope frame *)
| CurNone.

Section Engine.

(** [self.execute] on the children of the node at hand, and the bound on
    the iterations of a loop. *)
Variable exec : ast -> M value.
Variable iterations : nat.

Fixpoint execute_statements (stmts : list ast) (result : value) : M value :=
  match stmts with
  | [] => ret result
  | stmt_node :: rest =>
      let* r := exec stmt_node in execute_statements rest r
  end.

(** [[self.execute(n) for n in nodes]]. *)
Fixpoint execute_all (nodes : list ast) : M (list value) :=
  match nodes with
  | [] => ret []
  | n :: rest =>
      let* v := exec n in
      let* vs := execute_all rest in ret (v :: vs)
  end.

(** *** Calls *)

Fixpoint bind_params (params : list (string * option string)) (args : list value)
  : M unit :=
  match params, args with
  | (p_name, p_type_zisk) :: params', a :: args' =>
      let* _ := _declare_variable p_name a p_type_zisk false 0 0 in
      bind_params params' args'
  | _, _ => ret tt
  end.

(** [except ReturnException as re: return_value = re.value]. *)
Definition catch_return (m : M value) : M value :=
  fun s =>
    match m s with
    | Val _ s' => Val VNone s'
    | Exc (ReturnException v) s' => Val v s'
    | o => o
    end.

(** [zisk_function_wrapper] (lines 1942-1979). *)
Definition zisk_function_wrapper (f : zisk_function) (args_values : list value)
  : M value :=
  let* _ := modify enter_scope in
  let* _ := modify (add_in_function 1) in
  if negb (Nat.eqb (length args_values) (length (_zisk_params f))) then
    raise_zisk ZiskRuntimeError
      ("Función '" ++ _zisk_name f ++ "' esperaba otro número de argumentos.") 0 0
  else
    let* _ := bind_params (_zisk_params f) args_values in
    let* return_value :=
      try_finally (catch_return (exec (body_node f)))
        (fun s => exit_scope (add_in_function (-1) s)) in
    let* s := get_state in
    match
      (if opt_truthy (_zisk_return_type f) then
         ZiskTypeSystem.validate_assignment (type_system s)
           ("retorno de '" ++ _zisk_name f ++ "'") return_value
           (_zisk_return_type f) 0 0 true
       else None)
    with
    | Some e => raise (Zisk e)
    | None => ret return_value
    end.

(** The natives (lines 1736-1761) applied to [args]. A wrong number of
    arguments is the host's [TypeError]; its text says "takes ... but ..."
    only when there are too many. *)
Definition call_one_argument (args : list value) (body : value -> M value) : M value :=
  match args with
  | [] => raise_python (PyTypeError false)
  | [a] => body a
  | _ => raise_python (PyTypeError true)
  end.

Definition _native_longitud (collection : value) : M value :=
  match collection with
  | VStr t => ret (VInt (Z.of_nat (String.length t)))
  | VList l => let* xs := read_list l in ret (VInt (Z.of_nat (length xs)))
  | VDict l => let* d := read_dict l in ret (VInt (Z.of_nat (size d)))
  | _ => raise_zisk ZiskRuntimeError "No se puede obtener longitud de un objeto." 0 0
  end.

Definition call_native (n : native) (args : list value) : M value :=
  match n with
  | native_mostrar => let* _ := modify (print args) in ret VNone
  | native_ingresar =>
      match args with
      | [] | [_] => unmodelled
      | _ => raise_python (PyTypeError true)
      end
  | native_longitud => call_one_argument args _native_longitud
  | native_tipo_de =>
      call_one_argument args (fun v =>
        let* s := get_state in
        ret (VStr (ZiskTypeSystem.infer_type (type_system s) v)))
  | native_convertir _ => call_one_argument args (fun _ => unmodelled)
  end.

Definition call_value (callee_val : value) (args : list value) : M value :=
  match callee_val with
  | VFunction f => zisk_function_wrapper f args
  | VNative n => call_native n args
  | _ => unmodelled
  end.

(** [getattr(callee_val, '_zisk_params', None)] and the other metadata. *)
Definition zisk_metadata (callee_val : value) : option zisk_function :=
  match callee_val with
  | VFunction f => Some f
  | _ => None
  end.

Definition validate_call (name_default : option string) (callee_val : value)
    (arg_values : list value) : M unit :=
  match zisk_metadata callee_val with
  | Some f =>
      match _zisk_params f with
      | [] => ret tt
      | params =>
          let* s := get_state in
          match
            ZiskTypeSystem.validate_function_call (type_system s)
              (default (_zisk_name f) name_default) arg_values params 0 0
          with
          | Some e => raise (Zisk e)
          | None => ret tt
          end
      end
  | None => ret tt
  end.

Definition validate_return (name_default : option string) (callee_val : value)
    (result : value) : M unit :=
  match zisk_metadata callee_val with
  | Some f =>
      if opt_truthy (_zisk_return_type f) then
        let* s := get_state in
        match
          ZiskTypeSystem.validate_assignment (type_system s)
            ("retorno de '" ++ default (_zisk_name f) name_default ++ "'")
            result (_zisk_return_type f) 0 0 true
        with
        | Some e => raise (Zisk e)
        | None => ret tt
        end
      else ret tt
  | None => ret tt
  end.

(** The [except TypeError] around the call (lines 2539-2542). *)
Definition wrap_call_type_error (m : M value) : M value :=
  fun s =>
    match m s with
    | Exc (Python (PyTypeError true)) s' =>
        raise_zisk ZiskRuntimeError "Error al llamar." 0 0 s'
    | o => o
    end.

(** [LLAMADA] (lines 2499-2551). *)
Definition execute_llamada (callee_expr_node : ast) (arg_expr_nodes : list ast)
  : M value :=
  let* arg_values := execute_all arg_expr_nodes in
  let* callee_val := exec callee_expr_node in
  if negb (callable callee_val) then
    let* _ :=
      match callee_expr_node with
      | ACCESO_MIEMBRO obj _ => let* _ := exec obj in ret tt
      | _ => ret tt
      end in
    raise_zisk ZiskTypeError "El objeto no es una función o método llamable." 0 0
  else
    let* _ := validate_call None callee_val arg_values in
    let* result := wrap_call_type_error (call_value callee_val arg_values) in
    let* _ := validate_return None callee_val result in
    ret result.

(** [LLAMADA_NATIVA] (lines 2553-2574). *)
Definition execute_llamada_nativa (native_name : string) (arg_expr_nodes : list ast)
  : M value :=
  let* s := get_state in
  match functions s !! native_name with
  | Some native_func =>
      if negb (callable native_func) then
        raise_zisk ZiskRuntimeError
          ("Función nativa '" ++ native_name ++ "' no implementada o no es llamable.") 0 0
      else
        let* arg_values := execute_all (List.filter node_truthy arg_expr_nodes) in
        let* _ := validate_call (Some native_name) native_func arg_values in
        let* result := call_value native_func arg_values in
        let* _ := validate_return (Some native_name) native_func result in
        ret result
  | None =>
      raise_zisk ZiskRuntimeError
        ("Función nativa '" ++ native_name ++ "' no implementada o no es llamable.") 0 0
  end.

(** *** Assignment *)

(** [_get_lvalue_location] (lines 1824-1862). For an undefined name the
    construction of the error indexes the two-element node at position 2,
    which is the host's [IndexError]. *)
Definition _get_lvalue_location (lhs_node : ast) : M lvalue :=
  match lhs_node with
  | NADA => raise_python (PyTypeError false)
  | IDENTIFICADOR name =>
      let* s := get_state in
      match find_scope name (scopes s) 0 with
      | Some (i, _) => ret (InScope i name)
      | None => raise_python PyIndexError
      end
  | ACCESO_MIEMBRO obj_expr_node member_name =>
      let* obj := exec obj_expr_node in
      match obj with
      | VDict l => ret (InDict l member_name)
      | _ =>
          if has_dict obj then ret InObject
          else
            raise_zisk ZiskRuntimeError
              ("No se puede asignar a la propiedad '" ++ member_name
                 ++ "' de un tipo no objetual/diccionario.") 0 0
      end
  | ACCESO_INDICE collection_expr_node index_expr_node =>
      let* collection := exec collection_expr_node in
      let* index_val := exec index_expr_node in
      match collection with
      | VList l =>
          if negb (isinstance index_val py_int) then
            raise_zisk ZiskTypeError "El índice de la lista debe ser un entero." 0 0
          else ret (InList l index_val)
      | VDict l =>
          match str_of index_val with
          | Some key => ret (InDict l key)
          | None => unmodelled
          end
      | _ =>
          raise_zisk ZiskTypeError
            "Solo se puede usar acceso por índice '[]' en listas o diccionarios." 0 0
      end
  | _ => raise_zisk ZiskRuntimeError "Lado izquierdo de asignación no válido." 0 0
  end.

(** The read of the current value for an operator other than [=]
    (lines 2359-2373). *)
Definition read_current (op_str : string) (target : lvalue) : M current :=
  let* cur :=
    match target with
    | InList l index_val =>
        let* idx := lift_host (int_of_str_of index_val) in
        let* xs := read_list l in
        if (0 <=? idx)%Z && (idx <? Z.of_nat (length xs))%Z then
          match xs !! Z.to_nat idx with
          | Some v => ret (CurValue v)
          | None => unmodelled
          end
        else raise_zisk ZiskRuntimeError "Índice fuera de rango para la lista." 0 0
    | InScope i name => ret CurBinding
    | InDict l key =>
        let* d := read_dict l in
        ret match d !! key with Some v => CurValue v | None => CurNone end
    | InObject => ret CurNone
    end in
  match cur with
  | CurNone | CurValue VNone =>
      raise_zisk ZiskRuntimeError
        ("Variable/propiedad no tiene valor inicial para operador '" ++ op_str ++ "'.") 0 0
  | _ => ret cur
  end.

(** The value to assign (lines 2377-2386): [inl v] is a Zisk value, [inr tt]
    the host tuple that [*=] makes out of a scope entry. *)
Definition compound_value (op_str : string) (cur : current) (rhs_value : value)
  : M (value + unit) :=
  let apply (op : string) : M (value + unit) :=
    match cur with
    | CurValue c => let* v := py_arith op c rhs_value in ret (inl v)
    | CurBinding =>
        if String.eqb op "*" then
          match as_int rhs_value with
          | Some _ => ret (inr tt)
          | None => raise_python (PyTypeError false)
          end
        else raise_python (PyTypeError false)
    | CurNone => raise_python (PyTypeError false)
    end in
  if String.eqb op_str "+=" then apply "+"
  else if String.eqb op_str "-=" then apply "-"
  else if String.eqb op_str "*=" then apply "*"
  else if String.eqb op_str "/=" then
    if equals_zero rhs_value then
      raise_zisk ZiskRuntimeError "División por cero en asignación." 0 0
    else apply "/"
  else if String.eqb op_str "%=" then
    if equals_zero rhs_value then
      raise_zisk ZiskRuntimeError "Módulo por cero en asignación." 0 0
    else apply "%"
  else ret (inl rhs_value).

(** The write to a name (lines 2390-2399): the type recorded for the name
    is validated, then the entry is replaced; nothing looks at [is_const],
    and the new entry is not constant. *)
Definition write_identifier (i : nat) (key_or_name : string) (final : value + unit)
  : M unit :=
  let* s := get_state in
  let original_type :=
    match find_scope key_or_name (scopes s) 0 with
    | Some (_, b) => tipo_de b
    | None => ""
    end in
  match final with
  | inl final_value_to_assign =>
      match
        (if negb (String.eqb original_type "") then
           ZiskTypeSystem.validate_assignment (type_system s) key_or_name
             final_value_to_assign (Some original_type) 0 0 false
         else None)
      with
      | Some e => raise (Zisk e)
      | None =>
          let ty :=
            if negb (String.eqb original_type "") then original_type
            else ZiskTypeSystem.infer_type (type_system s) final_value_to_assign in
          modify (fun s =>
            set_scopes
              (alter (insert key_or_name (MkBinding final_value_to_assign false ty))
                 i (scopes s)) s)
      end
  | inr _ =>
      (* a host tuple is of no Zisk type *)
      if negb (String.eqb original_type "")
         && negb (negb (String.eqb original_type "nulo")
                  && ZiskTypeSystem.in_hierarchy (type_system s) original_type
                  && String.eqb original_type "tuple")
      then
        raise_zisk ZiskTypeError
          ("Tipos incompatibles: no se puede asignar valor de tipo '"
             ++ (if ZiskTypeSystem.in_hierarchy (type_system s) "tuple"
                 then "tuple" else "desconocido")
             ++ "' a '" ++ key_or_name ++ "' de tipo '" ++ original_type ++ "'.") 0 0
      else unmodelled
  end.

(** The write to a list element (lines 2401-2409). *)
Definition write_list_element (l : loc) (index_val : value) (op_str : string)
    (final_value_to_assign : value) : M unit :=
  let* idx := lift_host (int_of_str_of index_val) in
  let* xs := read_list l in
  if (0 <=? idx)%Z && (idx <? Z.of_nat (length xs))%Z then
    store l (HList (<[Z.to_nat idx := final_value_to_assign]> xs))
  else if (idx =? Z.of_nat (length xs))%Z && String.eqb op_str "=" then
    store l (HList (xs ++ [final_value_to_assign]))
  else
    raise_zisk ZiskRuntimeError "Índice fuera de rango para asignación a lista." 0 0.

(** [ASIGNACION] (lines 2340-2428). *)
Definition execute_asignacion (op_str : string) (lhs_node_desc rhs_node_expr : ast)
  : M value :=
  let* rhs_value := exec rhs_node_expr in
  let* target := _get_lvalue_location lhs_node_desc in
  let* final :=
    if negb (String.eqb op_str "=") then
      let* cur := read_current op_str target in
      compound_value op_str cur rhs_value
    else ret (inl rhs_value) in
  let* _ :=
    match target with
    | InScope i key_or_name => write_identifier i key_or_name final
    | InList l index_val =>
        match final with
        | inl v => write_list_element l index_val op_str v
        | inr _ => unmodelled
        end
    | InDict l key_or_name =>
        match final with
        | inl v =>
            let* d := read_dict l in store l (HDict (<[key_or_name := v]> d))
        | inr _ => unmodelled
        end
    | InObject => ret tt
    end in
  match final with
  | inl v => ret v
  | inr _ => unmodelled
  end.

(** *** Operators *)

(** [except TypeError as e: raise ZiskTypeError(...)] (line 2482). *)
Definition type_error_to_zisk (op : string) (m : M value) : M value :=
  fun s =>
    match m s with
    | Exc (Python (PyTypeError _)) s' =>
        raise_zisk ZiskTypeError ("Error de tipo en operación '" ++ op ++ "'.") 0 0 s'
    | o => o
    end.

(** The chain of tests on [op] inside the [try] (lines 2461-2481). *)
Definition apply_operator (op : string) (lhs_val rhs_val : value) : M value :=
  if String.eqb op "+" || String.eqb op "-" || String.eqb op "*" then
    py_arith op lhs_val rhs_val
  else if String.eqb op "/" then
    if equals_zero rhs_val then raise_zisk ZiskRuntimeError "División por cero." 0 0
    else py_arith op lhs_val rhs_val
  else if String.eqb op "%" then
    if equals_zero rhs_val then raise_zisk ZiskRuntimeError "Módulo por cero." 0 0
    else py_arith op lhs_val rhs_val
  else if String.eqb op "==" then
    match py_eq lhs_val rhs_val with
    | Some b => ret (VBool b)
    | None => unmodelled
    end
  else if String.eqb op "!=" then
    match py_eq lhs_val rhs_val with
    | Some b => ret (VBool (negb b))
    | None => unmodelled
    end
  else if String.eqb op "<" then
    py_order (fun c => match c with Lt => true | _ => false end) lhs_val rhs_val
  else if String.eqb op ">" then
    py_order (fun c => match c with Gt => true | _ => false end) lhs_val rhs_val
  else if String.eqb op "<=" then
    py_order (fun c => match c with Gt => false | _ => true end) lhs_val rhs_val
  else if String.eqb op ">=" then
    py_order (fun c => match c with Lt => false | _ => true end) lhs_val rhs_val
  else if String.eqb op "&&" then
    let* b := is_true lhs_val in ret (if b then rhs_val else lhs_val)
  else if String.eqb op "||" then
    let* b := is_true lhs_val in ret (if b then lhs_val else rhs_val)
  else ret VNone.

(** The operand check of [OPERACION_ARITMETICA] (lines 2447-2458). *)
Definition arithmetic_operands_ok (op : string) (lhs_val rhs_val : value) : bool :=
  if is_numeric lhs_val && is_numeric rhs_val then true
  else if String.eqb op "+"
          && match lhs_val, rhs_val with VStr _, VStr _ => true | _, _ => false end
  then true
  else if String.eqb op "*"
          && match lhs_val, rhs_val with
             | VStr _, (VInt _ | VBool _) | (VInt _ | VBool _), VStr _ => true
             | _, _ => false
             end
  then true
  else false.

Inductive operation_kind := Aritmetica | Comparacion | Logica.

(** [OPERACION_ARITMETICA], [OPERACION_COMPARACION], [OPERACION_LOGICA]
    (lines 2431-2483). *)
Definition execute_operacion (kind : operation_kind) (op : string)
    (lhs_node rhs_node : ast) : M value :=
  let* lhs_val := exec lhs_node in
  let* short_circuit :=
    match kind with
    | Logica =>
        if String.eqb op "&&" then
          let* b := is_true lhs_val in
          ret (if negb b then Some (VBool false) else None)
        else if String.eqb op "||" then
          let* b := is_true lhs_val in
          ret (if b then Some (VBool true) else None)
        else ret None
    | _ => ret None
    end in
  match short_circuit with
  | Some v => ret v
  | None =>
      let* rhs_val := exec rhs_node in
      if match kind with
         | Aritmetica => negb (arithmetic_operands_ok op lhs_val rhs_val)
         | _ => false
         end
      then
        raise_zisk ZiskTypeError
          ("Operación aritmética '" ++ op
             ++ "' requiere operandos numéricos (o strings para '+', '*').") 0 0
      else type_error_to_zisk op (apply_operator op lhs_val rhs_val)
  end.

(** [OPERACION_UNARIA] (lines 2486-2497). *)
Definition execute_unaria (op : string) (operand_node : ast) : M value :=
  let* operand_val := exec operand_node in
  if String.eqb op "-" then
    match as_number operand_val with
    | Some (NInt z) => ret (VInt (- z))
    | Some (NFloat f) => ret (VFloat (SFopp f))
    | None =>
        raise_zisk ZiskTypeError "Operador unario '-' requiere operando numérico." 0 0
    end
  else if String.eqb op "!" then
    let* b := is_true operand_val in ret (VBool (negb b))
  else ret VNone.

(** *** Member and index access *)

(** [ACCESO_MIEMBRO] (lines 2611-2641), on a dictionary. *)
Definition execute_acceso_miembro (obj_expr_node : ast) (member_name : string)
  : M value :=
  let* obj_val := exec obj_expr_node in
  match obj_val with
  | VDict l =>
      let* d := read_dict l in
      match d !! member_name with
      | Some v => ret v
      | None =>
          raise_zisk ZiskAttributeError
            ("Objeto (diccionario) no tiene la propiedad '" ++ member_name ++ "'.") 0 0
      end
  | _ => unmodelled
  end.

(** [ACCESO_INDICE] (lines 2643-2673). *)
Definition execute_acceso_indice (coll_node idx_node : ast) : M value :=
  let* collection := exec coll_node in
  let* index := exec idx_node in
  match collection with
  | VList l =>
      match as_int index with
      | None => raise_zisk ZiskTypeError "Índice de lista debe ser entero." 0 0
      | Some i =>
          let* xs := read_list l in
          if negb ((0 <=? i)%Z && (i <? Z.of_nat (length xs))%Z) then
            raise_zisk ZiskIndexError "Índice fuera de rango para lista." 0 0
          else
            match xs !! Z.to_nat i with
            | Some v => ret v
            | None => unmodelled
            end
      end
  | VDict l =>
      let* d := read_dict l in
      match index with
      | VStr key =>
          match d !! key with
          | Some v => ret v
          | None =>
              raise_zisk ZiskKeyError "Clave no encontrada en el objeto (diccionario)." 0 0
          end
      | VList _ | VDict _ => raise_python (PyTypeError false)   (* unhashable *)
      | _ => raise_zisk ZiskKeyError "Clave no encontrada en el objeto (diccionario)." 0 0
      end
  | VStr t =>
      match as_int index with
      | None => raise_zisk ZiskTypeError "Índice de texto debe ser entero." 0 0
      | Some i =>
          if negb ((0 <=? i)%Z && (i <? Z.of_nat (String.length t))%Z) then
            raise_zisk ZiskIndexError "Índice fuera de rango para texto." 0 0
          else ret (VStr (String.substring (Z.to_nat i) 1 t))
      end
  | _ => raise_zisk ZiskTypeError "El tipo no soporta acceso por índice '[]'." 0 0
  end.

Fixpoint execute_properties (props : list (string * ast)) (obj_dict : gmap string value)
  : M (gmap string value) :=
  match props with
  | [] => ret obj_dict
  | (key_str, val_node) :: rest =>
      let* v := exec val_node in
      execute_properties rest (<[key_str := v]> obj_dict)
  end.

(** *** Loops

    Each loop function carries [result], the value of the last completed
    iteration, which is what the statement returns when a
    [BreakException] ends it. *)

(** [except BreakException: pass], then [return result]. *)
Definition catch_break (result : value) (m : M value) : M value :=
  fun s =>
    match m s with
    | Exc BreakException s' => Val result s'
    | o => o
    end.

(** [try: result = self.execute(cuerpo) except ContinueException: ...]:
    [inl r] after a normal completion, [inr tt] after a [continua]. *)
Definition run_body (cuerpo_node : ast) : M (value + unit) :=
  fun s =>
    match exec cuerpo_node s with
    | Val r s' => Val (inl r) s'
    | Exc ContinueException s' => Val (inr tt) s'
    | Exc e s' => Exc e s'
    | OutOfFuel => OutOfFuel
    | Unmodelled => Unmodelled
    end.

Definition execute_optional (node : ast) : M unit :=
  if node_truthy node then let* _ := exec node in ret tt else ret tt.

(** [MIENTRAS] (lines 2210-2225). *)
Fixpoint mientras_loop (k : nat) (cond_node cuerpo_node : ast) (result : value)
  : M value :=
  match k with
  | O => fun _ => OutOfFuel
  | S k' =>
      catch_break result (
        let* c := exec cond_node in
        let* b := is_true c in
        if b then
          let* r := run_body cuerpo_node in
          mientras_loop k' cond_node cuerpo_node
            match r with inl v => v | inr _ => result end
        else ret result)
  end.

Definition execute_mientras (cond_node cuerpo_node : ast) : M value :=
  let* _ := modify (add_in_loop 1) in
  try_finally (mientras_loop iterations cond_node cuerpo_node VNone) (add_in_loop (-1)).

(** [PARA] (lines 2227-2253). *)
Fixpoint para_loop (k : nat) (cond_node update_node cuerpo_node : ast) (result : value)
  : M value :=
  match k with
  | O => fun _ => OutOfFuel
  | S k' =>
      catch_break result (
        let* b :=
          if node_truthy cond_node
          then let* c := exec cond_node in is_true c
          else ret true in
        if b then
          let* r := run_body cuerpo_node in
          let result' := match r with inl v => v | inr _ => result end in
          catch_break result' (
            let* _ := execute_optional update_node in
            para_loop k' cond_node update_node cuerpo_node result')
        else ret result)
  end.

Definition execute_para (init_node cond_node update_node cuerpo_node : ast) : M value :=
  let* _ := modify enter_scope in
  let* _ := modify (add_in_loop 1) in
  try_finally
    (catch_break VNone (
       let* _ := execute_optional init_node in
       para_loop iterations cond_node update_node cuerpo_node VNone))
    (fun s => exit_scope (add_in_loop (-1) s)).

(** [HACER_MIENTRAS] (lines 2256-2276). *)
Fixpoint hacer_mientras_loop (k : nat) (cuerpo_node cond_node : ast) (result : value)
  : M value :=
  match k with
  | O => fun _ => OutOfFuel
  | S k' =>
      catch_break result (
        let* r := run_body cuerpo_node in
        let result' := match r with inl v => v | inr _ => result end in
        catch_break result' (
          let* c := exec cond_node in
          let* b := is_true c in
          if negb b then ret result'
          else hacer_mientras_loop k' cuerpo_node cond_node result'))
  end.

Definition execute_hacer_mientras (cuerpo_node cond_node : ast) : M value :=
  let* _ := modify (add_in_loop 1) in
  try_finally (hacer_mientras_loop iterations cuerpo_node cond_node VNone)
    (add_in_loop (-1)).

(** *** try / catch / finally (lines 2300-2336) *)

(** The [except] clause that binds the error and runs the catch block. *)
Definition run_catch (err_var_name : string) (error_obj : zisk_error) (catch_b : ast)
  : M value :=
  let* _ := modify enter_scope in
  let* _ := _declare_variable err_var_name (VError error_obj) (Some "objeto") false 0 0 in
  try_finally (exec catch_b) exit_scope.

(** The [try] statement with its [except] clauses, before [finally]. *)
Definition try_except (try_b : ast) (err_var_name : option string) (catch_b : ast)
  : M value :=
  fun s =>
    match exec try_b s with
    | Exc (Zisk ze) s' =>
        if node_truthy catch_b && opt_truthy err_var_name then
          run_catch (default "" err_var_name) ze catch_b s'
        else Exc (Zisk ze) s'
    | Exc (Python p) s' =>
        if node_truthy catch_b && opt_truthy err_var_name then
          run_catch (default "" err_var_name)
            (MkError ZiskRuntimeError ("Excepción Python: " ++ py_exception_name p) 0 0)
            catch_b s'
        else
          raise_zisk ZiskRuntimeError ("Error no capturado: " ++ py_exception_name p)
            0 0 s'
    | o => o   (* a value, or a return / break / continue that is re-raised *)
    end.

(** [finally: if finally_b: self.execute(finally_b)]: the block runs on
    every path; what it raises replaces what was propagating. *)
Definition with_finally (m : M value) (finally_b : ast) : M value :=
  fun s =>
    match m s with
    | Val result s' =>
        if node_truthy finally_b then
          (let* _ := exec finally_b in ret result) s'
        else Val result s'
    | Exc e s' =>
        if node_truthy finally_b then
          (let* _ := exec finally_b in raise e) s'
        else Exc e s'
    | OutOfFuel => OutOfFuel
    | Unmodelled => Unmodelled
    end.

Definition execute_try_catch (try_b : ast) (err_var_name : option string)
    (catch_b finally_b : ast) : M value :=
  with_finally (try_except try_b err_var_name catch_b) finally_b.

(** *** The dispatch on the node type (lines 1866-2714) *)

Definition execute_node (ast_node : ast) : M value :=
  match ast_node with
  | NADA => ret VNone
  | PROGRAMA ds => execute_statements ds VNone
  | BLOQUE ss =>
      let* _ := modify enter_scope in
      try_finally (execute_statements ss VNone) exit_scope
  | DECLARACION_VAR name tipo val_node =>
      let* v := if node_truthy val_node then exec val_node else ret VNone in
      let* _ := _declare_variable name v tipo false 0 0 in
      ret v
  | DECLARACION_CONST name tipo val_node =>
      if negb (node_truthy val_node) then
        raise_zisk ZiskRuntimeError "Constante debe ser inicializada." 0 0
      else
        let* v := exec val_node in
        let* _ := _declare_variable name v tipo true 0 0 in
        ret v
  | DECLARACION_VAR_MIEMBRO _ _ _ _ _ | DECLARACION_CONST_MIEMBRO _ _ _ _ _ => ret VNone
  | FUNCION func_name params_desc ret_type_zisk body =>
      let* _ :=
        modify (fun s =>
          set_type_system
            (ZiskTypeSystem.add_variable_annotation (type_system s) func_name
               (Some "funcion"))
            (set_functions
               (<[func_name := VFunction (MkFunction func_name params_desc ret_type_zisk body)]>
                  (functions s)) s)) in
      ret VNone
  | CLASE _ _ _ => unmodelled
  | IMPORTA _ _ => unmodelled
  | SI cond_node si_node sino_node =>
      let* c := exec cond_node in
      let* b := is_true c in
      if b then exec si_node
      else if node_truthy sino_node then exec sino_node
      else ret VNone
  | MIENTRAS cond_node cuerpo_node => execute_mientras cond_node cuerpo_node
  | PARA init_node cond_node update_node cuerpo_node =>
      execute_para init_node cond_node update_node cuerpo_node
  | HACER_MIENTRAS cuerpo_node cond_node => execute_hacer_mientras cuerpo_node cond_node
  | RETORNA val_nodo lc =>
      let* s := get_state in
      if (is_in_function s =? 0)%Z then
        raise_zisk ZiskRuntimeError
          "'retorna' solo puede usarse dentro de una función o método." (fst lc) (snd lc)
      else
        let* return_value := if node_truthy val_nodo then exec val_nodo else ret VNone in
        raise (ReturnException return_value)
  | BREAK lc =>
      let* s := get_state in
      if (is_in_loop s =? 0)%Z then
        raise_zisk ZiskRuntimeError "'break' solo puede usarse dentro de un bucle."
          (fst lc) (snd lc)
      else raise BreakException
  | CONTINUA lc =>
      let* s := get_state in
      if (is_in_loop s =? 0)%Z then
        raise_zisk ZiskRuntimeError "'continua' solo puede usarse dentro de un bucle."
          (fst lc) (snd lc)
      else raise ContinueException
  | TRY_CATCH try_b err_var_name catch_b finally_b =>
      execute_try_catch try_b err_var_name catch_b finally_b
  | ASIGNACION op_str lhs rhs => execute_asignacion op_str lhs rhs
  | OPERACION_ARITMETICA op lhs rhs => execute_operacion Aritmetica op lhs rhs
  | OPERACION_COMPARACION op lhs rhs => execute_operacion Comparacion op lhs rhs
  | OPERACION_LOGICA op lhs rhs => execute_operacion Logica op lhs rhs
  | OPERACION_UNARIA op operand => execute_unaria op operand
  | LLAMADA callee args => execute_llamada callee args
  | LLAMADA_NATIVA native_name args => execute_llamada_nativa native_name args
  | CONSTRUCTOR class_name _ =>
      raise_zisk ZiskRuntimeError ("Clase '" ++ class_name ++ "' no definida.") 0 0
  | ACCESO_MIEMBRO obj member_name => execute_acceso_miembro obj member_name
  | ACCESO_INDICE coll idx => execute_acceso_indice coll idx
  | IDENTIFICADOR name => _get_variable_value name 0 0
  | ESTE =>
      raise_zisk ZiskRuntimeError
        "'este' no está definido en el contexto de ejecución actual." 0 0
  | NUMERO n => ret (value_of_numero n)
  | CADENA t => ret (VStr t)
  | BOOLEANO b => ret (VBool b)
  | NULO => ret VNone
  | LISTA_LITERAL es =>
      let* vs := execute_all es in
      let* l := alloc (HList vs) in ret (VList l)
  | OBJETO_LITERAL props =>
      let* d := execute_properties props ∅ in
      let* l := alloc (HDict d) in ret (VDict l)
  | METODO _ _ _ _ _ _ =>
      raise_zisk ZiskRuntimeError "Tipo de nodo AST desconocido o no ejecutable." 0 0
  end.

End Engine.

(** [execute]: the recursion of the source, cut off after [fuel] nested
    calls (and [fuel] iterations of any one loop). *)
Fixpoint execute (fuel : nat) (ast_node : ast) : M value :=
  match fuel with
  | O => fun _ => OutOfFuel
  | S fuel' => execute_node (execute fuel') fuel' ast_node
  end.

End ZiskREPL.

(** ** Vocabulary of the statements *)

(** The hierarchy after [clase A {}] and [clase B extiende A {}]. *)
Definition jerarquia_AB : ZiskTypeSystem.t :=
  ZiskTypeSystem.add_class
    (ZiskTypeSystem.add_class ZiskTypeSystem.init "A" None) "B" (Some "A").

(** The control-transfer events: [retorna], [break], [continua]. *)
Definition is_control_transfer (e : exn) : Prop :=
  match e with
  | ReturnException _ | BreakException | ContinueException => True
  | _ => False
  end.

Definition uno : ast := NUMERO (NInt 1).
Definition dos : ast := NUMERO (NInt 2).
Definition cinco : ast := NUMERO (NInt 5).
Definition cero : ast := NUMERO (NInt 0).

(** [const X = 1; X = 2;] *)
Definition programa_const : ast :=
  PROGRAMA [ DECLARACION_CONST "X" None uno;
             ASIGNACION "=" (IDENTIFICADOR "X") dos ].

(** [try { 5 / 0; } catch (e) { mostrar("caught"); }] *)
Definition programa_try_division : ast :=
  TRY_CATCH (BLOQUE [OPERACION_ARITMETICA "/" cinco cero]) (Some "e")
    (BLOQUE [LLAMADA_NATIVA "mostrar" [CADENA "caught"]]) NADA.

(** [try { retorna 1; } finally { retorna 2; }], and a function around it:
    [funcion f() { try { retorna 1; } finally { retorna 2; } } f();] *)
Definition try_retorna : ast := BLOQUE [RETORNA uno (1, 24)].
Definition finally_retorna : ast := BLOQUE [RETORNA dos (1, 46)].
Definition sentencia_try_finally : ast :=
  TRY_CATCH try_retorna None NADA finally_retorna.
Definition programa_try_finally : ast :=
  PROGRAMA [ FUNCION "f" [] None (BLOQUE [sentencia_try_finally]);
             LLAMADA (IDENTIFICADOR "f") [] ].

(** [var l = []; l || (l[0] = 5);] *)
Definition append_to_l : ast :=
  ASIGNACION "=" (ACCESO_INDICE (IDENTIFICADOR "l") cero) cinco.
Definition programa_or_lista : ast :=
  PROGRAMA [ DECLARACION_VAR "l" None (LISTA_LITERAL []);
             OPERACION_LOGICA "||" (IDENTIFICADOR "l") append_to_l ].

(** The state after [var l = [1, 2];] in a fresh interpreter. *)
Definition estado_lista : ZiskREPL.state :=
  match
    ZiskREPL.execute 4 (DECLARACION_VAR "l" None (LISTA_LITERAL [uno; dos])) ZiskREPL.init
  with
  | ZiskREPL.Val _ s => s
  | _ => ZiskREPL.init
  end.



(** The tokens of [var x = 1; var x = 2;] *)
Definition tokens_redeclaracion : list ZiskParser.token :=
  [ ZiskParser.MkToken "VAR" "var" 1 1; ZiskParser.MkToken "IDENTIFICADOR" "x" 1 5;
    ZiskParser.MkToken "OPERADOR" "=" 1 7; ZiskParser.MkToken "NUMERO" "1" 1 9;
    ZiskParser.MkToken "PUNTO_COMA" ";" 1 10;
    ZiskParser.MkToken "VAR" "var" 1 12; ZiskParser.MkToken "IDENTIFICADOR" "x" 1 16;
    ZiskParser.MkToken "OPERADOR" "=" 1 18; ZiskParser.MkToken "NUMERO" "2" 1 20;
    ZiskParser.MkToken "PUNTO_COMA" ";" 1 21 ].

(** The tokens of [var x = 1; { var x = 2; }] *)
Definition tokens_sombra : list ZiskParser.token :=
  [ ZiskParser.MkToken "VAR" "var" 1 1; ZiskParser.MkToken "IDENTIFICADOR" "x" 1 5;
    ZiskParser.MkToken "OPERADOR" "=" 1 7; ZiskParser.MkToken "NUMERO" "1" 1 9;
    ZiskParser.MkToken "PUNTO_COMA" ";" 1 10;
    ZiskParser.MkToken "LLAVE" "{" 1 12;
    ZiskParser.MkToken "VAR" "var" 1 14; ZiskParser.MkToken "IDENTIFICADOR" "x" 1 18;
    ZiskParser.MkToken "OPERADOR" "=" 1 20; ZiskParser.MkToken "NUMERO" "2" 1 22;
    ZiskParser.MkToken "PUNTO_COMA" ";" 1 23;
    ZiskParser.MkToken "LLAVE" "}" 1 25 ].

(** The tokens of [var x = 1; try { } catch (e) { } var x = 2;] *)
Definition tokens_try_catch : list ZiskParser.token :=
  [ ZiskParser.MkToken "VAR" "var" 1 1; ZiskParser.MkToken "IDENTIFICADOR" "x" 1 5;
    ZiskParser.MkToken "OPERADOR" "=" 1 7; ZiskParser.MkToken "NUMERO" "1" 1 9;
    ZiskParser.MkToken "PUNTO_COMA" ";" 1 10;
    ZiskParser.MkToken "TRY" "try" 1 12;
    ZiskParser.MkToken "LLAVE" "{" 1 16; ZiskParser.MkToken "LLAVE" "}" 1 18;
    ZiskParser.MkToken "CATCH" "catch" 1 20;
    ZiskParser.MkToken "PARENTESIS" "(" 1 26; ZiskParser.MkToken "IDENTIFICADOR" "e" 1 27;
    ZiskParser.MkToken "PARENTESIS" ")" 1 28;
    ZiskParser.MkToken "LLAVE" "{" 1 30; ZiskParser.MkToken "LLAVE" "}" 1 32;
    ZiskParser.MkToken "VAR" "var" 1 34; ZiskParser.MkToken "IDENTIFICADOR" "x" 1 38;
    ZiskParser.MkToken "OPERADOR" "=" 1 40; ZiskParser.MkToken "NUMERO" "2" 1 42;
    ZiskParser.MkToken "PUNTO_COMA" ";" 1 43 ].

(** Expressions built from numeric literals and [+ - * /]. *)
Inductive numeric_expr : ast -> Prop :=
| numeric_literal n : numeric_expr (NUMERO n)
| numeric_operation op l r :
    op = "+" \/ op = "-" \/ op = "*" \/ op = "/" ->
    numeric_expr l -> numeric_expr r ->
    numeric_expr (OPERACION_ARITMETICA op l r).

Fixpoint depth (e : ast) : nat :=
  match e with
  | OPERACION_ARITMETICA _ l r => S (Nat.max (depth l) (depth r))
  | _ => 1
  end.

(** The lexer: what a pattern function does to the text. *)

(** A pattern function consumes a non-empty prefix of the text. *)
Definition consumes (f : string -> option (string * string)) : Prop :=
  forall s v r, f s = Some (v, r) -> s = v ++ r /\ v <> "".

(** [p] is reached from [c] by one or more steps to the superclass. *)
Inductive proper_ancestor (ts : ZiskTypeSystem.t) : string -> string -> Prop :=
| ancestor_parent c p :
    ZiskTypeSystem.class_hierarchy ts !! c = Some (Some p) -> proper_ancestor ts c p
| ancestor_step c s p :
    ZiskTypeSystem.class_hierarchy ts !! c = Some (Some s) -> proper_ancestor ts s p ->
    proper_ancestor ts c p.

(** A hierarchy in which [A] extends [B] and [B] extends [A]. *)
Definition jerarquia_ciclica : ZiskTypeSystem.t :=
  ZiskTypeSystem.add_class (ZiskTypeSystem.add_class ZiskTypeSystem.init "A" (Some "B")) "B" (Some "A").

(** The nodes directly below a node. *)
Definition children (e : ast) : list ast :=
  match e with
  | PROGRAMA l | BLOQUE l | CLASE _ _ l | LLAMADA_NATIVA _ l | CONSTRUCTOR _ l
  | LISTA_LITERAL l => l
  | DECLARACION_VAR _ _ v | DECLARACION_CONST _ _ v
  | DECLARACION_VAR_MIEMBRO _ _ v _ _ | DECLARACION_CONST_MIEMBRO _ _ v _ _
  | FUNCION _ _ _ v | METODO _ _ _ v _ _ | RETORNA v _ | OPERACION_UNARIA _ v
  | ACCESO_MIEMBRO v _ => [v]
  | MIENTRAS a b | HACER_MIENTRAS a b | ASIGNACION _ a b
  | OPERACION_ARITMETICA _ a b | OPERACION_COMPARACION _ a b | OPERACION_LOGICA _ a b
  | ACCESO_INDICE a b => [a; b]
  | SI a b c | TRY_CATCH a _ b c => [a; b; c]
  | PARA a b c d => [a; b; c; d]
  | LLAMADA c l => c :: l
  | OBJETO_LITERAL ps => map snd ps
  | _ => []
  end.

(** The two list traversals inside [optimize], by name. *)
Fixpoint optimize_list (l : list ast) : host (list ast) :=
  match l with
  | [] => inl []
  | item :: l' =>
      host_bind (ZiskOptimizer.optimize item) (fun item' =>
      host_bind (optimize_list l') (fun l'' =>
        inl (if node_truthy item' then item' :: l'' else l'')))
  end.

Fixpoint optimize_props (l : list (string * ast)) : host (list (string * ast)) :=
  match l with
  | [] => inl []
  | (clave, valor) :: l' =>
      host_bind (ZiskOptimizer.optimize valor) (fun valor' =>
      host_bind (ZiskOptimizer.pair_tag_check clave) (fun _ =>
      host_bind (optimize_props l') (fun l'' => inl ((clave, valor') :: l''))))
  end.

(** A second pass of [optimize] leaves the result of a first one as it is. *)
Definition fixed (e : ast) : Prop := forall e', ZiskOptimizer.optimize e = inl e' -> ZiskOptimizer.optimize e' = inl e'.

Section EngineVocabulary.
Import ZiskTypeSystem ZiskREPL.

(** Two heap objects of the same host class. *)
Definition same_kind (o o' : heap_object) : Prop :=
  match o, o' with
  | HList _, HList _ | HDict _, HDict _ => True
  | _, _ => False
  end.

(** A binding holds null, or a value of the type recorded for it; a
    binding whose recorded type is "desconocido" has no type to keep. *)
Definition ok_binding (ts : ZiskTypeSystem.t) (b : binding) : Prop :=
  valor_de b = VNone \/ tipo_de b = "desconocido"
  \/ check_type ts (valor_de b) (tipo_de b) = true.

(** Every variable in scope holds a value of its recorded type (and no
    class is called "nulo"). *)
Definition well_typed (s : state) : Prop :=
  in_hierarchy (type_system s) "nulo" = false
  /\ Forall (map_Forall (fun (_ : string) b => ok_binding (type_system s) b)) (scopes s).

(** What every piece of the engine keeps between the state it starts in
    and the state it ends in. *)
Record extends (s s' : state) : Prop := MkExtends {
  ext_typed : well_typed s -> well_typed s';
  ext_loop : is_in_loop s' = is_in_loop s;
  ext_function : is_in_function s <= is_in_function s';
  ext_scopes : (length (scopes s) <= length (scopes s'))%nat;
  ext_salida : salida s `prefix_of` salida s';
  ext_functions : forall name, is_Some (functions s !! name) -> is_Some (functions s' !! name);
  ext_heap : forall (l : loc) o,
    heap s !! l = Some o -> exists o', heap s' !! l = Some o' /\ same_kind o o' }.

Definition preserves {A} (m : M A) : Prop :=
  forall s, match m s with
            | Val _ s' | Exc _ s' => extends s s'
            | _ => True
            end.

End EngineVocabulary.

(** The state after [var o = {};] in a fresh interpreter. *)
Definition estado_objeto : ZiskREPL.state :=
  match ZiskREPL.execute 4 (DECLARACION_VAR "o" None (OBJETO_LITERAL [])) ZiskREPL.init with
  | ZiskREPL.Val _ s => s
  | _ => ZiskREPL.init
  end.

(** The state after [funcion f() { }] in a fresh interpreter. *)
Definition estado_funcion : ZiskREPL.state :=
  match ZiskREPL.execute 2 (FUNCION "f" [] None (BLOQUE [])) ZiskREPL.init with
  | ZiskREPL.Val _ s => s
  | _ => ZiskREPL.init
  end.

(** What every method of the parser keeps between the parser it is called
    on and the parser it leaves: the token list is not touched, the index
    only moves forward, one token at a time, and never past the end, and
    the scope stack is not emptied. *)
Record advances (p p' : ZiskParser.t) : Prop := MkAdvances {
  adv_tokens : ZiskParser.tokens p' = ZiskParser.tokens p;
  adv_index : (ZiskParser.token_index p <= ZiskParser.token_index p')%nat;
  adv_bound :
    (ZiskParser.token_index p <= length (ZiskParser.tokens p))%nat ->
    (ZiskParser.token_index p' <= length (ZiskParser.tokens p))%nat;
  adv_scopes : ZiskParser.scopes p <> [] -> ZiskParser.scopes p' <> [] }.

Definition keeps {A} (m : ZiskParser.P A) : Prop :=
  forall p,
    match m p with
    | ZiskParser.Ok _ p' | ZiskParser.Error _ p' | ZiskParser.HostError _ p' =>
        advances p p'
    | ZiskParser.OutOfFuel => True
    end.

(** A successful call has consumed at least one token. *)
Definition strict {A} (m : ZiskParser.P A) : Prop :=
  forall p,
    match m p with
    | ZiskParser.Ok _ p' => (ZiskParser.token_index p < ZiskParser.token_index p')%nat
    | _ => True
    end.

(** The call returns (or raises) on every parser that has at most [n]
    tokens left to read. *)
Definition finishes (n : nat) {A} (m : ZiskParser.P A) : Prop :=
  forall p,
    (ZiskParser.token_index p <= length (ZiskParser.tokens p))%nat ->
    (length (ZiskParser.tokens p) <= ZiskParser.token_index p + n)%nat ->
    m p <> ZiskParser.OutOfFuel.

(** * Properties *)

Import ZiskTypeSystem ZiskREPL.

(** ** The type system *)

(** An instance of a Zisk class is of no host type listed in [type_map]. *)
Lemma isinstance_instance c l py_t : isinstance (VInstance c l) py_t = false.
Proof. by destruct py_t. Qed.

(** For an instance, [check_type] is the exact comparison of class names
    (the expected name being a registered class other than "nulo"). *)
Lemma check_type_instance ts c l expected :
  check_type ts (VInstance c l) expected
  = negb (String.eqb expected "nulo")
    && in_hierarchy ts expected && String.eqb c expected.
Proof.
  unfold check_type. destruct (String.eqb expected "nulo"); [done|]. simpl.
  destruct (in_hierarchy ts expected); simpl.
  - destruct (String.eqb c expected); [done|].
    destruct (type_map_get expected); [apply isinstance_instance | done].
  - destruct (type_map_get expected); [apply isinstance_instance | done].
Qed.

(** C1 fails on the code. With [clase A] and [clase B extiende A]
    declared, checking an instance of [B] against the expected type name
    [A] raises a [ZiskTypeError], although [B] extends [A] and
    [is_subclass_or_same] knows it: [check_type] compares the runtime class
    name with the expected name and walks no further. *)
Theorem subclass_instance_rejected :
  class_hierarchy jerarquia_AB !! "B" = Some (Some "A")
  /\ is_subclass_or_same jerarquia_AB "B" "A" = true
  /\ exists e,
       validate_assignment jerarquia_AB "a" (VInstance "B" 0%nat) (Some "A") 0 0 false
       = Some e
       /\ clase_error e = ZiskTypeError.
Proof. vm_compute. split; [done|]. split; [done|]. eexists. split; reflexivity. Qed.

(** What the check does for an instance: it succeeds exactly when the
    expected name is a declared class (other than "nulo") and the runtime
    class name of the instance is that very name; for an instance of any
    other class, unrelated or extending, it raises a [ZiskTypeError]. *)
Lemma instance_check_is_exact_name ts ctx c l A lin col is_return :
  (validate_assignment ts ctx (VInstance c l) (Some A) lin col is_return = None
   <-> A <> "nulo" /\ is_Some (class_hierarchy ts !! A) /\ c = A)
  /\ (forall e,
        validate_assignment ts ctx (VInstance c l) (Some A) lin col is_return = Some e ->
        clase_error e = ZiskTypeError).
Proof.
  unfold validate_assignment. rewrite check_type_instance. unfold in_hierarchy.
  destruct (String.eqb_spec A "nulo") as [->|Hn]; simpl.
  { split; [|by intros e [= <-]]. split; [done|]. by intros [? _]. }
  case_bool_decide as Hh; simpl.
  - destruct (String.eqb_spec c A) as [->|Hc]; simpl.
    + split; [|done]. split; [done|done].
    + split; [|by intros e [= <-]]. split; [done|]. by intros (_ & _ & ?).
  - split; [|by intros e [= <-]]. split; [done|]. by intros (_ & ? & _).
Qed.

(** C8: [validate_assignment] never raises when the assigned value is
    null, whatever the expected type (declared or absent) and context. *)
Theorem validate_assignment_null_permitted ts ctx T lin col is_return :
  validate_assignment ts ctx VNone T lin col is_return = None.
Proof. unfold validate_assignment. by destruct T. Qed.

(** ** The execution engine *)

Lemma execute_S fuel n : execute (S fuel) n = execute_node (execute fuel) fuel n.
Proof. reflexivity. Qed.

(** *** Constants *)

(** C2 fails on the code. After [const X = 1;] the statement [X = 2;]
    raises nothing: it returns 2, and [X] is then bound to 2 with its const
    flag cleared. [_assign_variable], which no branch of [execute] calls,
    refuses the same write. *)
Theorem const_overwritten_by_assignment :
  exists s1 s2,
    execute 3 (DECLARACION_CONST "X" None uno) init = Val (VInt 1) s1
    /\ scopes s1 = [{["X" := MkBinding (VInt 1) true "entero"]}]
    /\ execute 3 (ASIGNACION "=" (IDENTIFICADOR "X") dos) s1 = Val (VInt 2) s2
    /\ scopes s2 = [{["X" := MkBinding (VInt 2) false "entero"]}]
    /\ execute 4 programa_const init = Val (VInt 2) s2
    /\ exists e, _assign_variable "X" (VInt 2) 0 0 s1 = Exc (Zisk e) s1
                 /\ clase_error e = ZiskRuntimeError.
Proof.
  eexists _, _. split; [vm_compute; reflexivity|].
  split; [vm_compute; reflexivity|].
  split; [vm_compute; reflexivity|].
  split; [vm_compute; reflexivity|].
  split; [vm_compute; reflexivity|].
  eexists. split; [vm_compute; reflexivity | reflexivity].
Qed.

(** *** Logical operators *)

(** C9, as stated, fails: [&&] on the falsy left operand [""] yields the
    boolean false, which is not the result of evaluating the left operand
    alone (the empty text); the state is the same. *)
Lemma short_circuit_result_differs :
  execute 2 (CADENA "") init = Val (VStr "") init
  /\ truthy (heap init) (VStr "") = Some false
  /\ execute 3 (OPERACION_LOGICA "&&" (CADENA "") (IDENTIFICADOR "x")) init
     = Val (VBool false) init
  /\ VBool false <> VStr "".
Proof. repeat split; try (vm_compute; reflexivity). discriminate. Qed.

(** C9 (amended): when the left operand of [&&] evaluates to a falsy
    value, or the left operand of [||] to a truthy value, the right operand
    is not evaluated: the state is the one left by the left operand alone,
    and the result is the boolean false, respectively true. *)
Theorem short_circuit fuel lhs rhs s v s1 :
  execute fuel lhs s = Val v s1 ->
  (truthy (heap s1) v = Some false ->
     execute (S fuel) (OPERACION_LOGICA "&&" lhs rhs) s = Val (VBool false) s1)
  /\ (truthy (heap s1) v = Some true ->
     execute (S fuel) (OPERACION_LOGICA "||" lhs rhs) s = Val (VBool true) s1).
Proof.
  intros Hl. rewrite !execute_S. unfold execute_node, execute_operacion, bind.
  rewrite Hl. simpl. unfold is_true, bind.
  split; intros Ht; rewrite Ht; reflexivity.
Qed.

Lemma short_circuit_witness :
  execute 2 (CADENA "") init = Val (VStr "") init
  /\ truthy (heap init) (VStr "") = Some false
  /\ execute 3 (OPERACION_LOGICA "&&" (CADENA "") (IDENTIFICADOR "x")) init
     = Val (VBool false) init.
Proof.
  split; [reflexivity|]. split; [reflexivity|].
  destruct (short_circuit 2 (CADENA "") (IDENTIFICADOR "x") init (VStr "") init eq_refl)
    as [H _].
  exact (H eq_refl).
Defined.

(** C10, as stated, fails: in [l || (l[0] = 5)] with [l] the empty list,
    the left operand is falsy and the right operand evaluates to 5, yet the
    result is the list: evaluating the right operand made it non-empty,
    and the left value is tested again. *)
Lemma or_returns_left_after_mutation :
  exists s1 s2,
    execute 4 (DECLARACION_VAR "l" None (LISTA_LITERAL [])) init = Val (VList 0%nat) s1
    /\ execute 4 (IDENTIFICADOR "l") s1 = Val (VList 0%nat) s1
    /\ truthy (heap s1) (VList 0%nat) = Some false
    /\ execute 4 append_to_l s1 = Val (VInt 5) s2
    /\ execute 5 (OPERACION_LOGICA "||" (IDENTIFICADOR "l") append_to_l) s1
       = Val (VList 0%nat) s2
    /\ execute 6 programa_or_lista init = Val (VList 0%nat) s2
    /\ heap s2 = [HList [VInt 5]].
Proof.
  eexists _, _. split; [vm_compute; reflexivity|].
  repeat split; vm_compute; reflexivity.
Qed.

(** C10 (amended): [lhs && rhs] is the boolean false when [lhs] is falsy,
    and [lhs || rhs] the boolean true when [lhs] is truthy. Otherwise the
    right operand is evaluated and its value itself is the result, as long
    as the truth of the left value is what it was before (it is tested
    again after the right operand); if evaluating the right operand has
    changed it, the left value is the result. *)
Theorem logical_operator_results fuel lhs rhs s v s1 :
  execute fuel lhs s = Val v s1 ->
  (truthy (heap s1) v = Some false ->
     execute (S fuel) (OPERACION_LOGICA "&&" lhs rhs) s = Val (VBool false) s1)
  /\ (truthy (heap s1) v = Some true ->
     execute (S fuel) (OPERACION_LOGICA "||" lhs rhs) s = Val (VBool true) s1)
  /\ (forall rv s2 b,
        execute fuel rhs s1 = Val rv s2 -> truthy (heap s2) v = Some b ->
        (truthy (heap s1) v = Some true ->
           execute (S fuel) (OPERACION_LOGICA "&&" lhs rhs) s
           = Val (if b then rv else v) s2)
        /\ (truthy (heap s1) v = Some false ->
           execute (S fuel) (OPERACION_LOGICA "||" lhs rhs) s
           = Val (if b then v else rv) s2)).
Proof.
  intros Hl. rewrite !execute_S. unfold execute_node, execute_operacion, bind.
  rewrite Hl. simpl. unfold is_true, bind.
  split; [by intros ->|]. split; [by intros ->|].
  intros rv s2 b Hr Hb.
  split; intros Ht; rewrite Ht; simpl; rewrite Hr; simpl;
    unfold type_error_to_zisk, apply_operator, is_true, bind; simpl;
    rewrite Hb; by destruct b.
Qed.

Lemma logical_operator_results_witness :
  execute 2 uno init = Val (VInt 1) init
  /\ execute 2 (CADENA "a") init = Val (VStr "a") init
  /\ truthy (heap init) (VInt 1) = Some true
  /\ execute 3 (OPERACION_LOGICA "&&" uno (CADENA "a")) init = Val (VStr "a") init.
Proof.
  split; [reflexivity|]. split; [reflexivity|]. split; [reflexivity|].
  pose proof (logical_operator_results 2 uno (CADENA "a") init (VInt 1) init eq_refl)
    as (_ & _ & H).
  destruct (H (VStr "a") init true eq_refl eq_refl) as [H1 _].
  exact (H1 eq_refl).
Defined.

(** *** try / catch / finally *)

(** C4, as stated, fails: the try block raises the return of 1, the
    finally block raises the return of 2, and it is the latter that
    propagates; the call of [f] yields 2. *)
Lemma finally_overrides_return :
  let s := add_in_function 1 init in
  execute 3 try_retorna s = Exc (ReturnException (VInt 1)) s
  /\ execute 4 sentencia_try_finally s = Exc (ReturnException (VInt 2)) s
  /\ ReturnException (VInt 2) <> ReturnException (VInt 1)
  /\ exists s', execute 7 programa_try_finally init = Val (VInt 2) s'.
Proof.
  split; [vm_compute; reflexivity|]. split; [vm_compute; reflexivity|].
  split; [discriminate|]. eexists. vm_compute. reflexivity.
Qed.

(** C4 (amended): when the try block raises a return, break or continue
    event, the catch block is not executed (the outcome does not depend on
    the catch clause); the finally block, when present, is executed in the
    state the try block left; the event then propagates if the finally
    block is absent or completes normally, and otherwise what the finally
    block raises (an error or its own control transfer) replaces it. *)
Theorem control_transfer_through_try fuel try_b err_var catch_b finally_b s ev s1 :
  is_control_transfer ev ->
  execute fuel try_b s = Exc ev s1 ->
  execute (S fuel) (TRY_CATCH try_b err_var catch_b finally_b) s
  = if node_truthy finally_b then
      match execute fuel finally_b s1 with
      | Val _ s2 => Exc ev s2
      | o => o
      end
    else Exc ev s1.
Proof.
  intros Hev Htry. rewrite execute_S.
  unfold execute_node, execute_try_catch, with_finally, try_except.
  rewrite Htry.
  destruct ev as [e|v| | |p]; try contradiction;
    destruct (node_truthy finally_b); try reflexivity;
    unfold bind; by destruct (execute fuel finally_b s1).
Qed.

Lemma control_transfer_through_try_witness :
  let s := add_in_loop 1 init in
  let try_b := BLOQUE [BREAK (1, 7)] in
  let finally_b := BLOQUE [LLAMADA_NATIVA "mostrar" [CADENA "fin"]] in
  is_control_transfer BreakException
  /\ execute 3 try_b s = Exc BreakException s
  /\ execute 4 (TRY_CATCH try_b (Some "e") (BLOQUE [uno]) finally_b) s
     = Exc BreakException (print [VStr "fin"] s).
Proof.
  split; [exact I|]. split; [reflexivity|].
  exact (control_transfer_through_try 3 (BLOQUE [BREAK (1, 7)]) (Some "e")
           (BLOQUE [uno]) (BLOQUE [LLAMADA_NATIVA "mostrar" [CADENA "fin"]])
           (add_in_loop 1 init) BreakException (add_in_loop 1 init) I eq_refl).
Defined.

(** An error object is of no type that [check_type] accepts for "objeto". *)
Lemma check_type_error_objeto ts ze : check_type ts (VError ze) "objeto" = false.
Proof.
  unfold check_type. simpl.
  destruct (in_hierarchy ts "objeto"); [|reflexivity].
  by destruct ze as [[] ? ? ?].
Qed.

(** Whatever [ZiskError] the try block raises, a catch clause does not
    handle it: binding the error variable with the declared type "objeto"
    raises a [ZiskTypeError] before the catch block starts, and that error
    propagates (here without a finally block). *)
Lemma catch_clause_never_handles fuel try_b name catch_b s ze s1 :
  execute fuel try_b s = Exc (Zisk ze) s1 ->
  node_truthy catch_b = true -> name <> "" ->
  exists e,
    execute (S fuel) (TRY_CATCH try_b (Some name) catch_b NADA) s
    = Exc (Zisk e) (enter_scope s1)
    /\ clase_error e = ZiskTypeError.
Proof.
  intros Htry Hc Hn. rewrite execute_S.
  unfold execute_node, execute_try_catch, with_finally, try_except.
  rewrite Htry, Hc. simpl.
  destruct (String.eqb_spec name "") as [|_]; [done|]. simpl.
  unfold run_catch, bind, modify, _declare_variable. simpl.
  rewrite lookup_empty. simpl.
  unfold validate_assignment. rewrite check_type_error_objeto. simpl.
  eexists. split; reflexivity.
Qed.

(** *** Division and modulo by zero *)

(** A zero right operand of [/] or [%] with a numeric left operand raises
    the [ZiskRuntimeError]; the state is the one left by the operands. *)
Lemma division_by_zero_raises fuel op lhs rhs s a s1 b s2 :
  op = "/" \/ op = "%" ->
  execute fuel lhs s = Val a s1 ->
  execute fuel rhs s1 = Val b s2 ->
  is_numeric a = true -> equals_zero b = true ->
  execute (S fuel) (OPERACION_ARITMETICA op lhs rhs) s
  = Exc (Zisk (MkError ZiskRuntimeError
                 (if String.eqb op "/" then "División por cero." else "Módulo por cero.")
                 0 0)) s2.
Proof.
  intros Hop Hl Hr Ha Hb. rewrite execute_S.
  unfold execute_node, execute_operacion, bind. rewrite Hl. simpl. rewrite Hr.
  assert (is_numeric b = true) as Hnb.
  { unfold equals_zero, is_numeric in *. by destruct (as_number b). }
  unfold arithmetic_operands_ok. rewrite Ha, Hnb. simpl.
  unfold type_error_to_zisk, apply_operator.
  destruct Hop as [-> | ->]; simpl; by rewrite Hb.
Qed.

(** The compound assignments [/=] and [%=] with a zero right operand:
    once the current value of the target has been read, the zero test
    raises the [ZiskRuntimeError], in the state that the evaluation of the
    right operand, of the target and the read left: nothing is written. *)
Lemma compound_division_by_zero_no_write fuel op lhs rhs s rv s1 target s2 cur s3 :
  op = "/=" \/ op = "%=" ->
  execute fuel rhs s = Val rv s1 ->
  _get_lvalue_location (execute fuel) lhs s1 = Val target s2 ->
  read_current op target s2 = Val cur s3 ->
  equals_zero rv = true ->
  execute (S fuel) (ASIGNACION op lhs rhs) s
  = Exc (Zisk (MkError ZiskRuntimeError
                 (if String.eqb op "/=" then "División por cero en asignación."
                  else "Módulo por cero en asignación.") 0 0)) s3.
Proof.
  intros Hop Hr Hloc Hcur Hz. rewrite execute_S.
  unfold execute_node, execute_asignacion, bind. rewrite Hr, Hloc.
  assert (negb (String.eqb op "=") = true) as -> by (by destruct Hop as [-> | ->]).
  rewrite Hcur. unfold compound_value.
  destruct Hop as [-> | ->]; simpl; by rewrite Hz.
Qed.

(** C5 fails on the code. [try { 5 / 0; } catch (e) { mostrar("caught"); }]
    does not print and does not complete: the division raises the
    [ZiskRuntimeError], and the catch clause, instead of handling it,
    raises a [ZiskTypeError] that propagates. *)
Theorem division_error_escapes_catch :
  execute 3 (OPERACION_ARITMETICA "/" cinco cero) init
  = Exc (Zisk (MkError ZiskRuntimeError "División por cero." 0 0)) init
  /\ exists e s',
       execute 5 programa_try_division init = Exc (Zisk e) s'
       /\ clase_error e = ZiskTypeError
       /\ salida s' = [].
Proof.
  split; [vm_compute; reflexivity|].
  eexists _, _. split; [vm_compute; reflexivity|]. split; reflexivity.
Qed.

(** *** Constant folding *)

(** C3 fails on the code. For [1 / 0] the optimizer does not return an
    AST: folding raises the host's [ZeroDivisionError] (the [ZiskError] it
    builds for a zero divisor is never raised), whereas executing the
    expression as parsed raises the [ZiskRuntimeError] "División por cero.". *)
Theorem folding_division_by_zero :
  numeric_expr (OPERACION_ARITMETICA "/" uno cero)
  /\ ZiskOptimizer.optimize (OPERACION_ARITMETICA "/" uno cero)
     = inr PyZeroDivisionError
  /\ execute 3 (OPERACION_ARITMETICA "/" uno cero) init
     = Exc (Zisk (MkError ZiskRuntimeError "División por cero." 0 0)) init.
Proof.
  split; [constructor; [tauto | constructor | constructor]|].
  split; vm_compute; reflexivity.
Qed.

Lemma as_number_value_of_numero n : as_number (value_of_numero n) = Some n.
Proof. by destruct n. Qed.

Lemma equals_zero_value_of_numero n :
  equals_zero (value_of_numero n) = numero_is_zero n.
Proof. unfold equals_zero. by rewrite as_number_value_of_numero. Qed.

Lemma to_float_no_type_error n t : to_float n <> inr (PyTypeError t).
Proof.
  destruct n as [z|f]; simpl; [|done]. unfold float_of_int.
  by destruct (binary_normalize prec emax z 0 false).
Qed.

Lemma py_float_op_no_type_error f a b t :
  py_float_op f a b <> inr (PyTypeError t).
Proof.
  unfold py_float_op, host_bind.
  pose proof (to_float_no_type_error a t). pose proof (to_float_no_type_error b t).
  destruct (to_float a); [|congruence]. by destruct (to_float b); [|congruence].
Qed.

(** The four operators on two numbers never raise the host's [TypeError]. *)
Lemma numeric_operator_no_type_error op a b t :
  (if String.eqb op "+" then py_add a b
   else if String.eqb op "-" then py_sub a b
   else if String.eqb op "*" then py_mul a b
   else py_truediv a b) <> inr (PyTypeError t).
Proof.
  destruct (String.eqb op "+"); [|destruct (String.eqb op "-");
    [|destruct (String.eqb op "*")]].
  - destruct a, b; simpl; try done; apply py_float_op_no_type_error.
  - destruct a, b; simpl; try done; apply py_float_op_no_type_error.
  - destruct a, b; simpl; try done; apply py_float_op_no_type_error.
  - pose proof (to_float_no_type_error a t). pose proof (to_float_no_type_error b t).
    destruct a as [x|x], b as [y|y]; simpl in *; unfold host_bind.
    + destruct (Z.eqb y 0); [done|].
      by destruct (SFdiv prec emax (exact_of_int x) (exact_of_int y)).
    + destruct (float_of_int x); [|congruence]. by destruct (float_is_zero y).
    + destruct (float_of_int y) as [fy|]; [|congruence]. by destruct (float_is_zero fy).
    + by destruct (float_is_zero y).
Qed.

(** Away from division by zero, folding and execution agree on numeric
    expressions: with enough fuel, a value that execution returns is the
    literal the optimizer leaves, a host exception that execution raises
    (an overflow) is raised by the optimizer too, and the only other
    outcome of execution is the error of a zero divisor, at which the
    optimizer fails with a host exception. The state is not touched. *)
Lemma folding_agrees_unless_division_by_zero e :
  numeric_expr e ->
  forall fuel s, (depth e <= fuel)%nat ->
  match execute fuel e s with
  | Val v s' =>
      s' = s /\ exists n, v = value_of_numero n /\ ZiskOptimizer.optimize e = inl (NUMERO n)
  | Exc (Python p) s' => s' = s /\ ZiskOptimizer.optimize e = inr p
  | Exc (Zisk z) s' =>
      s' = s /\ z = MkError ZiskRuntimeError "División por cero." 0 0
      /\ exists p, ZiskOptimizer.optimize e = inr p
  | _ => False
  end.
Proof.
  induction 1 as [n|op l r Hop Hl IHl Hr IHr]; intros fuel s Hfuel.
  - destruct fuel as [|fuel]; [simpl in Hfuel; lia|]. simpl. eauto.
  - destruct fuel as [|fuel]; [simpl in Hfuel; lia|].
    simpl in Hfuel. rewrite execute_S.
    unfold execute_node, execute_operacion, bind.
    specialize (IHl fuel s ltac:(lia)).
    change (ZiskOptimizer.optimize (OPERACION_ARITMETICA op l r))
      with (host_bind (ZiskOptimizer.optimize l) (fun l' =>
            host_bind (ZiskOptimizer.optimize r) (fun r' =>
              match ZiskOptimizer.fold_constant op l' r' with
              | Some res => res
              | None => inl (OPERACION_ARITMETICA op l' r')
              end))).
    destruct (execute fuel l s) as [a s1|[z|?| | |p] s1| |]; try done.
    2:{ destruct IHl as (-> & -> & p & ->). simpl. eauto. }
    2:{ destruct IHl as (-> & ->). by simpl. }
    destruct IHl as (-> & na & -> & ->). simpl.
    specialize (IHr fuel s ltac:(lia)).
    destruct (execute fuel r s) as [b s2|[z|?| | |p] s2| |]; try done.
    2:{ destruct IHr as (-> & -> & p & ->). simpl. eauto. }
    2:{ destruct IHr as (-> & ->). by simpl. }
    destruct IHr as (-> & nb & -> & ->). simpl.
    unfold arithmetic_operands_ok, is_numeric. rewrite !as_number_value_of_numero. simpl.
    unfold type_error_to_zisk, apply_operator, py_arith.
    rewrite !as_number_value_of_numero, equals_zero_value_of_numero.
    pose proof (numeric_operator_no_type_error op na nb) as Hnt.
    unfold ZiskOptimizer.fold_constant.
    destruct Hop as [-> | [-> | [-> | ->]]]; simpl in *.
    + destruct (py_add na nb) as [n|[]]; simpl; eauto; by destruct (Hnt arity_text).
    + destruct (py_sub na nb) as [n|[]]; simpl; eauto; by destruct (Hnt arity_text).
    + destruct (py_mul na nb) as [n|[]]; simpl; eauto; by destruct (Hnt arity_text).
    + destruct (numero_is_zero nb) eqn:Hz.
      * simpl. split; [done|]. split; [done|].
        destruct (py_truediv na nb) as [n|p] eqn:Hd; [|destruct p; eauto].
        { exfalso. destruct na as [x|x], nb as [y|y]; simpl in *;
            unfold host_bind in *.
          - by rewrite Hz in Hd.
          - destruct (float_of_int x); [|done]. by rewrite Hz in Hd.
          - apply Z.eqb_eq in Hz as ->. by vm_compute in Hd.
          - by rewrite Hz in Hd. }
        by destruct (Hnt arity_text).
      * destruct (py_truediv na nb) as [n|[]]; simpl; eauto; by destruct (Hnt arity_text).
Qed.

(** *** Assignment to a list element *)








(** ** The parser *)

Section ParserProperties.
Import ZiskParser.







(** The two programs of the spec: [var x = 1; var x = 2;] is refused at
    the second [x]; [var x = 1; { var x = 2; }] is accepted. *)
Lemma redeclaration_examples :
  (exists st,
     parse 6 tokens_redeclaracion init
     = Error (MkError ZiskError "Variable 'x' ya declarada en este ámbito." 1 16) st)
  /\ exists st,
       parse 8 tokens_sombra init
       = Ok (PROGRAMA [ DECLARACION_VAR "x" None uno;
                        BLOQUE [DECLARACION_VAR "x" None dos] ]) st.
Proof. split; eexists; vm_compute; reflexivity. Qed.

(** The scope that [parse_try_catch] enters for the error variable is
    never left: after [try { } catch (e) { }] the innermost scope is that
    scope, not the one of the enclosing block, so that in
    [var x = 1; try { } catch (e) { } var x = 2;] the second declaration of
    [x] meets a scope without [x] and is accepted. *)
Lemma catch_scope_is_not_closed :
  exists st,
    parse 8 tokens_try_catch init
    = Ok (PROGRAMA [ DECLARACION_VAR "x" None uno;
                     TRY_CATCH (BLOQUE []) (Some "e") (BLOQUE []) NADA;
                     DECLARACION_VAR "x" None dos ]) st
    /\ scopes st = [ {["e" := ("VAR_ERROR", None); "x" := ("VAR", None)]};
                     {["x" := ("VAR", None)]} ].
Proof. eexists. split; vm_compute; reflexivity. Qed.

End ParserProperties.

(** ** The lexer *)

Section LexerProperties.
Import ZiskParser ZiskLexer.



Lemma string_app_cons c (a b : string) : String c a ++ b = String c (a ++ b).
Proof. reflexivity. Qed.

Lemma string_app_nil (b : string) : "" ++ b = b.
Proof. reflexivity. Qed.

Ltac ssimpl := simpl; rewrite ?string_app_cons, ?string_app_nil.

Lemma strip_prefix_app w s r : strip_prefix w s = Some r -> s = w ++ r.
Proof.
  revert s. induction w as [|a w IH]; intros s H; simpl in *.
  - by injection H as <-.
  - destruct s as [|b s]; [done|].
    destruct (Ascii.eqb_spec a b) as [->|]; [|done].
    by rewrite string_app_cons, (IH _ H).
Qed.

Lemma strip_prefix_complete w r : strip_prefix w (w ++ r) = Some r.
Proof.
  induction w as [|a w IH]; [done|].
  rewrite string_app_cons. simpl. by rewrite Ascii.eqb_refl.
Qed.

Lemma span_app cls s : s = fst (span cls s) ++ snd (span cls s).
Proof.
  induction s as [|c s IH]; simpl; [done|].
  destruct (cls c); ssimpl; [by f_equal | done].
Qed.

Lemma string_app_assoc (a b c : string) : (a ++ b) ++ c = a ++ (b ++ c).
Proof. induction a as [|x a IH]; ssimpl; [done|]. by rewrite IH. Qed.

Lemma string_length_app (a b : string) :
  String.length (a ++ b) = (String.length a + String.length b)%nat.
Proof. induction a as [|x a IH]; ssimpl; [done|]. by rewrite IH. Qed.

Lemma palabra_consumes w : w <> "" -> consumes (match_palabra w).
Proof.
  intros Hw s v r H. unfold match_palabra in H.
  destruct (strip_prefix w s) as [rest|] eqn:E; [|done].
  injection H as <- <-. split; [by apply strip_prefix_app | done].
Qed.

Lemma alternativas_consumes ws : Forall (fun w => w <> "") ws -> consumes (match_alternativas ws).
Proof.
  induction 1 as [|w ws Hw _ IH]; intros s v r H; simpl in H; [done|].
  destruct (match_palabra w s) as [[v' r']|] eqn:E.
  - injection H as <- <-. by apply (palabra_consumes w Hw).
  - by apply IH.
Qed.

Lemma caracter_consumes cs : consumes (match_caracter cs).
Proof.
  intros [|c s] v r H; simpl in H; [done|].
  destruct (existsb (Ascii.eqb c) cs); [|done]. by injection H as <- <-.
Qed.

Lemma identificador_consumes : consumes match_identificador.
Proof.
  intros [|c s] v r H; simpl in H; [done|].
  destruct (is_letter c); [|done]. injection H as <- <-.
  split; [|done]. rewrite string_app_cons. f_equal. apply span_app.
Qed.

Lemma numero_consumes : consumes match_numero.
Proof.
  intros s v r H. unfold match_numero in H.
  pose proof (span_app is_digit s) as Hs.
  destruct (span is_digit s) as [ent resto]; simpl in *.
  destruct ent as [|d ent]; [done|].
  destruct resto as [|c rest]; [by injection H as <- <-|].
  pose proof (span_app is_digit rest) as Hr.
  destruct (span is_digit rest) as [frac resto']; simpl in *.
  destruct (Ascii.eqb c "."); [|by injection H as <- <-].
  destruct frac as [|d' frac]; [by injection H as <- <-|].
  injection H as <- <-. split; [|done].
  by rewrite Hs, Hr, !string_app_cons, string_app_assoc, !string_app_cons.
Qed.

Lemma cadena_cuerpo_app s v r : cadena_cuerpo s = Some (v, r) -> s = v ++ r.
Proof.
  remember (String.length s) as n eqn:Hn. revert s v r Hn.
  induction n as [n IH] using lt_wf_ind. intros s v r -> H.
  destruct s as [|c s]; simpl in H; [done|].
  destruct (Ascii.eqb c comilla); [by injection H as <- <-|].
  destruct (Ascii.eqb c barra_invertida).
  - destruct s as [|d s]; [done|].
    destruct (Ascii.eqb d salto_de_linea); [done|].
    destruct (cadena_cuerpo s) as [[v' r']|] eqn:E; [|done].
    injection H as <- <-. ssimpl. do 2 f_equal.
    eapply IH; [|reflexivity|done]. simpl; lia.
  - destruct (cadena_cuerpo s) as [[v' r']|] eqn:E; [|done].
    injection H as <- <-. ssimpl. f_equal.
    eapply IH; [|reflexivity|done]. simpl; lia.
Qed.

Lemma cadena_consumes : consumes match_cadena.
Proof.
  intros [|c s] v r H; simpl in H; [done|].
  destruct (Ascii.eqb c comilla); [|done].
  destruct (cadena_cuerpo s) as [[v' r']|] eqn:E; [|done].
  injection H as <- <-. split; [|done]. ssimpl. f_equal. by apply cadena_cuerpo_app.
Qed.

Lemma operador_consumes : consumes match_operador.
Proof.
  intros s v r H. unfold match_operador in H.
  match type of H with context [match_alternativas ?ws s] =>
    destruct (match_alternativas ws s) as [[v' r']|] eqn:E end.
  - injection H as <- <-. revert E. apply alternativas_consumes.
    repeat constructor; done.
  - by apply caracter_consumes in H.
Qed.

Lemma comentario_linea_consumes : consumes match_comentario_linea.
Proof.
  intros s v r H. unfold match_comentario_linea in H.
  destruct (match_alternativas ["//"; "#"] s) as [[v' r']|] eqn:E; [|done].
  apply alternativas_consumes in E as [-> Hv]; [|repeat constructor; done].
  injection H as <- <-. simpl. split.
  - rewrite string_app_assoc. f_equal. apply span_app.
  - by destruct v'.
Qed.

Lemma hasta_app cierre s v r : hasta cierre s = Some (v, r) -> s = v ++ r.
Proof.
  revert v r. induction s as [|c s IH]; intros v r H; simpl in H.
  - destruct (strip_prefix cierre "") as [rest|] eqn:E; [|done].
    injection H as <- <-. by apply strip_prefix_app.
  - destruct (strip_prefix cierre (String c s)) as [rest|] eqn:E.
    + injection H as <- <-. by apply strip_prefix_app.
    + destruct (hasta cierre s) as [[v' r']|] eqn:E'; [|done].
      injection H as <- <-. ssimpl. f_equal. by apply IH.
Qed.

Lemma delimitado_consumes abre cierre : abre <> "" -> consumes (delimitado abre cierre).
Proof.
  intros Ha s v r H. unfold delimitado in H.
  destruct (strip_prefix abre s) as [rest|] eqn:E; [|done].
  destruct (hasta cierre rest) as [[v' r']|] eqn:E'; [|done].
  injection H as <- <-. simpl. split.
  - rewrite string_app_assoc. apply strip_prefix_app in E as ->.
    f_equal. by apply (hasta_app cierre).
  - by destruct abre.
Qed.

Lemma comentario_bloque_consumes : consumes match_comentario_bloque.
Proof.
  intros s v r H. unfold match_comentario_bloque in H.
  destruct (delimitado "/*" "*/" s) as [[v' r']|] eqn:E.
  - injection H as <- <-. by apply (delimitado_consumes "/*" "*/") in E.
  - by apply (delimitado_consumes "###" "###") in H.
Qed.

Lemma espacio_consumes : consumes match_espacio.
Proof.
  intros s v r H. unfold match_espacio in H.
  pose proof (span_app is_space s) as Hs.
  destruct (span is_space s) as [a b]; simpl in *.
  destruct a; [done|]. by injection H as <- <-.
Qed.

Lemma cualquiera_consumes : consumes match_cualquiera.
Proof.
  intros [|c s] v r H; simpl in H; [done|].
  destruct (Ascii.eqb c salto_de_linea); [done|]. by injection H as <- <-.
Qed.

Lemma first_match_inv spec s name r :
  first_match spec s = Some (name, r) ->
  exists p, In (name, p) spec /\ match_pattern p s = Some r.
Proof.
  induction spec as [|[n p] spec IH]; simpl; [done|].
  destruct (match_pattern p s) as [r'|] eqn:E.
  - intros [= <- <-]. eauto.
  - intros H. destruct (IH H) as (p' & ? & ?). eauto.
Qed.

Lemma first_match_some spec s name p :
  In (name, p) spec -> match_pattern p s <> None -> first_match spec s <> None.
Proof.
  induction spec as [|[n q] spec IH]; simpl; [done|].
  intros [[= -> ->]|Hin] Hp.
  - by destruct (match_pattern p s).
  - destruct (match_pattern q s); [done|]. by apply IH.
Qed.

Lemma tokens_spec_consumes :
  Forall (fun e => consumes (match_pattern (snd e))) tokens_spec.
Proof.
  unfold tokens_spec.
  repeat (constructor; simpl;
    [first [ by apply palabra_consumes
           | by apply alternativas_consumes; repeat constructor
           | apply caracter_consumes
           | apply identificador_consumes | apply numero_consumes
           | apply cadena_consumes | apply operador_consumes
           | apply comentario_linea_consumes | apply comentario_bloque_consumes
           | apply espacio_consumes | apply cualquiera_consumes ]|]).
  constructor.
Qed.

Lemma regex_compilado_consumes s tipo v r :
  regex_compilado s = Some (tipo, (v, r)) -> s = v ++ r /\ v <> "".
Proof.
  intros H. apply first_match_inv in H as (p & Hin & Hp).
  pose proof tokens_spec_consumes as Hall.
  rewrite List.Forall_forall in Hall. by apply (Hall _ Hin).
Qed.

Lemma regex_compilado_total c s : regex_compilado (String c s) <> None.
Proof.
  unfold regex_compilado.
  destruct (Ascii.eqb c salto_de_linea) eqn:E.
  - apply (first_match_some _ _ "ESPACIO" PatEspacio).
    + unfold tokens_spec. simpl. repeat (first [by left | right]).
    + apply Ascii.eqb_eq in E as ->. simpl. unfold match_espacio. simpl. done.
  - apply (first_match_some _ _ "NO_VALIDO" PatCualquiera).
    + unfold tokens_spec. simpl. repeat (first [by left | right]).
    + simpl. by rewrite E.
Qed.

(** The name of a group determines its pattern. *)
Lemma tokens_spec_pattern name p :
  In (name, p) tokens_spec -> ZiskTypeSystem.assoc_get name tokens_spec = Some p.
Proof.
  unfold tokens_spec. simpl.
  intros H.
  repeat (destruct H as [H|H]; [by injection H as <- <-|]).
  done.
Qed.

Lemma tokenize_loop_Forall (P : token -> Prop) :
  (forall s tipo v r lin col,
     regex_compilado s = Some (tipo, (v, r)) ->
     in_list tipo ["COMENTARIO_LINEA"; "COMENTARIO_BLOQUE"; "ESPACIO"] = false ->
     String.eqb tipo "NO_VALIDO" = false ->
     P (MkToken tipo v lin col)) ->
  forall fuel resto pos lin col0 toks toks',
    Forall P toks ->
    tokenize_loop fuel resto pos lin col0 toks = Tokens toks' ->
    Forall P toks'.
Proof.
  intros HP. induction fuel as [|fuel IH]; intros resto pos lin col0 toks toks' Htoks H.
  - destruct resto; simpl in H; [by injection H as <-|done].
  - destruct resto as [|c resto]; [simpl in H; by injection H as <-|].
    cbn [tokenize_loop] in H.
    destruct (regex_compilado (String c resto)) as [[tipo [v r]]|] eqn:E; [|done].
    destruct (in_list tipo _) eqn:Hskip; [by eapply IH|].
    destruct (String.eqb tipo "NO_VALIDO") eqn:Hnv; [done|].
    eapply IH; [|exact H]. apply Forall_app. split; [done|].
    apply Forall_singleton. by eapply HP.
Qed.

Lemma tokenize_loop_total fuel resto pos lin col0 toks :
  (String.length resto <= fuel)%nat ->
  (exists toks', tokenize_loop fuel resto pos lin col0 toks = Tokens toks')
  \/ (exists c lin' col',
        tokenize_loop fuel resto pos lin col0 toks
        = Error (MkError ZiskError
                   ("Carácter no válido: '" ++ String c "" ++ "'") lin' col')).
Proof.
  revert resto pos lin col0 toks.
  induction fuel as [|fuel IH]; intros resto pos lin col0 toks Hlen.
  - destruct resto; simpl in *; [eauto | lia].
  - destruct resto as [|c resto]; [simpl; eauto|].
    cbn [tokenize_loop].
    pose proof (regex_compilado_total c resto) as Htot.
    destruct (regex_compilado (String c resto)) as [[tipo [v r]]|] eqn:E; [|done].
    pose proof (regex_compilado_consumes _ _ _ _ E) as [Hs Hv].
    assert (String.length r <= fuel)%nat as Hr.
    { apply (f_equal String.length) in Hs. rewrite string_length_app in Hs.
      destruct v; [done|]. simpl in *. lia. }
    destruct (in_list tipo _) eqn:Hskip; [by apply IH|].
    destruct (String.eqb_spec tipo "NO_VALIDO") as [->|Hnv]; [|by apply IH].
    right. apply first_match_inv in E as (p & Hin & Hp).
    apply tokens_spec_pattern in Hin. vm_compute in Hin. injection Hin as <-.
    simpl in Hp. destruct (Ascii.eqb c salto_de_linea); [done|].
    injection Hp as <- <-. eauto.
Qed.

(** X1: [tokenize] always terminates (the length of the text bounds the
    rounds of its loop), and the only error it raises is the one for a
    character that no token pattern accepts: the branch for a position
    where nothing matches is never taken. *)
Theorem tokenize_total code :
  (exists toks, tokenize code = Tokens toks)
  \/ (exists c lin col,
        tokenize code
        = Error (MkError ZiskError
                   ("Carácter no válido: '" ++ String c "" ++ "'") lin col)).
Proof. unfold tokenize. by apply tokenize_loop_total. Qed.

Lemma match_palabra_none w s : match_palabra w s = None -> strip_prefix w s = None.
Proof. unfold match_palabra. by destruct (strip_prefix w s). Qed.

Lemma regex_identificador_reserved s r :
  regex_compilado s = Some ("IDENTIFICADOR", r) ->
  Forall (fun w => strip_prefix w s = None) palabras_reservadas.
Proof.
  intros H. unfold regex_compilado, tokens_spec in H.
  cbn [first_match match_pattern match_alternativas] in H.
  repeat match type of H with
  | context [match_palabra ?w s] =>
      let E := fresh "E" in
      destruct (match_palabra w s) eqn:E;
        [discriminate H | apply match_palabra_none in E]
  end.
  vm_compute palabras_reservadas.
  repeat (constructor; [assumption|]). constructor.
Qed.

(** X2: no identifier token starts with a keyword or a type name. The
    keyword patterns are tried before the identifier pattern and have no
    word boundary, so a name such as [siguiente] is split into the keyword
    [si] and the identifier [guiente]. *)
Theorem identifier_never_starts_with_reserved_word code toks :
  tokenize code = Tokens toks ->
  forall tk w rest,
    In tk toks -> tipo_token tk = "IDENTIFICADOR" -> In w palabras_reservadas ->
    valor_token tk <> w ++ rest.
Proof.
  intros H tk w rest Htk Hty Hw Hval.
  assert (Forall (fun tk => tipo_token tk = "IDENTIFICADOR" ->
            forall w, In w palabras_reservadas ->
            forall rest, valor_token tk <> w ++ rest) toks) as Hall.
  { eapply (tokenize_loop_Forall _); [|apply Forall_nil_2|exact H].
    clear. intros s tipo v r lin col E _ _. simpl. intros -> w Hw rest ->.
    pose proof (regex_compilado_consumes _ _ _ _ E) as [-> _].
    apply regex_identificador_reserved in E.
    rewrite List.Forall_forall in E. specialize (E w Hw).
    by rewrite string_app_assoc, strip_prefix_complete in E. }
  rewrite List.Forall_forall in Hall. by apply (Hall tk Htk Hty w Hw rest).
Qed.

Lemma identifier_never_starts_with_reserved_word_witness :
  tokenize "siguiente"
  = Tokens [MkToken "SI" "si" 1 1; MkToken "IDENTIFICADOR" "guiente" 1 3]
  /\ "guiente" <> "si" ++ "guiente".
Proof.
  split; [reflexivity|].
  apply (identifier_never_starts_with_reserved_word "siguiente" _ eq_refl
           (MkToken "IDENTIFICADOR" "guiente" 1 3) "si" "guiente").
  - right. left. reflexivity.
  - reflexivity.
  - vm_compute. do 38 right. left. reflexivity.
Defined.

Lemma regex_slash s' : exists v r, regex_compilado (String "/" s') = Some ("OPERADOR", (v, r)).
Proof.
  unfold regex_compilado, tokens_spec. cbn.
  change (is_letter "/") with false. cbn.
  unfold match_numero. cbn. change (is_digit "/") with false. cbn.
  unfold match_operador. cbn.
  destruct (match_palabra "/=" (String "/" s')) as [[a b]|]; eauto.
Qed.

Lemma regex_hash s' :
  exists v r, regex_compilado (String "#" s') = Some ("COMENTARIO_LINEA", (v, r)).
Proof.
  unfold regex_compilado, tokens_spec. cbn.
  change (is_letter "#") with false. cbn.
  unfold match_numero. cbn. change (is_digit "#") with false. cbn.
  unfold match_operador. cbn. unfold match_comentario_linea. cbn. eauto.
Qed.

(** X3: a slash always starts an operator token, so neither two slashes
    nor slash-star open a comment; a line comment starts with a hash only,
    and the block-comment pattern is never the one that matches (its
    openings are taken by the operator and the line-comment patterns
    before it). *)
Theorem comments_start_with_hash_only s tipo v r :
  regex_compilado s = Some (tipo, (v, r)) ->
  tipo <> "COMENTARIO_BLOQUE"
  /\ (tipo = "COMENTARIO_LINEA" -> exists s', s = String "#" s')
  /\ (forall s', s = String "/" s' -> tipo = "OPERADOR").
Proof.
  intros H.
  assert (forall s', s = String "/" s' -> tipo = "OPERADOR") as Hslash.
  { intros s' ->. destruct (regex_slash s') as (v' & r' & E). congruence. }
  assert (forall s', s = String "#" s' -> tipo = "COMENTARIO_LINEA") as Hhash.
  { intros s' ->. destruct (regex_hash s') as (v' & r' & E). congruence. }
  split; [|split; [|done]].
  - intros ->. pose proof H as H'.
    apply first_match_inv in H' as (p & Hin & Hp).
    apply tokens_spec_pattern in Hin. vm_compute in Hin. injection Hin as <-.
    simpl in Hp. unfold match_comentario_bloque, delimitado in Hp.
    destruct (strip_prefix "/*" s) as [rest|] eqn:E1.
    { apply strip_prefix_app in E1. by specialize (Hslash _ E1). }
    destruct (strip_prefix "###" s) as [rest|] eqn:E2; [|done].
    apply strip_prefix_app in E2. by specialize (Hhash _ E2).
  - intros ->. pose proof H as H'.
    apply first_match_inv in H' as (p & Hin & Hp).
    apply tokens_spec_pattern in Hin. vm_compute in Hin. injection Hin as <-.
    simpl in Hp. unfold match_comentario_linea in Hp.
    destruct (match_alternativas ["//"; "#"] s) as [[a b]|] eqn:E; [|done].
    simpl in E. unfold match_palabra in E.
    destruct (strip_prefix "//" s) as [rest|] eqn:E1.
    { apply strip_prefix_app in E1. by specialize (Hslash _ E1). }
    destruct (strip_prefix "#" s) as [rest|] eqn:E2; [|done].
    apply strip_prefix_app in E2. eauto.
Qed.

Lemma comments_start_with_hash_only_witness :
  regex_compilado "// nota" = Some ("OPERADOR", ("/", "/ nota"))
  /\ "OPERADOR" <> "COMENTARIO_BLOQUE".
Proof.
  split; [reflexivity|].
  exact (proj1 (comments_start_with_hash_only "// nota" "OPERADOR" "/" "/ nota" eq_refl)).
Defined.

Lemma digits_value_span s acc :
  exists z, digits_value (fst (span is_digit s)) acc = Some z.
Proof.
  revert acc. induction s as [|c s IH]; intros acc; simpl; [eauto|].
  destruct (is_digit c) eqn:E; simpl; [|eauto]. rewrite E. apply IH.
Qed.

Lemma digits_value_span_app s t acc :
  exists z, digits_value (fst (span is_digit s) ++ fst (span is_digit t)) acc = Some z.
Proof.
  revert acc. induction s as [|c s IH]; intros acc; simpl.
  - rewrite string_app_nil. apply digits_value_span.
  - destruct (is_digit c) eqn:E; simpl.
    + rewrite E. apply IH.
    + rewrite string_app_nil. apply digits_value_span.
Qed.

Lemma split_at_dot_span s : split_at_dot (fst (span is_digit s)) = None.
Proof.
  induction s as [|c s IH]; simpl; [done|].
  destruct (is_digit c) eqn:E; simpl; [|done].
  destruct (Ascii.eqb_spec c ".") as [->|_]; [done|]. by rewrite IH.
Qed.

Lemma split_at_dot_span_app s t :
  split_at_dot (fst (span is_digit s) ++ String "." t) = Some (fst (span is_digit s), t).
Proof.
  induction s as [|c s IH]; simpl; [done|].
  destruct (is_digit c) eqn:E; simpl; [|done].
  rewrite ?string_app_cons. simpl.
  destruct (Ascii.eqb_spec c ".") as [->|_]; [done|]. by rewrite IH.
Qed.

Lemma match_numero_readable s v r :
  match_numero s = Some (v, r) -> exists n, numero_of_lexeme v = inl n.
Proof.
  unfold match_numero. intros H.
  pose proof (split_at_dot_span s) as Hd.
  pose proof (digits_value_span s 0) as [z Hz].
  pose proof (fun t => split_at_dot_span_app s t) as Hd'.
  pose proof (digits_value_span_app s) as Hm.
  destruct (span is_digit s) as [ent resto]; cbn [fst snd] in *.
  destruct ent as [|d ent]; [done|].
  assert (numero_of_lexeme (String d ent) = inl (NInt z)) as Hent.
  { unfold numero_of_lexeme. by rewrite Hd, Hz. }
  destruct resto as [|c rest]; [injection H as <- <-; eauto|].
  destruct (Ascii.eqb_spec c ".") as [->|_]; [|injection H as <- <-; eauto].
  specialize (Hm rest 0) as [m Hm].
  destruct (span is_digit rest) as [frac resto']; cbn [fst snd] in *.
  destruct frac as [|d' frac]; [injection H as <- <-; eauto|].
  injection H as <- <-. unfold numero_of_lexeme. rewrite Hd', Hm. eauto.
Qed.

(** X4: the parser reads every number token the lexer emits: on its text,
    digits or digits, a point and digits, the conversion of the literal
    raises nothing (the bound is the host's limit on the length of a digit
    string that it converts to an integer). *)
Theorem numero_tokens_are_read code toks :
  tokenize code = Tokens toks ->
  forall tk,
    In tk toks -> tipo_token tk = "NUMERO" ->
    (String.length (valor_token tk) <= 4300)%nat ->
    exists n, numero_of_lexeme (valor_token tk) = inl n.
Proof.
  intros H tk Htk Hty _.
  assert (Forall (fun tk => tipo_token tk = "NUMERO" ->
            exists n, numero_of_lexeme (valor_token tk) = inl n) toks) as Hall.
  { eapply (tokenize_loop_Forall _); [|apply Forall_nil_2|exact H].
    clear. intros s tipo v r lin col E _ _. simpl. intros ->.
    apply first_match_inv in E as (p & Hin & Hp).
    apply tokens_spec_pattern in Hin. vm_compute in Hin. injection Hin as <-.
    by apply match_numero_readable in Hp. }
  rewrite List.Forall_forall in Hall. by apply (Hall tk Htk Hty).
Qed.

Lemma numero_tokens_are_read_witness :
  tokenize "x = 3.25;"
  = Tokens [MkToken "IDENTIFICADOR" "x" 1 1; MkToken "OPERADOR" "=" 1 3;
            MkToken "NUMERO" "3.25" 1 5; MkToken "PUNTO_COMA" ";" 1 9]
  /\ exists n, numero_of_lexeme "3.25" = inl n.
Proof.
  split; [reflexivity|].
  apply (numero_tokens_are_read "x = 3.25;" _ eq_refl (MkToken "NUMERO" "3.25" 1 5)).
  - right. right. left. reflexivity.
  - reflexivity.
  - simpl. lia.
Defined.

End LexerProperties.

(** ** The type system *)

Section TypeSystemProperties.
Lemma is_subclass_loop_sound ts fuel current visited p :
  is_subclass_loop ts fuel current visited p = true -> proper_ancestor ts current p.
Proof.
  revert current visited. induction fuel as [|fuel IH]; intros current visited; simpl; [done|].
  destruct (class_hierarchy ts !! current) as [[sup|]|] eqn:E; try done.
  destruct (String.eqb_spec sup p) as [->|Hne]; [intros _; by apply ancestor_parent|].
  case_bool_decide; [done|]. intros Hloop.
  eapply ancestor_step; [exact E|]. by eapply IH.
Qed.

(** A set of visited classes that is closed under the step to the
    superclass holds every ancestor of its members. *)
Lemma closed_visited_ancestors ts (visited : list string) :
  (forall v, v ∈ visited -> exists w, w ∈ visited /\ class_hierarchy ts !! v = Some (Some w)) ->
  forall v p, proper_ancestor ts v p -> v ∈ visited -> p ∈ visited.
Proof.
  intros Hclosed v p Hanc. induction Hanc as [c p Hc|c s p Hc _ IH]; intros Hv.
  - destruct (Hclosed c Hv) as (w & Hw & Hcw). congruence.
  - apply IH. destruct (Hclosed c Hv) as (w & Hw & Hcw). congruence.
Qed.

Lemma is_subclass_loop_complete ts p fuel current visited :
  proper_ancestor ts current p ->
  p ∉ visited -> current ∈ visited -> NoDup visited ->
  (forall v, v ∈ visited -> v = current
     \/ exists w, w ∈ visited /\ class_hierarchy ts !! v = Some (Some w)) ->
  (size (class_hierarchy ts) + 2 <= fuel + length visited)%nat ->
  is_subclass_loop ts fuel current visited p = true.
Proof.
  revert current visited.
  induction fuel as [|fuel IH]; intros current visited Hanc Hp Hcur Hnd Hchain Hfuel.
  - (* the visited classes all have a superclass: they are keys of the hierarchy *)
    exfalso.
    assert (visited ⊆ (elements (dom (class_hierarchy ts)) : list string)) as Hsub.
    { intros v Hv. apply elem_of_elements, elem_of_dom.
      destruct (Hchain v Hv) as [->|(w & _ & Hw)]; [|by eexists].
      inversion Hanc; by eexists. }
    apply (NoDup_submseteq _ _ Hnd), submseteq_length in Hsub.
    pose proof (size_dom (D:=gset string) (class_hierarchy ts)) as Hsz.
    unfold size at 1, set_size in Hsz. simpl in *. lia.
  - simpl.
    assert (exists sup, class_hierarchy ts !! current = Some (Some sup)
                        /\ (sup = p \/ proper_ancestor ts sup p)) as (sup & E & Hsup).
    { inversion Hanc; subst; eauto. }
    rewrite E. destruct (String.eqb_spec sup p) as [|Hne]; [done|].
    destruct Hsup as [|Hsup]; [done|].
    case_bool_decide as Hin.
    + exfalso. apply Hp.
      apply (closed_visited_ancestors ts visited) with (v := sup); [|done|done].
      intros v Hv. destruct (Hchain v Hv) as [->|?]; [|done]. eauto.
    + apply IH; try done.
      * intros [->|?]%elem_of_cons; done.
      * apply elem_of_cons; by left.
      * by apply NoDup_cons.
      * intros v [->|Hv]%elem_of_cons; [by left|]. right.
        destruct (Hchain v Hv) as [->|(w & Hw & Hvw)].
        -- exists sup. split; [apply elem_of_cons; by left | done].
        -- exists w. split; [apply elem_of_cons; by right | done].
      * simpl. lia.
Qed.

(** X5: [is_subclass_or_same] decides the reflexive-transitive closure of
    the superclass relation, on every hierarchy: also on a cyclic one,
    where the [visited] set ends the walk. *)
Theorem is_subclass_or_same_spec ts c p :
  is_subclass_or_same ts c p = true <-> c = p \/ proper_ancestor ts c p.
Proof.
  unfold is_subclass_or_same.
  destruct (String.eqb_spec c p) as [->|Hne]; [by split; [left|]|].
  split.
  - intros H. right. by eapply is_subclass_loop_sound.
  - intros [|Hanc]; [done|].
    apply is_subclass_loop_complete; try done.
    + by intros ->%list_elem_of_singleton.
    + by apply list_elem_of_singleton.
    + apply NoDup_singleton.
    + intros v ->%list_elem_of_singleton. by left.
    + simpl. lia.
Qed.

Lemma check_type_own_class ts v :
  in_hierarchy ts (class_name_of v) = true -> class_name_of v <> "nulo" ->
  check_type ts v (class_name_of v) = true.
Proof.
  intros Hh Hn. unfold check_type.
  destruct (String.eqb_spec (class_name_of v) "nulo") as [|_]; [done|].
  by rewrite Hh, String.eqb_refl, orb_true_r.
Qed.

Lemma check_type_mapped ts v ty py_t :
  ty <> "nulo" -> type_map_get ty = Some py_t -> isinstance v py_t = true ->
  check_type ts v ty = true.
Proof.
  intros Hn Hty Hv. unfold check_type.
  destruct (String.eqb_spec ty "nulo") as [|_]; [done|].
  rewrite Hty, Hv. by destruct (if in_hierarchy ts ty then _ else _).
Qed.

(** The type that [infer_type] gives a value is one the value has. *)
Lemma infer_type_passes_check ts v :
  in_hierarchy ts "nulo" = false ->
  infer_type ts v = "desconocido" \/ check_type ts v (infer_type ts v) = true.
Proof.
  intros Hnulo.
  assert (v = VNone \/ infer_type ts v
          = if in_hierarchy ts (class_name_of v) then class_name_of v
            else infer_type_loop ts v type_map_items) as [->| ->];
    [destruct v; auto | by right |].
  destruct (in_hierarchy ts (class_name_of v)) eqn:Hh.
  { right. apply check_type_own_class; [done|]. intros Hn. congruence. }
  destruct v as [|b|z|f|t|l|l|f|n|c|c l|e].
  - right. reflexivity.
  - right. by apply (check_type_mapped ts _ "entero" py_int).
  - right. by apply (check_type_mapped ts _ "entero" py_int).
  - right. by apply (check_type_mapped ts _ "decimal" py_float).
  - right. by apply (check_type_mapped ts _ "texto" py_str).
  - right. by apply (check_type_mapped ts _ "lista" py_list).
  - right. by apply (check_type_mapped ts _ "objeto" py_dict).
  - right. by apply (check_type_mapped ts _ "funcion" py_function).
  - destruct n; try (by left).
    right. by apply (check_type_mapped ts _ "funcion" py_function).
  - right. cbn.
    destruct (in_hierarchy ts c); by apply (check_type_mapped ts _ "clase" py_type_).
  - by left.
  - left. by destruct e as [[] ? ? ?].
Qed.

(** X6: a value passes the check against the type that [infer_type] gives
    it, whenever that is a type at all (not "desconocido"); the hierarchy
    is assumed to have no class named "nulo". *)
Theorem check_type_infer_type ts v :
  in_hierarchy ts "nulo" = false ->
  infer_type ts v = "desconocido" \/ check_type ts v (infer_type ts v) = true.
Proof.
  intros Hnulo. destruct (infer_type_passes_check ts v Hnulo) as [H|H]; [by left | by right].
Qed.

Lemma check_type_infer_type_witness :
  in_hierarchy jerarquia_AB "nulo" = false
  /\ (infer_type jerarquia_AB (VInstance "B" 0%nat) = "desconocido"
      \/ check_type jerarquia_AB (VInstance "B" 0%nat)
           (infer_type jerarquia_AB (VInstance "B" 0%nat)) = true).
Proof.
  split; [reflexivity|].
  exact (check_type_infer_type jerarquia_AB (VInstance "B" 0%nat) eq_refl).
Defined.

(** What [validate_assignment] accepts for a declared type. *)
Lemma validate_assignment_accepts ts ctx v ty lin col is_return :
  validate_assignment ts ctx v (Some ty) lin col is_return = None
  <-> v = VNone \/ check_type ts v ty = true.
Proof.
  unfold validate_assignment.
  destruct v; try (split; [by left | done]);
    (destruct (check_type ts _ ty); simpl;
     [split; [by right | done] | split; [done | by intros [|]]]).
Qed.

(** X7: [validate_function_call] accepts a call exactly when the number
    of arguments is the number of parameters and every argument whose
    parameter has a type annotation is null or passes [check_type] for it;
    every error it raises is a [ZiskTypeError]. *)
Theorem validate_function_call_spec ts func_name args params lin col :
  (validate_function_call ts func_name args params lin col = None
   <-> Forall2 (fun a p =>
         ZiskREPL.opt_truthy (snd p) = false \/ a = VNone
         \/ check_type ts a (default "" (snd p)) = true) args params)
  /\ (forall e, validate_function_call ts func_name args params lin col = Some e ->
               clase_error e = ZiskTypeError).
Proof.
  unfold validate_function_call.
  destruct (Nat.eqb_spec (length args) (length params)) as [Hlen|Hlen]; simpl.
  2:{ split; [|by intros e [= <-]]. split; [done|].
      intros H%Forall2_length. done. }
  revert params Hlen.
  induction args as [|a args IH]; intros [|[pn pt] params] Hlen;
    try discriminate Hlen.
  - split; [|done]. split; [constructor | done].
  - injection Hlen as Hlen. destruct (IH params Hlen) as [IH1 IH2]. clear IH.
    cbn [validate_params].
    destruct pt as [ty|]; cbn [snd ZiskREPL.opt_truthy default].
    2:{ split; [|done]. rewrite IH1. split.
        - intros H. constructor; [by left | done].
        - by inversion 1. }
    destruct (String.eqb_spec ty "") as [->|Hty]; cbn [negb].
    { split; [|done]. rewrite IH1. split.
      - intros H. constructor; [by left | done].
      - by inversion 1. }
    pose proof (validate_assignment_accepts ts
      ("parámetro '" ++ pn ++ "' de '" ++ func_name ++ "'") a ty lin col false) as Hacc.
    destruct (validate_assignment ts _ a (Some ty) lin col false) as [e|] eqn:E.
    + split.
      * split; [done|]. inversion 1 as [|? ? ? ? [H1|H1] H2]; subst; simpl in *.
        -- by destruct (String.eqb_spec ty "").
        -- apply Hacc in H1. done.
      * intros e' [= <-]. unfold validate_assignment in E.
        destruct a; try done; by destruct (check_type ts _ ty); [|injection E as <-].
    + split; [|done]. rewrite IH1. split.
      * intros H. constructor; [|done]. right. by apply Hacc.
      * by inversion 1.
Qed.

(** X8: booleans count as integers. A boolean passes the check for
    "entero" while an integer does not pass the one for "booleano", and
    [infer_type] answers "entero" for a boolean (when no class is named
    [bool]): "booleano" is never inferred for it. *)
Theorem boolean_is_entero ts b z :
  check_type ts (VBool b) "entero" = true
  /\ check_type ts (VInt z) "booleano" = false
  /\ (in_hierarchy ts "bool" = false -> infer_type ts (VBool b) = "entero")
  /\ String.eqb (infer_type ts (VBool b)) "booleano" = false.
Proof.
  split; [by apply (check_type_mapped ts _ "entero" py_int)|].
  split. { unfold check_type. cbn. by destruct (in_hierarchy ts "booleano"). }
  unfold infer_type. cbn.
  split; [by intros ->|]. by destruct (in_hierarchy ts "bool").
Qed.

Lemma boolean_is_entero_witness :
  in_hierarchy ZiskTypeSystem.init "bool" = false
  /\ infer_type ZiskTypeSystem.init (VBool true) = "entero".
Proof.
  split; [reflexivity|].
  exact (proj1 (proj2 (proj2 (boolean_is_entero ZiskTypeSystem.init true 0))) eq_refl).
Defined.

Lemma get_method_signature_loop_sound ts fuel c m sig :
  get_method_signature_loop ts fuel c m = Some (Some sig) ->
  exists a, proper_ancestor ts c a /\ method_signatures ts !! method_key a m = Some sig.
Proof.
  revert c. induction fuel as [|fuel IH]; intros c; simpl; [done|].
  destruct (String.eqb c ""); [done|].
  destruct (class_hierarchy ts !! c) as [[sup|]|] eqn:E; try done.
  destruct (String.eqb sup ""); [done|].
  destruct (method_signatures ts !! method_key sup m) as [s|] eqn:Es.
  - intros [= <-]. exists sup. split; [by apply ancestor_parent | done].
  - intros H. destruct (IH _ H) as (a & Ha & Hs).
    exists a. split; [by eapply ancestor_step | done].
Qed.

(** X9: the signature of a method is looked up in the class itself first:
    what [add_method_signature] records is what the lookup answers, for
    that class, at once. Any other answer is the signature recorded for a
    proper ancestor of the class, and a class without a signature of its
    own answers as its superclass does. *)
Theorem get_method_signature_inherits ts c m :
  (forall r ps fuel,
     get_method_signature (add_method_signature ts c m r ps) fuel c m
     = Some (Some (r, default [] ps)))
  /\ (forall fuel sig,
        get_method_signature ts fuel c m = Some (Some sig) ->
        exists a, (a = c \/ proper_ancestor ts c a)
                  /\ method_signatures ts !! method_key a m = Some sig)
  /\ (forall fuel p,
        method_signatures ts !! method_key c m = None ->
        class_hierarchy ts !! c = Some (Some p) -> c <> "" -> p <> "" ->
        get_method_signature ts (S fuel) c m = get_method_signature ts fuel p m).
Proof.
  split; [|split].
  - intros r ps fuel. unfold get_method_signature, add_method_signature. simpl.
    by rewrite lookup_insert_eq.
  - intros fuel sig. unfold get_method_signature.
    destruct (method_signatures ts !! method_key c m) as [s|] eqn:E.
    + intros [= <-]. exists c. split; [by left | done].
    + intros H. apply get_method_signature_loop_sound in H as (a & Ha & Hs).
      exists a. split; [by right | done].
  - intros fuel p Hown Hp Hc Hpn. unfold get_method_signature. rewrite Hown. simpl.
    rewrite Hp.
    destruct (String.eqb_spec c "") as [|_]; [done|].
    destruct (String.eqb_spec p "") as [|_]; [done|]. done.
Qed.

(** X10: on a cyclic hierarchy the lookup of a method that no class of the
    cycle declares never returns: whatever the number of rounds allowed,
    the loop over the superclasses has not ended (it has no guard against
    cycles, unlike [is_subclass_or_same]). *)
Theorem get_method_signature_cycle ts (cycle : list string) c m :
  c ∈ cycle ->
  Forall (fun v =>
    v <> "" /\ method_signatures ts !! method_key v m = None
    /\ exists w, w ∈ cycle /\ class_hierarchy ts !! v = Some (Some w)) cycle ->
  forall fuel, get_method_signature ts fuel c m = None.
Proof.
  intros Hc Hcycle fuel. rewrite Forall_forall in Hcycle.
  unfold get_method_signature.
  destruct (Hcycle c Hc) as (_ & -> & _).
  revert c Hc. induction fuel as [|fuel IH]; intros c Hc; simpl; [done|].
  destruct (Hcycle c Hc) as (Hne & _ & w & Hw & ->).
  destruct (Hcycle w Hw) as (Hwne & -> & _).
  destruct (String.eqb_spec c "") as [|_]; [done|].
  destruct (String.eqb_spec w "") as [|_]; [done|].
  by apply IH.
Qed.

Lemma get_method_signature_cycle_witness :
  get_method_signature jerarquia_ciclica 1000 "A" "area" = None.
Proof.
  apply (get_method_signature_cycle jerarquia_ciclica ["A"; "B"] "A" "area").
  - apply elem_of_cons. by left.
  - constructor; [|constructor; [|constructor]].
    + split; [done|]. split; [reflexivity|].
      exists "B". split; [|reflexivity]. apply elem_of_cons. right.
      apply elem_of_cons. by left.
    + split; [done|]. split; [reflexivity|].
      exists "A". split; [|reflexivity]. apply elem_of_cons. by left.
Defined.

End TypeSystemProperties.

(** ** The optimizer *)

Section OptimizerProperties.
Import ZiskOptimizer.

Lemma ast_children_ind (P : ast -> Prop) :
  (forall e, Forall P (children e) -> P e) -> forall e, P e.
Proof.
  intros H. fix IH 1. intros e. apply H.
  destruct e; simpl;
    try (match goal with
         | |- Forall P (map snd ?l) =>
             induction l as [|[k v] l IHl]; simpl; constructor; [apply IH | exact IHl]
         | |- Forall P (?c :: ?l) =>
             constructor; [apply IH|];
             induction l as [|a l IHl]; constructor; [apply IH | exact IHl]
         | |- Forall P ?l =>
             is_var l; induction l as [|a l IHl]; constructor; [apply IH | exact IHl]
         end);
    repeat constructor; apply IH.
Qed.

Lemma optimize_list_eq e :
  match e with
  | PROGRAMA ds => optimize e = host_bind (optimize_list ds) (fun ds' => inl (PROGRAMA ds'))
  | BLOQUE ds => optimize e = host_bind (optimize_list ds) (fun ds' => inl (BLOQUE ds'))
  | CLASE n sup ms =>
      optimize e = host_bind (optimize_list ms) (fun ms' => inl (CLASE n sup ms'))
  | LLAMADA c args =>
      optimize e = host_bind (optimize c) (fun c' =>
                   host_bind (optimize_list args) (fun args' => inl (LLAMADA c' args')))
  | LLAMADA_NATIVA n args =>
      optimize e = host_bind (optimize_list args) (fun args' => inl (LLAMADA_NATIVA n args'))
  | CONSTRUCTOR n args =>
      optimize e = host_bind (optimize_list args) (fun args' => inl (CONSTRUCTOR n args'))
  | LISTA_LITERAL es =>
      optimize e = host_bind (optimize_list es) (fun es' => inl (LISTA_LITERAL es'))
  | OBJETO_LITERAL ps =>
      optimize e = host_bind (optimize_props ps) (fun ps' => inl (OBJETO_LITERAL ps'))
  | _ => True
  end.
Proof. destruct e; reflexivity || exact I. Qed.

Lemma optimize_list_fixed l l' :
  Forall fixed l -> optimize_list l = inl l' -> optimize_list l' = inl l'.
Proof.
  intros Hl. revert l'. induction Hl as [|x l Hx _ IH]; intros l'; simpl.
  - by intros [= <-].
  - destruct (optimize x) as [x'|] eqn:Ex; [|done]. simpl.
    destruct (optimize_list l) as [l''|] eqn:El; [|done]. simpl.
    intros [= <-]. specialize (Hx _ Ex). specialize (IH _ eq_refl).
    destruct (node_truthy x') eqn:Hn; [|done].
    simpl. rewrite Hx. simpl. rewrite IH. simpl. by rewrite Hn.
Qed.

Lemma optimize_props_fixed l l' :
  Forall fixed (map snd l) -> optimize_props l = inl l' -> optimize_props l' = inl l'.
Proof.
  revert l'. induction l as [|[k v] l IH]; intros l' Hl; simpl.
  - by intros [= <-].
  - apply Forall_cons in Hl as [Hv Hl].
    destruct (optimize v) as [v'|] eqn:Ev; [|done]. simpl.
    destruct (pair_tag_check k) as [[]|] eqn:Ek; [|done]. simpl.
    destruct (optimize_props l) as [l''|] eqn:El; [|done]. simpl.
    intros [= <-]. simpl. rewrite (Hv _ Ev). simpl. rewrite Ek. simpl.
    by rewrite (IH _ Hl eq_refl).
Qed.

Lemma optimize_params_fixed ps ps' :
  optimize_params ps = inl ps' -> optimize_params ps' = inl ps'.
Proof.
  revert ps'. induction ps as [|[n t] ps IH]; intros ps'; simpl.
  - by intros [= <-].
  - destruct (pair_tag_check n) as [[]|] eqn:En; [|done]. simpl.
    destruct (optimize_params ps) as [ps''|] eqn:Ep; [|done]. simpl.
    intros [= <-]. simpl. rewrite En. simpl. by rewrite (IH _ eq_refl).
Qed.

Ltac step_child H :=
  match type of H with
  | context [host_bind (optimize ?c) _] =>
      let c' := fresh "c'" in let E := fresh "E" in
      destruct (optimize c) as [c'|] eqn:E; [|discriminate H]; cbn [host_bind] in H
  | context [host_bind (optimize_list ?c) _] =>
      let c' := fresh "l'" in let E := fresh "E" in
      destruct (optimize_list c) as [c'|] eqn:E; [|discriminate H]; cbn [host_bind] in H
  | context [host_bind (optimize_params ?c) _] =>
      let c' := fresh "ps'" in let E := fresh "E" in
      destruct (optimize_params c) as [c'|] eqn:E; [|discriminate H]; cbn [host_bind] in H
  | context [host_bind (optimize_props ?c) _] =>
      let c' := fresh "ps'" in let E := fresh "E" in
      destruct (optimize_props c) as [c'|] eqn:E; [|discriminate H]; cbn [host_bind] in H
  end.

Lemma fold_constant_numero op l r e' :
  fold_constant op l r = Some (inl e') -> exists v, e' = NUMERO v.
Proof.
  unfold fold_constant. destruct l; try done. destruct r; try done.
  match goal with |- context [match ?x with _ => _ end] => destruct x as [[v|[]]|] end;
    try done.
  intros [= <-]. eauto.
Qed.

Ltac rewrite_fixed :=
  repeat match goal with E : optimize ?x = inl ?x |- _ => rewrite E end.

Lemma optimize_fixed e : fixed e.
Proof.
  induction e as [e IH] using ast_children_ind. intros e' H.
  pose proof (optimize_list_eq e) as Hl.
  destruct e; simpl in IH;
    repeat match goal with
    | H : Forall _ (_ :: _) |- _ => apply Forall_cons in H as [? ?]
    end;
    try (rewrite Hl in H; clear Hl);
    try (injection H as <-; reflexivity).
  all: cbn [optimize] in H; repeat step_child H.
  all: repeat match goal with
       | Hf : fixed ?c, E : optimize ?c = inl ?c' |- _ =>
           pose proof (Hf _ E); clear Hf
       | Hf : Forall _ ?l, E : optimize_list ?l = inl ?l' |- _ =>
           pose proof (optimize_list_fixed _ _ Hf E); clear Hf
       | Hf : Forall _ (map snd ?l), E : optimize_props ?l = inl ?l' |- _ =>
           pose proof (optimize_props_fixed _ _ Hf E); clear Hf
       | E : optimize_params ?l = inl ?l' |- _ =>
           tryif constr_eq l l' then fail else
             (pose proof (optimize_params_fixed _ _ E); clear E)
       end.
  all: try (injection H as <-;
            match goal with |- optimize ?x = _ =>
              let Hx := fresh in
              pose proof (optimize_list_eq x) as Hx; cbn beta iota in Hx;
              first [rewrite Hx | clear Hx; cbn [optimize]]
            end;
            repeat match goal with E : _ = inl _ |- _ => rewrite E; clear E end;
            reflexivity).
  - (* SI *)
    assert (optimize (SI c' c'0 c'1)
            = match c' with
              | NADA => inr (PyTypeError false)
              | BOOLEANO true => inl c'0
              | BOOLEANO false => inl c'1
              | _ => inl (SI c' c'0 c'1)
              end) as Hsi.
    { cbn [optimize]. by rewrite_fixed. }
    destruct c'; try discriminate H; try (injection H as <-; exact Hsi).
    by destruct b; injection H as <-.
  - (* MIENTRAS *)
    assert (optimize (MIENTRAS c' c'0)
            = match c' with
              | NADA => inr (PyTypeError false)
              | BOOLEANO false => inl NADA
              | _ => inl (MIENTRAS c' c'0)
              end) as Hmi.
    { cbn [optimize]. by rewrite_fixed. }
    destruct c'; try discriminate H; try (injection H as <-; exact Hmi).
    by destruct b; injection H as <-.
  - (* OPERACION_ARITMETICA *)
    assert (optimize (OPERACION_ARITMETICA operador c' c'0)
            = match fold_constant operador c' c'0 with
              | Some res => res
              | None => inl (OPERACION_ARITMETICA operador c' c'0)
              end) as Hop.
    { cbn [optimize]. by rewrite_fixed. }
    destruct (fold_constant operador c' c'0) as [res|] eqn:Ef.
    + subst res. by apply fold_constant_numero in Ef as [v ->].
    + by injection H as <-.
Qed.

(** X11: optimizing is idempotent: the AST that [optimize] returns is left
    unchanged by a second pass. *)
Theorem optimize_idempotent e e' :
  optimize e = inl e' -> optimize e' = inl e'.
Proof. apply optimize_fixed. Qed.

Lemma optimize_idempotent_witness :
  let e := SI (BOOLEANO true)
             (BLOQUE [OPERACION_ARITMETICA "+" uno (OPERACION_ARITMETICA "*" dos cinco)])
             NADA in
  optimize e = inl (BLOQUE [NUMERO (NInt 11)])
  /\ optimize (BLOQUE [NUMERO (NInt 11)]) = inl (BLOQUE [NUMERO (NInt 11)]).
Proof.
  split; [reflexivity|].
  exact (optimize_idempotent
           (SI (BOOLEANO true)
              (BLOQUE [OPERACION_ARITMETICA "+" uno (OPERACION_ARITMETICA "*" dos cinco)])
              NADA)
           (BLOQUE [NUMERO (NInt 11)]) eq_refl).
Defined.

End OptimizerProperties.

(** ** The parser as a whole *)

Section ParserInvariant.
Import ZiskParser.

Lemma advances_refl p : advances p p.
Proof. by split. Qed.

Lemma advances_trans p1 p2 p3 : advances p1 p2 -> advances p2 p3 -> advances p1 p3.
Proof.
  intros [A1 A2 A3 A4] [B1 B2 B3 B4]. split.
  - congruence.
  - lia.
  - intros H. rewrite A1 in B3. auto.
  - auto.
Qed.

Lemma keeps_ret {A} (a : A) : keeps (ret a).
Proof. intros p. apply advances_refl. Qed.

Lemma keeps_error {A} msg lin col : keeps (@error A msg lin col).
Proof. intros p. apply advances_refl. Qed.

Lemma keeps_bind {A B} (m : P A) (k : A -> P B) :
  keeps m -> (forall a, keeps (k a)) -> keeps (bind m k).
Proof.
  intros Hm Hk p. unfold bind. specialize (Hm p).
  destruct (m p) as [a p'|e p'|e p'|]; try done.
  specialize (Hk a p'). destruct (k a p'); try done; by eapply advances_trans.
Qed.

Lemma keeps_peek : keeps peek.
Proof. intros p. apply advances_refl. Qed.

Lemma keeps_set_current_class c : keeps (set_current_class c).
Proof. intros p. by split. Qed.

Lemma keeps_enter_scope : keeps enter_scope.
Proof. intros p. by split. Qed.

Lemma keeps_exit_scope : keeps exit_scope.
Proof.
  intros p. unfold exit_scope. destruct (scopes p) as [|f [|g rest]] eqn:E;
    split; simpl; try done; by rewrite ?E.
Qed.

Lemma keeps_register name decl : keeps (register name decl).
Proof.
  intros p. unfold register. destruct (scopes p) as [|f rest] eqn:E;
    split; simpl; try done.
Qed.

Lemma keeps_consume ty v : keeps (consume ty v).
Proof.
  intros p. unfold consume, current_token.
  destruct (tokens p !! token_index p) as [tk|] eqn:E.
  - apply lookup_lt_Some in E.
    destruct (match ty with Some _ => _ | None => false end); [apply advances_refl|].
    destruct (match v with Some _ => _ | None => false end); [apply advances_refl|].
    split; simpl; try done; lia.
  - destruct (end_position true p). apply advances_refl.
Qed.

Lemma keeps_consume_type ty : keeps (consume_type ty).
Proof. apply keeps_consume. Qed.

Lemma keeps_consume_value ty v : keeps (consume_value ty v).
Proof. apply keeps_consume. Qed.

Create HintDb kp.
#[local] Hint Resolve keeps_ret keeps_error keeps_peek keeps_set_current_class
  keeps_enter_scope keeps_exit_scope keeps_register keeps_consume keeps_consume_type
  keeps_consume_value : kp.

Ltac kp_fun :=
  let p := fresh "p" in
  intros p; cbv beta;
  repeat match goal with
         | |- context [match ?x with _ => _ end] => destruct x
         end;
  first [apply advances_refl | done].

Ltac kp :=
  repeat first
    [ solve [auto with kp]
    | apply keeps_bind; [|intros ?]
    | match goal with
      | |- keeps (match ?x with _ => _ end) => destruct x
      | |- keeps (if ?x then _ else _) => destruct x
      end ].

Lemma keeps_consume_optional_semicolon : keeps consume_optional_semicolon.
Proof. unfold consume_optional_semicolon. kp. Qed.

Lemma keeps_parse_tipo_opcional : keeps parse_tipo_opcional.
Proof. unfold parse_tipo_opcional. kp. Qed.

#[local] Hint Resolve keeps_consume_optional_semicolon keeps_parse_tipo_opcional : kp.

Variable self_ : entry -> P ast.
Variable iterations : nat.
Hypothesis Hself : forall e, keeps (self_ e).

#[local] Hint Resolve Hself : kp.

Lemma keeps_parse_argumentos k cierre args : keeps (parse_argumentos self_ k cierre args).
Proof. revert args. induction k as [|k IH]; intros args; [by intros p|]. simpl. kp. Qed.

#[local] Hint Resolve keeps_parse_argumentos : kp.

Lemma keeps_parse_lista_literal : keeps (parse_lista_literal self_ iterations).
Proof. unfold parse_lista_literal. kp. Qed.

Lemma keeps_host_error {A} e : keeps (fun self => @HostError A e self).
Proof. intros p. apply advances_refl. Qed.

#[local] Hint Resolve keeps_host_error : kp.

Lemma keeps_parse_propiedades k props : keeps (parse_propiedades self_ k props).
Proof. revert props. induction k as [|k IH]; intros props; [by intros p|]. simpl. kp. Qed.

#[local] Hint Resolve keeps_parse_lista_literal keeps_parse_propiedades : kp.

Lemma keeps_parse_objeto_literal : keeps (parse_objeto_literal self_ iterations).
Proof. unfold parse_objeto_literal. kp. Qed.

#[local] Hint Resolve keeps_parse_objeto_literal : kp.

Lemma keeps_end_error {A} b msg :
  keeps (fun self => let '(lin, col) := end_position b self in @error A msg lin col self).
Proof. intros p. destruct (end_position b p). apply advances_refl. Qed.

Lemma keeps_este tok :
  keeps (fun self =>
    if negb (opt_truthy_class (current_class self)) then
      error "'este' solo puede usarse dentro de un método de clase."
        (linea_token tok) (columna_token tok) self
    else Ok ESTE self).
Proof. intros p. destruct (negb _); apply advances_refl. Qed.

#[local] Hint Resolve keeps_end_error keeps_este : kp.

Lemma keeps_parse_expresion_primaria : keeps (parse_expresion_primaria self_ iterations).
Proof. unfold parse_expresion_primaria. kp. Qed.

#[local] Hint Resolve keeps_parse_expresion_primaria : kp.

Lemma keeps_parse_sufijos k expr : keeps (parse_sufijos self_ iterations k expr).
Proof. revert expr. induction k as [|k IH]; intros expr; [by intros p|]. simpl. kp. Qed.

#[local] Hint Resolve keeps_parse_sufijos : kp.

Lemma keeps_parse_expresion_llamada_o_acceso :
  keeps (parse_expresion_llamada_o_acceso self_ iterations).
Proof. unfold parse_expresion_llamada_o_acceso. kp. Qed.

#[local] Hint Resolve keeps_parse_expresion_llamada_o_acceso : kp.

Lemma keeps_parse_expresion_unaria : keeps (parse_expresion_unaria self_ iterations).
Proof. unfold parse_expresion_unaria. kp. Qed.

Lemma keeps_parse_binaria k ops node operand izq :
  keeps operand -> keeps (parse_binaria k ops node operand izq).
Proof.
  intros Ho. revert izq. induction k as [|k IH]; intros izq; [by intros p|]. simpl. kp.
Qed.

#[local] Hint Resolve keeps_parse_expresion_unaria keeps_parse_binaria : kp.

Lemma keeps_parse_expresion_multiplicacion :
  keeps (parse_expresion_multiplicacion self_ iterations).
Proof. unfold parse_expresion_multiplicacion. kp. Qed.
#[local] Hint Resolve keeps_parse_expresion_multiplicacion : kp.

Lemma keeps_parse_expresion_adicion : keeps (parse_expresion_adicion self_ iterations).
Proof. unfold parse_expresion_adicion. kp. Qed.
#[local] Hint Resolve keeps_parse_expresion_adicion : kp.

Lemma keeps_parse_expresion_comparacion :
  keeps (parse_expresion_comparacion self_ iterations).
Proof. unfold parse_expresion_comparacion. kp. Qed.
#[local] Hint Resolve keeps_parse_expresion_comparacion : kp.

Lemma keeps_parse_expresion_logica_y : keeps (parse_expresion_logica_y self_ iterations).
Proof. unfold parse_expresion_logica_y. kp. Qed.
#[local] Hint Resolve keeps_parse_expresion_logica_y : kp.

Lemma keeps_parse_expresion_logica_o : keeps (parse_expresion_logica_o self_ iterations).
Proof. unfold parse_expresion_logica_o. kp. Qed.
#[local] Hint Resolve keeps_parse_expresion_logica_o : kp.

Lemma keeps_parse_expresion_asignacion :
  keeps (parse_expresion_asignacion self_ iterations).
Proof. unfold parse_expresion_asignacion. kp. Qed.
#[local] Hint Resolve keeps_parse_expresion_asignacion : kp.

Lemma keeps_parse_expresion : keeps (parse_expresion self_ iterations).
Proof. apply keeps_parse_expresion_asignacion. Qed.
#[local] Hint Resolve keeps_parse_expresion : kp.

Lemma keeps_branch_on_parser {A} (c : t -> bool) (m1 m2 : P A) :
  keeps m1 -> keeps m2 -> keeps (fun self => if c self then m1 self else m2 self).
Proof. intros H1 H2 p. destruct (c p); [apply H1 | apply H2]. Qed.

Lemma keeps_parse_declaracion_variable a b c :
  keeps (parse_declaracion_variable self_ a b c).
Proof.
  unfold parse_declaracion_variable.
  apply keeps_bind; [kp|]. intros ?. apply keeps_bind; [kp|]. intros ?.
  destruct (negb (lower_name _)); [kp|].
  apply (keeps_branch_on_parser
           (fun self => negb a && variable_declared_in_current_scope _ self)); kp.
Qed.

Lemma keeps_parse_declaracion_constante a b c :
  keeps (parse_declaracion_constante self_ a b c).
Proof.
  unfold parse_declaracion_constante.
  apply keeps_bind; [kp|]. intros ?. apply keeps_bind; [kp|]. intros ?.
  destruct (negb (upper_name _)); [kp|].
  apply (keeps_branch_on_parser
           (fun self => negb a && variable_declared_in_current_scope _ self)); kp.
Qed.

#[local] Hint Resolve keeps_parse_declaracion_variable keeps_parse_declaracion_constante : kp.

Lemma keeps_parse_sentencias k ss : keeps (parse_sentencias self_ k ss).
Proof. revert ss. induction k as [|k IH]; intros ss; [by intros p|]. simpl. kp. Qed.
#[local] Hint Resolve keeps_parse_sentencias : kp.

Lemma keeps_parse_bloque b : keeps (parse_bloque self_ iterations b).
Proof. unfold parse_bloque. kp. Qed.
#[local] Hint Resolve keeps_parse_bloque : kp.

Lemma keeps_parse_bloque_o_sentencia : keeps (parse_bloque_o_sentencia self_ iterations).
Proof. unfold parse_bloque_o_sentencia. kp. Qed.
#[local] Hint Resolve keeps_parse_bloque_o_sentencia : kp.

Lemma keeps_parse_si : keeps (parse_si self_ iterations).
Proof. unfold parse_si. kp. Qed.
Lemma keeps_parse_mientras : keeps (parse_mientras self_ iterations).
Proof. unfold parse_mientras. kp. Qed.
Lemma keeps_parse_para : keeps (parse_para self_ iterations).
Proof. unfold parse_para. kp. Qed.
Lemma keeps_parse_hacer_mientras : keeps (parse_hacer_mientras self_ iterations).
Proof. unfold parse_hacer_mientras. kp. Qed.
Lemma keeps_parse_mostrar : keeps (parse_mostrar self_ iterations).
Proof. unfold parse_mostrar. kp. Qed.
Lemma keeps_parse_retorna : keeps (parse_retorna self_ iterations).
Proof. unfold parse_retorna. kp. Qed.
Lemma keeps_parse_break : keeps parse_break.
Proof. unfold parse_break. kp. Qed.
Lemma keeps_parse_continua : keeps parse_continua.
Proof. unfold parse_continua. kp. Qed.
Lemma keeps_parse_try_catch : keeps (parse_try_catch self_ iterations).
Proof. unfold parse_try_catch. kp. Qed.
Lemma keeps_parse_importa : keeps parse_importa.
Proof. unfold parse_importa. kp. Qed.

#[local] Hint Resolve keeps_parse_si keeps_parse_mientras keeps_parse_para
  keeps_parse_hacer_mientras keeps_parse_mostrar keeps_parse_retorna keeps_parse_break
  keeps_parse_continua keeps_parse_try_catch keeps_parse_importa : kp.

Lemma keeps_parse_sentencia : keeps (parse_sentencia self_ iterations).
Proof. unfold parse_sentencia. kp. Qed.
#[local] Hint Resolve keeps_parse_sentencia : kp.

Lemma keeps_parse_parametros k m ps : keeps (parse_parametros k m ps).
Proof. revert ps. induction k as [|k IH]; intros ps; [by intros p|]. simpl. kp. Qed.
#[local] Hint Resolve keeps_parse_parametros : kp.

Lemma keeps_parse_funcion : keeps (parse_funcion self_ iterations).
Proof. unfold parse_funcion. kp. Qed.
Lemma keeps_parse_metodo_clase a b : keeps (parse_metodo_clase self_ iterations a b).
Proof. unfold parse_metodo_clase. kp. Qed.
Lemma keeps_parse_modificadores k a b : keeps (parse_modificadores k a b).
Proof. revert a b. induction k as [|k IH]; intros a b; [by intros p|]. simpl. kp. Qed.
#[local] Hint Resolve keeps_parse_funcion keeps_parse_metodo_clase
  keeps_parse_modificadores : kp.

Lemma keeps_parse_miembros k ms : keeps (parse_miembros self_ iterations k ms).
Proof. revert ms. induction k as [|k IH]; intros ms; [by intros p|]. simpl. kp. Qed.
#[local] Hint Resolve keeps_parse_miembros : kp.

Lemma keeps_parse_clase : keeps (parse_clase self_ iterations).
Proof. unfold parse_clase. kp. Qed.
#[local] Hint Resolve keeps_parse_clase : kp.

Lemma keeps_parse_declaracion : keeps (parse_declaracion self_ iterations).
Proof. unfold parse_declaracion. kp. Qed.
#[local] Hint Resolve keeps_parse_declaracion : kp.

Lemma keeps_parse_entry e : keeps (parse_entry self_ iterations e).
Proof. destruct e; simpl; kp. Qed.


Lemma strict_error {A} msg lin col : strict (@error A msg lin col).
Proof. by intros p. Qed.

Lemma strict_host_error {A} e : strict (fun self => @HostError A e self).
Proof. by intros p. Qed.

Lemma strict_end_error {A} b msg :
  strict (fun self => let '(lin, col) := end_position b self in @error A msg lin col self).
Proof. intros p. by destruct (end_position b p). Qed.

Lemma strict_consume ty v : strict (consume ty v).
Proof.
  intros p. unfold consume.
  destruct (current_token p); [|by destruct (end_position true p)].
  destruct (match ty with Some _ => _ | None => false end); [done|].
  destruct (match v with Some _ => _ | None => false end); [done|].
  simpl. lia.
Qed.

Lemma strict_consume_type ty : strict (consume_type ty).
Proof. apply strict_consume. Qed.

Lemma strict_consume_value ty v : strict (consume_value ty v).
Proof. apply strict_consume. Qed.

Lemma strict_bind_l {A B} (m : P A) (k : A -> P B) :
  strict m -> (forall a, keeps (k a)) -> strict (bind m k).
Proof.
  intros Hm Hk p. unfold bind. specialize (Hm p).
  destruct (m p) as [a p'|e p'|e p'|]; try done.
  specialize (Hk a p'). destruct (k a p'); try done.
  destruct Hk as [_ Hk _ _]. lia.
Qed.

Lemma strict_bind_r {A B} (m : P A) (k : A -> P B) :
  keeps m -> (forall a, strict (k a)) -> strict (bind m k).
Proof.
  intros Hm Hk p. unfold bind. specialize (Hm p).
  destruct (m p) as [a p'|e p'|e p'|]; try done.
  specialize (Hk a p'). destruct (k a p'); try done.
  destruct Hm as [_ Hm _ _]. lia.
Qed.

Lemma strict_branch_on_parser {A} (c : t -> bool) (m1 m2 : P A) :
  strict m1 -> strict m2 -> strict (fun self => if c self then m1 self else m2 self).
Proof. intros H1 H2 p. destruct (c p); [apply H1 | apply H2]. Qed.

Lemma finishes_ret {A} n (a : A) : finishes n (ret a).
Proof. by intros p _ _. Qed.

Lemma finishes_error {A} n msg lin col : finishes n (@error A msg lin col).
Proof. by intros p _ _. Qed.

Lemma finishes_host_error {A} n e : finishes n (fun self => @HostError A e self).
Proof. by intros p _ _. Qed.

Lemma finishes_end_error {A} n b msg :
  finishes n
    (fun self => let '(lin, col) := end_position b self in @error A msg lin col self).
Proof. intros p _ _. by destruct (end_position b p). Qed.

Lemma finishes_peek n : finishes n peek.
Proof. by intros p _ _. Qed.

Lemma finishes_set_current_class n c : finishes n (set_current_class c).
Proof. by intros p _ _. Qed.

Lemma finishes_enter_scope n : finishes n enter_scope.
Proof. by intros p _ _. Qed.

Lemma finishes_exit_scope n : finishes n exit_scope.
Proof. by intros p _ _. Qed.

Lemma finishes_register n name decl : finishes n (register name decl).
Proof. intros p _ _. unfold register. by destruct (scopes p). Qed.

Lemma finishes_consume n ty v : finishes n (consume ty v).
Proof.
  intros p _ _. unfold consume.
  destruct (current_token p); [|by destruct (end_position true p)].
  destruct (match ty with Some _ => _ | None => false end); [done|].
  by destruct (match v with Some _ => _ | None => false end).
Qed.

Lemma finishes_consume_type n ty : finishes n (consume_type ty).
Proof. apply finishes_consume. Qed.

Lemma finishes_consume_value n ty v : finishes n (consume_value ty v).
Proof. apply finishes_consume. Qed.

Lemma finishes_este n tok :
  finishes n (fun self =>
    if negb (opt_truthy_class (current_class self)) then
      error "'este' solo puede usarse dentro de un método de clase."
        (linea_token tok) (columna_token tok) self
    else Ok ESTE self).
Proof. intros p _ _. by destruct (negb _). Qed.

Lemma finishes_current_class n : finishes n (fun self => Ok (current_class self) self).
Proof. by intros p _ _. Qed.

Lemma finishes_bind {A B} n (m : P A) (k : A -> P B) :
  keeps m -> finishes n m -> (forall a, finishes n (k a)) -> finishes n (bind m k).
Proof.
  intros Hk Hm Hf p Hwf Hn. unfold bind.
  specialize (Hk p). specialize (Hm p Hwf Hn).
  destruct (m p) as [a p'|e p'|e p'|]; try done.
  destruct Hk as [K1 K2 K3 _]. apply Hf; rewrite K1; [by apply K3 | lia].
Qed.

Lemma finishes_bind_strict {A B} n (m : P A) (k : A -> P B) :
  keeps m -> strict m -> finishes n m ->
  (forall a n', (n' < n)%nat -> finishes n' (k a)) -> finishes n (bind m k).
Proof.
  intros Hk Hs Hm Hf p Hwf Hn. unfold bind.
  specialize (Hk p). specialize (Hs p). specialize (Hm p Hwf Hn).
  destruct (m p) as [a p'|e p'|e p'|]; try done.
  destruct Hk as [K1 K2 K3 _]. specialize (K3 Hwf).
  apply (Hf a (length (tokens p) - token_index p'))%nat; rewrite ?K1; lia.
Qed.

Lemma finishes_branch_on_parser {A} n (c : t -> bool) (m1 m2 : P A) :
  finishes n m1 -> finishes n m2 ->
  finishes n (fun self => if c self then m1 self else m2 self).
Proof. intros H1 H2 p Hwf Hn. destruct (c p); [by apply H1 | by apply H2]. Qed.

Create HintDb st.
Create HintDb fn.
#[local] Hint Resolve strict_error strict_host_error strict_end_error strict_consume
  strict_consume_type strict_consume_value : st.
#[local] Hint Resolve finishes_ret finishes_error finishes_host_error finishes_end_error
  finishes_peek finishes_set_current_class finishes_enter_scope finishes_exit_scope
  finishes_register finishes_consume finishes_consume_type finishes_consume_value
  finishes_este finishes_current_class : fn.
#[local] Hint Extern 1 (_ <= _)%nat => lia : fn.
#[local] Hint Extern 1 (_ < _)%nat => lia : fn.

#[local] Hint Resolve keeps_parse_entry keeps_branch_on_parser : kp.

Hypothesis Hstrict : forall e, strict (self_ e).

#[local] Hint Resolve Hstrict : st.

Ltac st :=
  repeat first
    [ solve [auto with st]
    | apply strict_bind_l; [solve [auto with st] | solve [intros; kp]]
    | apply strict_bind_r; [solve [kp] | intros ?]
    | match goal with
      | |- strict (match ?x with _ => _ end) => destruct x
      | |- strict (if ?x then _ else _) => destruct x
      end ].

Lemma strict_parse_lista_literal : strict (parse_lista_literal self_ iterations).
Proof. unfold parse_lista_literal. st. Qed.

Lemma strict_parse_objeto_literal : strict (parse_objeto_literal self_ iterations).
Proof. unfold parse_objeto_literal. st. Qed.

#[local] Hint Resolve strict_parse_lista_literal strict_parse_objeto_literal : st.

Lemma strict_parse_expresion_primaria : strict (parse_expresion_primaria self_ iterations).
Proof. unfold parse_expresion_primaria. st. Qed.
#[local] Hint Resolve strict_parse_expresion_primaria : st.

Lemma strict_parse_expresion_llamada_o_acceso :
  strict (parse_expresion_llamada_o_acceso self_ iterations).
Proof. unfold parse_expresion_llamada_o_acceso. st. Qed.
#[local] Hint Resolve strict_parse_expresion_llamada_o_acceso : st.

Lemma strict_parse_expresion_unaria : strict (parse_expresion_unaria self_ iterations).
Proof. unfold parse_expresion_unaria. st. Qed.
#[local] Hint Resolve strict_parse_expresion_unaria : st.

Lemma strict_parse_expresion_multiplicacion :
  strict (parse_expresion_multiplicacion self_ iterations).
Proof. unfold parse_expresion_multiplicacion. st. Qed.
#[local] Hint Resolve strict_parse_expresion_multiplicacion : st.

Lemma strict_parse_expresion_adicion : strict (parse_expresion_adicion self_ iterations).
Proof. unfold parse_expresion_adicion. st. Qed.
#[local] Hint Resolve strict_parse_expresion_adicion : st.

Lemma strict_parse_expresion_comparacion :
  strict (parse_expresion_comparacion self_ iterations).
Proof. unfold parse_expresion_comparacion. st. Qed.
#[local] Hint Resolve strict_parse_expresion_comparacion : st.

Lemma strict_parse_expresion_logica_y : strict (parse_expresion_logica_y self_ iterations).
Proof. unfold parse_expresion_logica_y. st. Qed.
#[local] Hint Resolve strict_parse_expresion_logica_y : st.

Lemma strict_parse_expresion_logica_o : strict (parse_expresion_logica_o self_ iterations).
Proof. unfold parse_expresion_logica_o. st. Qed.
#[local] Hint Resolve strict_parse_expresion_logica_o : st.

Lemma strict_parse_expresion_asignacion :
  strict (parse_expresion_asignacion self_ iterations).
Proof. unfold parse_expresion_asignacion. st. Qed.
#[local] Hint Resolve strict_parse_expresion_asignacion : st.

Lemma strict_parse_expresion : strict (parse_expresion self_ iterations).
Proof. apply strict_parse_expresion_asignacion. Qed.
#[local] Hint Resolve strict_parse_expresion : st.

Lemma strict_parse_declaracion_variable a b c :
  strict (parse_declaracion_variable self_ a b c).
Proof.
  unfold parse_declaracion_variable.
  apply strict_bind_l; [auto with st|]. intros ?.
  apply keeps_bind; [kp|]. intros ?.
  destruct (negb (lower_name _)); [kp|].
  apply (keeps_branch_on_parser
           (fun self => negb a && variable_declared_in_current_scope _ self)); kp.
Qed.

Lemma strict_parse_declaracion_constante a b c :
  strict (parse_declaracion_constante self_ a b c).
Proof.
  unfold parse_declaracion_constante.
  apply strict_bind_l; [auto with st|]. intros ?.
  apply keeps_bind; [kp|]. intros ?.
  destruct (negb (upper_name _)); [kp|].
  apply (keeps_branch_on_parser
           (fun self => negb a && variable_declared_in_current_scope _ self)); kp.
Qed.

#[local] Hint Resolve strict_parse_declaracion_variable
  strict_parse_declaracion_constante : st.

Lemma strict_parse_bloque b : strict (parse_bloque self_ iterations b).
Proof. unfold parse_bloque. st. Qed.
#[local] Hint Resolve strict_parse_bloque : st.

Lemma strict_parse_bloque_o_sentencia : strict (parse_bloque_o_sentencia self_ iterations).
Proof. unfold parse_bloque_o_sentencia. st. Qed.
#[local] Hint Resolve strict_parse_bloque_o_sentencia : st.

Lemma strict_parse_si : strict (parse_si self_ iterations).
Proof. unfold parse_si. st. Qed.
Lemma strict_parse_mientras : strict (parse_mientras self_ iterations).
Proof. unfold parse_mientras. st. Qed.
Lemma strict_parse_para : strict (parse_para self_ iterations).
Proof. unfold parse_para. st. Qed.
Lemma strict_parse_hacer_mientras : strict (parse_hacer_mientras self_ iterations).
Proof. unfold parse_hacer_mientras. st. Qed.
Lemma strict_parse_mostrar : strict (parse_mostrar self_ iterations).
Proof. unfold parse_mostrar. st. Qed.
Lemma strict_parse_retorna : strict (parse_retorna self_ iterations).
Proof. unfold parse_retorna. st. Qed.
Lemma strict_parse_break : strict parse_break.
Proof. unfold parse_break. st. Qed.
Lemma strict_parse_continua : strict parse_continua.
Proof. unfold parse_continua. st. Qed.
Lemma strict_parse_try_catch : strict (parse_try_catch self_ iterations).
Proof. unfold parse_try_catch. st. Qed.
Lemma strict_parse_importa : strict parse_importa.
Proof. unfold parse_importa. st. Qed.

#[local] Hint Resolve strict_parse_si strict_parse_mientras strict_parse_para
  strict_parse_hacer_mientras strict_parse_mostrar strict_parse_retorna strict_parse_break
  strict_parse_continua strict_parse_try_catch strict_parse_importa : st.

Lemma strict_parse_sentencia : strict (parse_sentencia self_ iterations).
Proof. unfold parse_sentencia. st. Qed.
#[local] Hint Resolve strict_parse_sentencia : st.

Lemma strict_parse_funcion : strict (parse_funcion self_ iterations).
Proof. unfold parse_funcion. st. Qed.
Lemma strict_parse_metodo_clase a b : strict (parse_metodo_clase self_ iterations a b).
Proof. unfold parse_metodo_clase. st. Qed.
Lemma strict_parse_clase : strict (parse_clase self_ iterations).
Proof. unfold parse_clase. st. Qed.
#[local] Hint Resolve strict_parse_funcion strict_parse_metodo_clase strict_parse_clase : st.

Lemma strict_parse_declaracion : strict (parse_declaracion self_ iterations).
Proof. unfold parse_declaracion. st. Qed.
#[local] Hint Resolve strict_parse_declaracion : st.

Lemma strict_parse_entry e : strict (parse_entry self_ iterations e).
Proof. destruct e; simpl; st. Qed.

Hypothesis Hfinishes : forall e n, (n < iterations)%nat -> finishes n (self_ e).

#[local] Hint Resolve Hfinishes : fn.

Ltac fn :=
  repeat first
    [ solve [auto with fn]
    | apply finishes_bind_strict; [solve [kp] | solve [st] | | intros ? ? ?]
    | apply finishes_bind; [solve [kp] | | intros ?]
    | match goal with
      | |- finishes _ (match ?x with _ => _ end) => destruct x
      | |- finishes _ (if ?x then _ else _) => destruct x
      end ].

Ltac fn_loop k :=
  let n := fresh "n" in
  let IH := fresh "IH" in
  induction k as [|k IH]; intros n; intros; [lia|]; simpl; fn.

Lemma finishes_parse_argumentos k n cierre args :
  (n < k)%nat -> (n < iterations)%nat ->
  finishes n (parse_argumentos self_ k cierre args).
Proof. revert n args. fn_loop k. Qed.
#[local] Hint Resolve finishes_parse_argumentos : fn.

Lemma finishes_parse_lista_literal n :
  (n <= iterations)%nat -> finishes n (parse_lista_literal self_ iterations).
Proof. intros Hn. unfold parse_lista_literal. fn. Qed.

Lemma finishes_parse_propiedades k n props :
  (n < k)%nat -> (n < iterations)%nat ->
  finishes n (parse_propiedades self_ k props).
Proof. revert n props. fn_loop k. Qed.
#[local] Hint Resolve finishes_parse_lista_literal finishes_parse_propiedades : fn.

Lemma finishes_parse_objeto_literal n :
  (n <= iterations)%nat -> finishes n (parse_objeto_literal self_ iterations).
Proof. intros Hn. unfold parse_objeto_literal. fn. Qed.
#[local] Hint Resolve finishes_parse_objeto_literal : fn.

Lemma finishes_parse_expresion_primaria n :
  (n <= iterations)%nat -> finishes n (parse_expresion_primaria self_ iterations).
Proof. intros Hn. unfold parse_expresion_primaria. fn. Qed.
#[local] Hint Resolve finishes_parse_expresion_primaria : fn.

Lemma finishes_parse_sufijos k n expr :
  (n < k)%nat -> (n < iterations)%nat ->
  finishes n (parse_sufijos self_ iterations k expr).
Proof. revert n expr. fn_loop k. Qed.
#[local] Hint Resolve finishes_parse_sufijos : fn.

Lemma finishes_parse_expresion_llamada_o_acceso n :
  (n <= iterations)%nat -> finishes n (parse_expresion_llamada_o_acceso self_ iterations).
Proof. intros Hn. unfold parse_expresion_llamada_o_acceso. fn. Qed.
#[local] Hint Resolve finishes_parse_expresion_llamada_o_acceso : fn.

Lemma finishes_parse_expresion_unaria n :
  (n <= iterations)%nat -> finishes n (parse_expresion_unaria self_ iterations).
Proof. intros Hn. unfold parse_expresion_unaria. fn. Qed.
#[local] Hint Resolve finishes_parse_expresion_unaria : fn.

Lemma finishes_parse_binaria k n ops node operand izq :
  keeps operand -> strict operand ->
  (forall n', (n' <= n)%nat -> finishes n' operand) ->
  (n < k)%nat -> finishes n (parse_binaria k ops node operand izq).
Proof.
  intros Hk Hs. revert n izq.
  induction k as [|k IH]; intros n izq Ho Hn; [lia|]. simpl.
  apply finishes_bind; [kp | fn |]. intros tk.
  destruct (is_operator ops tk); [|fn].
  apply finishes_bind_strict; [kp | st | fn |]. intros op n1 Hn1.
  apply finishes_bind_strict; [kp | st | apply Ho; lia |]. intros d n2 Hn2.
  apply IH; [|lia]. intros n' Hn'. apply Ho. lia.
Qed.

Ltac fn_binaria :=
  intros;
  apply finishes_bind_strict; [kp | st | fn |];
  intros; apply finishes_parse_binaria; [kp | st | intros; fn | lia].

Lemma finishes_parse_expresion_multiplicacion n :
  (n <= iterations)%nat -> finishes n (parse_expresion_multiplicacion self_ iterations).
Proof. unfold parse_expresion_multiplicacion. fn_binaria. Qed.
#[local] Hint Resolve finishes_parse_expresion_multiplicacion : fn.

Lemma finishes_parse_expresion_adicion n :
  (n <= iterations)%nat -> finishes n (parse_expresion_adicion self_ iterations).
Proof. unfold parse_expresion_adicion. fn_binaria. Qed.
#[local] Hint Resolve finishes_parse_expresion_adicion : fn.

Lemma finishes_parse_expresion_comparacion n :
  (n <= iterations)%nat -> finishes n (parse_expresion_comparacion self_ iterations).
Proof. unfold parse_expresion_comparacion. fn_binaria. Qed.
#[local] Hint Resolve finishes_parse_expresion_comparacion : fn.

Lemma finishes_parse_expresion_logica_y n :
  (n <= iterations)%nat -> finishes n (parse_expresion_logica_y self_ iterations).
Proof. unfold parse_expresion_logica_y. fn_binaria. Qed.
#[local] Hint Resolve finishes_parse_expresion_logica_y : fn.

Lemma finishes_parse_expresion_logica_o n :
  (n <= iterations)%nat -> finishes n (parse_expresion_logica_o self_ iterations).
Proof. unfold parse_expresion_logica_o. fn_binaria. Qed.
#[local] Hint Resolve finishes_parse_expresion_logica_o : fn.

Lemma finishes_parse_expresion_asignacion n :
  (n <= iterations)%nat -> finishes n (parse_expresion_asignacion self_ iterations).
Proof. intros Hn. unfold parse_expresion_asignacion. fn. Qed.
#[local] Hint Resolve finishes_parse_expresion_asignacion : fn.

Lemma finishes_parse_expresion n :
  (n <= iterations)%nat -> finishes n (parse_expresion self_ iterations).
Proof. apply finishes_parse_expresion_asignacion. Qed.
#[local] Hint Resolve finishes_parse_expresion : fn.

Lemma finishes_consume_optional_semicolon n : finishes n consume_optional_semicolon.
Proof. unfold consume_optional_semicolon. fn. Qed.

Lemma finishes_parse_tipo_opcional n : finishes n parse_tipo_opcional.
Proof. unfold parse_tipo_opcional. fn. Qed.

#[local] Hint Resolve finishes_consume_optional_semicolon finishes_parse_tipo_opcional : fn.

Lemma finishes_parse_declaracion_variable n a b c :
  (n <= iterations)%nat -> finishes n (parse_declaracion_variable self_ a b c).
Proof.
  intros Hn. unfold parse_declaracion_variable.
  apply finishes_bind_strict; [kp | st | fn |]. intros ? n1 Hn1.
  apply finishes_bind; [kp | fn |]. intros ?.
  destruct (negb (lower_name _)); [fn|].
  apply (finishes_branch_on_parser n1
           (fun self => negb a && variable_declared_in_current_scope _ self)); fn.
Qed.

Lemma finishes_parse_declaracion_constante n a b c :
  (n <= iterations)%nat -> finishes n (parse_declaracion_constante self_ a b c).
Proof.
  intros Hn. unfold parse_declaracion_constante.
  apply finishes_bind_strict; [kp | st | fn |]. intros ? n1 Hn1.
  apply finishes_bind; [kp | fn |]. intros ?.
  destruct (negb (upper_name _)); [fn|].
  apply (finishes_branch_on_parser n1
           (fun self => negb a && variable_declared_in_current_scope _ self)); fn.
Qed.

#[local] Hint Resolve finishes_parse_declaracion_variable
  finishes_parse_declaracion_constante : fn.

Lemma finishes_parse_sentencias k n ss :
  (n < k)%nat -> (n < iterations)%nat -> finishes n (parse_sentencias self_ k ss).
Proof. revert n ss. fn_loop k. Qed.
#[local] Hint Resolve finishes_parse_sentencias : fn.

Lemma finishes_parse_bloque n b :
  (n <= iterations)%nat -> finishes n (parse_bloque self_ iterations b).
Proof. intros Hn. unfold parse_bloque. fn. Qed.
#[local] Hint Resolve finishes_parse_bloque : fn.

Lemma finishes_parse_bloque_o_sentencia n :
  (n < iterations)%nat -> finishes n (parse_bloque_o_sentencia self_ iterations).
Proof. intros Hn. unfold parse_bloque_o_sentencia. fn. Qed.
#[local] Hint Resolve finishes_parse_bloque_o_sentencia : fn.

Lemma finishes_parse_si n :
  (n <= iterations)%nat -> finishes n (parse_si self_ iterations).
Proof. intros Hn. unfold parse_si. fn. Qed.
Lemma finishes_parse_mientras n :
  (n <= iterations)%nat -> finishes n (parse_mientras self_ iterations).
Proof. intros Hn. unfold parse_mientras. fn. Qed.
Lemma finishes_parse_para n :
  (n <= iterations)%nat -> finishes n (parse_para self_ iterations).
Proof. intros Hn. unfold parse_para. fn. Qed.
Lemma finishes_parse_hacer_mientras n :
  (n <= iterations)%nat -> finishes n (parse_hacer_mientras self_ iterations).
Proof. intros Hn. unfold parse_hacer_mientras. fn. Qed.
Lemma finishes_parse_mostrar n :
  (n <= iterations)%nat -> finishes n (parse_mostrar self_ iterations).
Proof. intros Hn. unfold parse_mostrar. fn. Qed.
Lemma finishes_parse_retorna n :
  (n <= iterations)%nat -> finishes n (parse_retorna self_ iterations).
Proof. intros Hn. unfold parse_retorna. fn. Qed.
Lemma finishes_parse_break n : finishes n parse_break.
Proof. unfold parse_break. fn. Qed.
Lemma finishes_parse_continua n : finishes n parse_continua.
Proof. unfold parse_continua. fn. Qed.
Lemma finishes_parse_try_catch n :
  (n <= iterations)%nat -> finishes n (parse_try_catch self_ iterations).
Proof. intros Hn. unfold parse_try_catch. fn. Qed.
Lemma finishes_parse_importa n : finishes n parse_importa.
Proof. unfold parse_importa. fn. Qed.

#[local] Hint Resolve finishes_parse_si finishes_parse_mientras finishes_parse_para
  finishes_parse_hacer_mientras finishes_parse_mostrar finishes_parse_retorna
  finishes_parse_break finishes_parse_continua finishes_parse_try_catch
  finishes_parse_importa : fn.

Lemma finishes_parse_sentencia n :
  (n <= iterations)%nat -> finishes n (parse_sentencia self_ iterations).
Proof. intros Hn. unfold parse_sentencia. fn. Qed.
#[local] Hint Resolve finishes_parse_sentencia : fn.

Lemma finishes_parse_parametros k n m ps :
  (n < k)%nat -> finishes n (parse_parametros k m ps).
Proof. revert n ps. fn_loop k. Qed.
#[local] Hint Resolve finishes_parse_parametros : fn.

Lemma finishes_parse_funcion n :
  (n <= iterations)%nat -> finishes n (parse_funcion self_ iterations).
Proof. intros Hn. unfold parse_funcion. fn. Qed.

Lemma finishes_parse_metodo_clase n a b :
  (n <= iterations)%nat -> finishes n (parse_metodo_clase self_ iterations a b).
Proof. intros Hn. unfold parse_metodo_clase. fn. Qed.

Lemma finishes_parse_modificadores k n a b :
  (n < k)%nat -> finishes n (parse_modificadores k a b).
Proof. revert n a b. fn_loop k. Qed.

#[local] Hint Resolve finishes_parse_funcion finishes_parse_metodo_clase
  finishes_parse_modificadores : fn.

Lemma finishes_parse_miembros k n ms :
  (n < k)%nat -> (n < iterations)%nat ->
  finishes n (parse_miembros self_ iterations k ms).
Proof. revert n ms. fn_loop k. Qed.
#[local] Hint Resolve finishes_parse_miembros : fn.

Lemma finishes_parse_clase n :
  (n <= iterations)%nat -> finishes n (parse_clase self_ iterations).
Proof. intros Hn. unfold parse_clase. fn. Qed.
#[local] Hint Resolve finishes_parse_clase : fn.

Lemma finishes_parse_declaracion n :
  (n <= iterations)%nat -> finishes n (parse_declaracion self_ iterations).
Proof. intros Hn. unfold parse_declaracion. fn. Qed.
#[local] Hint Resolve finishes_parse_declaracion : fn.

Lemma finishes_parse_entry n e :
  (n <= iterations)%nat -> finishes n (parse_entry self_ iterations e).
Proof. intros Hn. destruct e; simpl; fn. Qed.

End ParserInvariant.

Section ParserTheorems.
Import ZiskParser.

Lemma keeps_parse_rec fuel e : keeps (parse_rec fuel e).
Proof.
  revert e. induction fuel as [|fuel IH]; intros e; [by intros p|].
  apply keeps_parse_entry. exact IH.
Qed.

Lemma strict_parse_rec fuel e : strict (parse_rec fuel e).
Proof.
  destruct fuel as [|fuel]; [by intros p|].
  apply strict_parse_entry, keeps_parse_rec.
Qed.

Lemma finishes_parse_rec fuel e n : (n < fuel)%nat -> finishes n (parse_rec fuel e).
Proof.
  revert e n. induction fuel as [|fuel IH]; intros e n Hn; [lia|].
  apply finishes_parse_entry;
    [apply keeps_parse_rec | apply strict_parse_rec | exact (fun e n => IH e n) | lia].
Qed.

Lemma parse_programa_spec fuel k ds p :
  match parse_programa fuel k ds p with
  | Ok a p' => advances p p' /\ (exists ds', a = PROGRAMA ds') /\ current_token p' = None
  | Error _ p' | HostError _ p' => advances p p'
  | OutOfFuel => True
  end.
Proof.
  revert ds p. induction k as [|k IH]; intros ds p; [done|].
  simpl. unfold bind, peek.
  destruct (current_token p) eqn:E.
  - pose proof (keeps_parse_rec fuel parse_declaracion_ p) as Hd.
    destruct (parse_rec fuel parse_declaracion_ p) as [d p1|e p1|e p1|]; try done.
    specialize (IH (ds ++ [d])%list p1).
    destruct (parse_programa fuel k (ds ++ [d])%list p1) as [a p'|e p'|e p'|]; try done.
    + destruct IH as (IH1 & IH2 & IH3). split; [by eapply advances_trans | done].
    + by eapply advances_trans.
    + by eapply advances_trans.
  - simpl. split; [apply advances_refl|]. split; [by eexists | done].
Qed.

Lemma finishes_parse_programa fuel k n ds :
  (n < k)%nat -> (n < fuel)%nat -> finishes n (parse_programa fuel k ds).
Proof.
  revert n ds. induction k as [|k IH]; intros n ds Hk Hf; [lia|].
  simpl. apply finishes_bind; [apply keeps_peek | apply finishes_peek |].
  intros [tk|]; [|apply finishes_ret].
  apply finishes_bind_strict;
    [apply keeps_parse_rec | apply strict_parse_rec | by apply finishes_parse_rec |].
  intros d n' Hn'. apply IH; lia.
Qed.

(** X12: a parse that succeeds has read every token: it returns a
    [PROGRAMA] node and leaves the index at the end of the token list. A
    parse that fails stops inside the list; no method of the parser
    changes the token list or moves the index back. *)
Theorem parse_consumes_every_token fuel toks self :
  match parse fuel toks self with
  | Ok a self' =>
      (exists declaraciones, a = PROGRAMA declaraciones)
      /\ tokens self' = toks /\ token_index self' = length toks
  | Error _ self' | HostError _ self' =>
      tokens self' = toks /\ (token_index self' <= length toks)%nat
  | OutOfFuel => True
  end.
Proof.
  unfold parse.
  set (p := {| tokens := toks; token_index := 0; scopes := scopes self;
               current_class := current_class self |}).
  pose proof (parse_programa_spec fuel fuel [] p) as H.
  destruct (parse_programa fuel fuel [] p) as [a p'|e p'|e p'|]; try done.
  - destruct H as ([H1 H2 H3 _] & Ha & Hc). simpl in *.
    split; [done|]. split; [done|].
    unfold current_token in Hc. apply lookup_ge_None in Hc. rewrite H1 in Hc.
    specialize (H3 ltac:(lia)). lia.
  - destruct H as [H1 H2 H3 _]. simpl in *. split; [done | apply H3; lia].
  - destruct H as [H1 H2 H3 _]. simpl in *. split; [done | apply H3; lia].
Qed.

(** X13: the parser terminates on every token list. Each declaration that
    is parsed consumes at least one token and every nested call of the
    grammar comes after one, so with more rounds than there are tokens
    [parse] returns a program or raises. *)
Theorem parse_terminates fuel toks self :
  (length toks < fuel)%nat ->
  exists self',
    (exists a, parse fuel toks self = Ok a self')
    \/ (exists e, parse fuel toks self = Error e self')
    \/ (exists e, parse fuel toks self = HostError e self').
Proof.
  intros Hf. unfold parse.
  set (p := {| tokens := toks; token_index := 0; scopes := scopes self;
               current_class := current_class self |}).
  pose proof (finishes_parse_programa fuel fuel (length toks) [] Hf Hf p) as H.
  simpl in H. specialize (H ltac:(lia) ltac:(lia)).
  destruct (parse_programa fuel fuel [] p) as [a p'|e p'|e p'|]; [..|done];
    exists p'; eauto.
Qed.

Lemma parse_terminates_witness :
  exists self',
    (exists a, parse 11 tokens_redeclaracion init = Ok a self')
    \/ (exists e, parse 11 tokens_redeclaracion init = Error e self')
    \/ (exists e, parse 11 tokens_redeclaracion init = HostError e self').
Proof. apply parse_terminates. simpl. lia. Defined.

End ParserTheorems.

(** ** The engine as a whole *)

Section EngineProperties.
Import ZiskOptimizer.

Lemma same_kind_refl o : same_kind o o.
Proof. by destruct o. Qed.

Lemma same_kind_trans o1 o2 o3 : same_kind o1 o2 -> same_kind o2 o3 -> same_kind o1 o3.
Proof. by destruct o1, o2, o3. Qed.

Lemma check_type_hierarchy ts ts' v ty :
  class_hierarchy ts' = class_hierarchy ts -> check_type ts' v ty = check_type ts v ty.
Proof. intros H. unfold check_type, in_hierarchy. by rewrite H. Qed.

Lemma well_typed_intro s s' :
  class_hierarchy (type_system s') = class_hierarchy (type_system s) ->
  (well_typed s ->
   Forall (map_Forall (fun (_ : string) b => ok_binding (type_system s) b)) (scopes s')) ->
  well_typed s -> well_typed s'.
Proof.
  intros Hh Hsc Hw. split.
  - destruct Hw as [Hn _]. unfold in_hierarchy in *. by rewrite Hh.
  - eapply Forall_impl; [by apply Hsc|]. intros frame Hf.
    eapply map_Forall_impl; [exact Hf|]. intros _ b [H|[H|H]].
    + by left.
    + right. by left.
    + right. right. by rewrite (check_type_hierarchy _ _ _ _ Hh).
Qed.

Lemma class_hierarchy_add_variable_annotation ts name ty :
  class_hierarchy (add_variable_annotation ts name ty) = class_hierarchy ts.
Proof.
  unfold add_variable_annotation. destruct ty as [ty|]; [|done].
  by destruct (negb (String.eqb ty "")).
Qed.

Ltac ext_trivial :=
  simpl in *;
  first
    [ done | lia
    | by apply prefix_app_r
    | by (let o := fresh "o" in
          intros ? o ?; exists o; split; [done | apply same_kind_refl]) ].

Lemma extends_refl s : extends s s.
Proof. split; ext_trivial. Qed.

Lemma extends_trans s1 s2 s3 : extends s1 s2 -> extends s2 s3 -> extends s1 s3.
Proof.
  intros [A0 A1 A2 A3 A4 A5 A6] [B0 B1 B2 B3 B4 B5 B6]. split.
  - auto.
  - congruence.
  - lia.
  - lia.
  - by etrans.
  - auto.
  - intros l o H. destruct (A6 l o H) as (o' & H' & K).
    destruct (B6 l o' H') as (o'' & H'' & K').
    exists o''. split; [done | by eapply same_kind_trans].
Qed.

Section Preserves.

Lemma preserves_ret {A} (a : A) : preserves (ret a).
Proof. intros s. apply extends_refl. Qed.

Lemma preserves_raise {A} e : preserves (@raise A e).
Proof. intros s. apply extends_refl. Qed.

Lemma preserves_unmodelled {A} : preserves (@unmodelled A).
Proof. by intros s. Qed.

Lemma preserves_out_of_fuel {A} : preserves (fun _ => @OutOfFuel A).
Proof. by intros s. Qed.

Lemma preserves_raise_zisk {A} c msg lin col : preserves (@raise_zisk A c msg lin col).
Proof. apply preserves_raise. Qed.

Lemma preserves_raise_python {A} p : preserves (@raise_python A p).
Proof. apply preserves_raise. Qed.

Lemma preserves_lift_host {A} (h : host A) : preserves (lift_host h).
Proof. destruct h; [apply preserves_ret | apply preserves_raise]. Qed.

Lemma preserves_bind {A B} (m : M A) (k : A -> M B) :
  preserves m -> (forall a, preserves (k a)) -> preserves (bind m k).
Proof.
  intros Hm Hk s. unfold bind. specialize (Hm s).
  destruct (m s) as [a s'|e s'| |]; try done.
  specialize (Hk a s'). destruct (k a s'); try done; by eapply extends_trans.
Qed.

Lemma preserves_get_state : preserves get_state.
Proof. intros s. apply extends_refl. Qed.

Lemma preserves_is_true v : preserves (is_true v).
Proof. intros s. unfold is_true. destruct (truthy (heap s) v); [apply extends_refl | done]. Qed.

Lemma preserves_read_list l : preserves (read_list l).
Proof.
  intros s. unfold read_list. destruct (heap s !! l) as [[]|]; try done. apply extends_refl.
Qed.

Lemma preserves_read_dict l : preserves (read_dict l).
Proof.
  intros s. unfold read_dict. destruct (heap s !! l) as [[]|]; try done. apply extends_refl.
Qed.

Lemma extends_set_heap s h :
  (forall (l : loc) o, heap s !! l = Some o -> exists o', h !! l = Some o' /\ same_kind o o') ->
  extends s (set_heap h s).
Proof. intros H. split; ext_trivial. Qed.

Lemma preserves_alloc o : preserves (alloc o).
Proof.
  intros s. unfold alloc. apply extends_set_heap. intros l o' H.
  exists o'. split; [|apply same_kind_refl]. by apply lookup_app_l_Some.
Qed.

Lemma extends_store s (l : loc) o o' :
  heap s !! l = Some o -> same_kind o o' ->
  extends s (set_heap (<[l := o']> (heap s)) s).
Proof.
  intros Hl Hk. apply extends_set_heap. intros l' o'' H.
  destruct (decide (l' = l)) as [->|Hne].
  - exists o'. split; [|congruence].
    apply list_lookup_insert_eq. by eapply lookup_lt_Some.
  - exists o''. split; [|apply same_kind_refl]. by rewrite list_lookup_insert_ne.
Qed.

Lemma preserves_modify_print args : preserves (modify (print args)).
Proof. intros s. simpl. split; ext_trivial. Qed.

Lemma extends_set_scopes s sc :
  (length (scopes s) <= length sc)%nat ->
  (well_typed s ->
   Forall (map_Forall (fun (_ : string) b => ok_binding (type_system s) b)) sc) ->
  extends s (set_scopes sc s).
Proof.
  intros H Hsc. split; try ext_trivial.
  by apply well_typed_intro.
Qed.

Lemma extends_add_variable_annotation s name ty :
  extends s (set_type_system (add_variable_annotation (type_system s) name ty) s).
Proof.
  split; try ext_trivial.
  apply well_typed_intro; [apply class_hierarchy_add_variable_annotation|].
  by intros [_ H].
Qed.

(** The binding that a declaration or an assignment writes. *)
Lemma ok_binding_written ts ctx v const original lin col :
  in_hierarchy ts "nulo" = false ->
  (if negb (String.eqb original "") then
     validate_assignment ts ctx v (Some original) lin col false
   else None) = None ->
  ok_binding ts (MkBinding v const
                   (if negb (String.eqb original "") then original else infer_type ts v)).
Proof.
  intros Hn Hv. unfold ok_binding. simpl.
  destruct (negb (String.eqb original "")).
  - apply validate_assignment_accepts in Hv as [->|Hv]; [by left | by right; right].
  - destruct (infer_type_passes_check ts v Hn) as [H|H]; [right; by left | right; by right].
Qed.

Lemma preserves_declare name v ty const lin col :
  preserves (_declare_variable name v ty const lin col).
Proof.
  intros s. unfold _declare_variable.
  destruct (scopes s) as [|scope rest] eqn:Hsc; [apply extends_refl|].
  destruct (match scope !! name with Some b => is_const b | None => false end);
    [apply extends_refl|].
  destruct (bool_decide _ && const); [apply extends_refl|].
  destruct (if opt_truthy ty then _ else None) eqn:Hv; [apply extends_refl|].
  assert (extends s (set_scopes (<[name := MkBinding v const
            (if opt_truthy ty then default "" ty else infer_type (type_system s) v)]> scope
            :: rest) s)) as H.
  { apply extends_set_scopes; [rewrite Hsc; simpl; lia|].
    intros [Hn Hw]. rewrite Hsc in Hw. apply Forall_cons in Hw as [Hw1 Hw2].
    constructor; [|done]. apply map_Forall_insert_2; [|done].
    destruct ty as [ty|]; simpl in *.
    - by apply (ok_binding_written _ name v const ty lin col).
    - by apply (ok_binding_written _ name v const "" lin col). }
  destruct (opt_truthy ty); [|done].
  eapply extends_trans; [exact H|].
  apply (extends_add_variable_annotation (set_scopes _ s)).
Qed.


Lemma preserves_from {A} (m : M A) s0 s :
  preserves m -> extends s0 s ->
  match m s with Val _ s' | Exc _ s' => extends s0 s' | _ => True end.
Proof.
  intros Hm H. specialize (Hm s). destruct (m s); try done; by eapply extends_trans.
Qed.

Lemma try_finally_from {A} (body : M A) cleanup s0 s :
  preserves body ->
  (forall s', extends s s' -> extends s0 (cleanup s')) ->
  match try_finally body cleanup s with
  | Val _ s' | Exc _ s' => extends s0 s'
  | _ => True
  end.
Proof.
  intros Hb Hc. unfold try_finally. specialize (Hb s).
  destruct (body s); try done; by apply Hc.
Qed.

Lemma extends_enter_scope s : extends s (enter_scope s).
Proof.
  apply extends_set_scopes; [simpl; lia|].
  intros [_ Hw]. constructor; [apply map_Forall_empty | done].
Qed.

Lemma extends_add_in_function s d : 0 <= d -> extends s (add_in_function d s).
Proof. intros Hd. split; ext_trivial. Qed.

Lemma well_typed_exit_scope s : well_typed s -> well_typed (exit_scope s).
Proof.
  intros [Hn Hw]. unfold exit_scope.
  destruct (scopes s) as [|f [|g rest]] eqn:E; try (split; [done | by rewrite E]).
  split; [done|]. simpl. by apply Forall_cons in Hw as [_ Hw].
Qed.

Lemma extends_exit_scope s0 s' :
  extends s0 s' -> (length (scopes s0) < length (scopes s'))%nat ->
  extends s0 (exit_scope s').
Proof.
  intros [A0 A1 A2 A3 A4 A5 A6] Hlen. split.
  - intros Hw. by apply well_typed_exit_scope, A0.
  - unfold exit_scope. by destruct (scopes s') as [|f [|g rest]].
  - unfold exit_scope. by destruct (scopes s') as [|f [|g rest]].
  - unfold exit_scope.
    destruct (scopes s') as [|f [|g rest]] eqn:E; simpl in *; rewrite ?E; simpl; lia.
  - unfold exit_scope. by destruct (scopes s') as [|f [|g rest]].
  - unfold exit_scope. by destruct (scopes s') as [|f [|g rest]].
  - unfold exit_scope. by destruct (scopes s') as [|f [|g rest]].
Qed.

Lemma extends_after_enter s s' :
  extends (enter_scope s) s' -> extends s (exit_scope s').
Proof.
  intros H. apply extends_exit_scope.
  - eapply extends_trans; [apply extends_enter_scope | done].
  - destruct H as [_ _ _ H _ _ _]. simpl in H. lia.
Qed.

Lemma extends_after_loop s s' :
  extends (add_in_loop 1 s) s' -> extends s (add_in_loop (-1) s').
Proof. intros [A0 A1 A2 A3 A4 A5 A6]. split; ext_trivial. Qed.

Lemma extends_after_para s s' :
  extends (add_in_loop 1 (enter_scope s)) s' ->
  extends s (exit_scope (add_in_loop (-1) s')).
Proof.
  intros H.
  assert (extends (enter_scope s) (add_in_loop (-1) s')) as H'.
  { destruct H as [A0 A1 A2 A3 A4 A5 A6]. split; ext_trivial. }
  by apply extends_after_enter in H'.
Qed.

Lemma extends_after_call s s' :
  extends (add_in_function 1 (enter_scope s)) s' ->
  extends s (exit_scope (add_in_function (-1) s')).
Proof.
  intros H.
  assert (extends (enter_scope s) (add_in_function (-1) s')) as H'.
  { destruct H as [A0 A1 A2 A3 A4 A5 A6]. split; ext_trivial. }
  by apply extends_after_enter in H'.
Qed.

Lemma preserves_catch_return m : preserves m -> preserves (catch_return m).
Proof.
  intros H s. unfold catch_return. specialize (H s).
  by destruct (m s) as [? ?|[] ?| |].
Qed.

Lemma preserves_wrap_call_type_error m : preserves m -> preserves (wrap_call_type_error m).
Proof.
  intros H s. unfold wrap_call_type_error. specialize (H s).
  by destruct (m s) as [? ?|[| | | |[[]| | | |]] ?| |].
Qed.

Lemma preserves_type_error_to_zisk op m : preserves m -> preserves (type_error_to_zisk op m).
Proof.
  intros H s. unfold type_error_to_zisk. specialize (H s).
  by destruct (m s) as [? ?|[| | | |[]] ?| |].
Qed.

Lemma preserves_catch_break r m : preserves m -> preserves (catch_break r m).
Proof.
  intros H s. unfold catch_break. specialize (H s).
  by destruct (m s) as [? ?|[] ?| |].
Qed.

Lemma preserves_py_arith op a b : preserves (py_arith op a b).
Proof.
  unfold py_arith.
  repeat first
    [ apply preserves_ret | apply preserves_raise_python | apply preserves_unmodelled
    | apply preserves_lift_host | apply preserves_read_list | apply preserves_alloc
    | apply preserves_bind; [|intros ?]
    | match goal with
      | |- preserves (match ?x with _ => _ end) => destruct x
      | |- preserves (if ?x then _ else _) => destruct x
      end ].
Qed.

Lemma preserves_py_order test a b : preserves (py_order test a b).
Proof.
  unfold py_order.
  repeat first
    [ apply preserves_ret | apply preserves_raise_python | apply preserves_unmodelled
    | match goal with
      | |- preserves (match ?x with _ => _ end) => destruct x
      end ].
Qed.

Create HintDb pres.
#[local] Hint Resolve preserves_ret preserves_raise preserves_unmodelled
  preserves_raise_zisk preserves_raise_python preserves_lift_host preserves_get_state
  preserves_is_true preserves_read_list preserves_read_dict preserves_alloc
  preserves_modify_print preserves_declare preserves_py_arith preserves_py_order
  preserves_out_of_fuel : pres.

Ltac pres :=
  repeat first
    [ solve [auto with pres]
    | apply preserves_bind; [|intros ?]
    | apply preserves_catch_return
    | apply preserves_wrap_call_type_error
    | apply preserves_type_error_to_zisk
    | apply preserves_catch_break
    | match goal with
      | |- preserves (match ?x with _ => _ end) => destruct x
      | |- preserves (if ?x then _ else _) => destruct x
      end ].

Variable exec : ast -> M value.
Variable iterations : nat.
Hypothesis Hexec : forall n, preserves (exec n).

#[local] Hint Resolve Hexec : pres.

Lemma preserves_execute_statements stmts r : preserves (execute_statements exec stmts r).
Proof. revert r. induction stmts as [|x stmts IH]; intros r; simpl; pres. Qed.

Lemma preserves_execute_all nodes : preserves (execute_all exec nodes).
Proof. induction nodes as [|x nodes IH]; simpl; pres. Qed.

Lemma preserves_bind_params params args : preserves (bind_params params args).
Proof.
  revert args. induction params as [|[n t] params IH]; intros [|a args]; simpl; pres.
Qed.

#[local] Hint Resolve preserves_execute_statements preserves_execute_all
  preserves_bind_params : pres.

Lemma preserves_modify_enter_scope : preserves (modify enter_scope).
Proof. intros s. apply extends_enter_scope. Qed.

Lemma preserves_zisk_function_wrapper f args : preserves (zisk_function_wrapper exec f args).
Proof.
  intros s. unfold zisk_function_wrapper.
  unfold bind at 1 2. unfold modify at 1 2.
  set (s1 := add_in_function 1 (enter_scope s)).
  assert (extends s s1) as H1.
  { eapply extends_trans; [apply extends_enter_scope|]. by apply extends_add_in_function. }
  destruct (negb _); [exact H1|].
  unfold bind at 1.
  pose proof (preserves_bind_params (_zisk_params f) args s1) as Hp.
  destruct (bind_params (_zisk_params f) args s1) as [[] s2|e s2| |]; try done.
  2:{ by eapply extends_trans. }
  unfold bind at 1.
  pose proof (try_finally_from (catch_return (exec (body_node f)))
                (fun s => exit_scope (add_in_function (-1) s)) s s2) as Hb.
  destruct (try_finally _ _ s2) as [rv s3|e s3| |]; try done.
  - assert (extends s s3) as H3.
    { apply Hb; [pres|]. intros s' Hs'. apply extends_after_call.
      by eapply extends_trans. }
    apply preserves_from; [|done]. pres.
  - apply Hb; [pres|]. intros s' Hs'. apply extends_after_call.
    by eapply extends_trans.
Qed.

#[local] Hint Resolve preserves_zisk_function_wrapper : pres.

Lemma preserves_call_value callee args : preserves (call_value exec callee args).
Proof.
  unfold call_value, call_native, call_one_argument, _native_longitud. pres.
Qed.

Lemma preserves_validate_call name callee args : preserves (validate_call name callee args).
Proof. unfold validate_call. pres. Qed.

Lemma preserves_validate_return name callee r : preserves (validate_return name callee r).
Proof. unfold validate_return. pres. Qed.

#[local] Hint Resolve preserves_call_value preserves_validate_call
  preserves_validate_return : pres.

Lemma preserves_execute_llamada callee args : preserves (execute_llamada exec callee args).
Proof. unfold execute_llamada. pres. Qed.

Lemma preserves_execute_llamada_nativa name args :
  preserves (execute_llamada_nativa exec name args).
Proof. unfold execute_llamada_nativa. pres. Qed.

Lemma preserves_get_lvalue_location lhs : preserves (_get_lvalue_location exec lhs).
Proof. unfold _get_lvalue_location. pres. Qed.

Lemma preserves_read_current op target : preserves (read_current op target).
Proof. unfold read_current. pres. Qed.

Lemma preserves_compound_value op cur rhs : preserves (compound_value op cur rhs).
Proof. unfold compound_value. pres. Qed.

Lemma preserves_write_identifier i name final : preserves (write_identifier i name final).
Proof.
  intros s. unfold write_identifier, bind, get_state.
  destruct final as [v|[]].
  2:{ pose proof (extends_refl s).
      by destruct (negb _ && negb _). }
  destruct (if negb _ then _ else None) eqn:Hv; [apply extends_refl|].
  simpl. apply extends_set_scopes; [by rewrite length_alter|].
  intros [Hn Hw]. apply Forall_alter; [done|].
  intros frame _ Hf. apply map_Forall_insert_2; [|done].
  by eapply ok_binding_written.
Qed.

Lemma preserves_store_list (l : loc) (k : list value -> list value + unit) :
  preserves (bind (read_list l) (fun xs =>
             match k xs with
             | inl ys => store l (HList ys)
             | inr _ => raise_zisk ZiskRuntimeError
                          "Índice fuera de rango para asignación a lista." 0 0
             end)).
Proof.
  intros s. unfold bind, read_list.
  destruct (heap s !! l) as [[xs|]|] eqn:E; try done.
  destruct (k xs); [|apply extends_refl].
  simpl. by eapply extends_store.
Qed.

Lemma preserves_write_list_element l idx op v : preserves (write_list_element l idx op v).
Proof.
  unfold write_list_element. apply preserves_bind; [pres|]. intros i.
  pose proof (preserves_store_list l (fun xs =>
    if (0 <=? i)%Z && (i <? Z.of_nat (length xs))%Z then inl (<[Z.to_nat i := v]> xs)
    else if (i =? Z.of_nat (length xs))%Z && String.eqb op "=" then inl (xs ++ [v])%list
    else inr tt)) as H.
  intros s. specialize (H s). unfold bind in *.
  destruct (read_list l s) as [xs s'| | |]; try done.
  destruct ((0 <=? i)%Z && (i <? Z.of_nat (length xs))%Z); [done|].
  by destruct ((i =? Z.of_nat (length xs))%Z && String.eqb op "=").
Qed.

Lemma preserves_store_dict (l : loc) (k : gmap string value -> gmap string value) :
  preserves (bind (read_dict l) (fun d => store l (HDict (k d)))).
Proof.
  intros s. unfold bind, read_dict.
  destruct (heap s !! l) as [[|d]|] eqn:E; try done.
  simpl. by eapply extends_store.
Qed.

#[local] Hint Resolve preserves_get_lvalue_location preserves_read_current
  preserves_compound_value preserves_write_identifier preserves_write_list_element : pres.

Lemma preserves_execute_asignacion op lhs rhs : preserves (execute_asignacion exec op lhs rhs).
Proof.
  unfold execute_asignacion.
  apply preserves_bind; [pres|]. intros rv.
  apply preserves_bind; [pres|]. intros target.
  apply preserves_bind; [pres|]. intros final.
  apply preserves_bind; [|intros ?; pres].
  destruct target; [pres|..|pres].
  - destruct final; [|pres].
    apply (preserves_store_dict l (fun d => <[key := v]> d)).
  - destruct final; pres.
Qed.

Lemma preserves_apply_operator op a b : preserves (apply_operator op a b).
Proof. unfold apply_operator. pres. Qed.

#[local] Hint Resolve preserves_apply_operator : pres.

Lemma preserves_execute_operacion kind op lhs rhs :
  preserves (execute_operacion exec kind op lhs rhs).
Proof. unfold execute_operacion. pres. Qed.

Lemma preserves_execute_unaria op operand : preserves (execute_unaria exec op operand).
Proof. unfold execute_unaria. pres. Qed.

Lemma preserves_execute_acceso_miembro obj m : preserves (execute_acceso_miembro exec obj m).
Proof. unfold execute_acceso_miembro. pres. Qed.

Lemma preserves_execute_acceso_indice c i : preserves (execute_acceso_indice exec c i).
Proof. unfold execute_acceso_indice. pres. Qed.

Lemma preserves_execute_properties props d : preserves (execute_properties exec props d).
Proof. revert d. induction props as [|[k v] props IH]; intros d; simpl; pres. Qed.

Lemma preserves_run_body cuerpo : preserves (run_body exec cuerpo).
Proof.
  intros s. unfold run_body. pose proof (Hexec cuerpo s) as H.
  by destruct (exec cuerpo s) as [? ?|[] ?| |].
Qed.

Lemma preserves_execute_optional node : preserves (execute_optional exec node).
Proof. unfold execute_optional. pres. Qed.

#[local] Hint Resolve preserves_run_body preserves_execute_optional : pres.

Lemma preserves_mientras_loop k c b r : preserves (mientras_loop exec k c b r).
Proof. revert r. induction k as [|k IH]; intros r; simpl; pres. Qed.

Lemma preserves_para_loop k c u b r : preserves (para_loop exec k c u b r).
Proof. revert r. induction k as [|k IH]; intros r; simpl; pres. Qed.

Lemma preserves_hacer_mientras_loop k b c r : preserves (hacer_mientras_loop exec k b c r).
Proof. revert r. induction k as [|k IH]; intros r; simpl; pres. Qed.

#[local] Hint Resolve preserves_mientras_loop preserves_para_loop
  preserves_hacer_mientras_loop : pres.

Lemma preserves_execute_mientras c b : preserves (execute_mientras exec iterations c b).
Proof.
  intros s. unfold execute_mientras, bind, modify.
  apply try_finally_from; [pres|]. apply extends_after_loop.
Qed.

Lemma preserves_execute_hacer_mientras b c :
  preserves (execute_hacer_mientras exec iterations b c).
Proof.
  intros s. unfold execute_hacer_mientras, bind, modify.
  apply try_finally_from; [pres|]. apply extends_after_loop.
Qed.

Lemma preserves_execute_para i c u b : preserves (execute_para exec iterations i c u b).
Proof.
  intros s. unfold execute_para. unfold bind at 1 2. unfold modify.
  apply try_finally_from; [pres|]. apply extends_after_para.
Qed.

Lemma preserves_run_catch name err catch_b : preserves (run_catch exec name err catch_b).
Proof.
  intros s. unfold run_catch. unfold bind at 1. unfold modify.
  unfold bind.
  pose proof (preserves_declare name (VError err) (Some "objeto") false 0 0 (enter_scope s))
    as Hd.
  destruct (_declare_variable _ _ _ _ _ _ (enter_scope s)) as [[] s2|e s2| |]; try done.
  - apply try_finally_from; [pres|]. intros s' Hs'. apply extends_after_enter.
    by eapply extends_trans.
  - eapply extends_trans; [apply extends_enter_scope | done].
Qed.

#[local] Hint Resolve preserves_run_catch : pres.

Lemma preserves_try_except t name c : preserves (try_except exec t name c).
Proof.
  intros s. unfold try_except. pose proof (Hexec t s) as H.
  destruct (exec t s) as [? ?|[ze| | | |p] s'| |]; try done.
  - destruct (_ && _); [|done]. apply preserves_from; [pres | done].
  - destruct (_ && _); [|done]. apply preserves_from; [pres | done].
Qed.

Lemma preserves_with_finally m f : preserves m -> preserves (with_finally exec m f).
Proof.
  intros Hm s. unfold with_finally. specialize (Hm s).
  destruct (m s) as [r s'|e s'| |]; try done.
  - destruct (node_truthy f); [|done]. apply preserves_from; [pres | done].
  - destruct (node_truthy f); [|done]. apply preserves_from; [pres | done].
Qed.

Lemma preserves_execute_try_catch t name c f : preserves (execute_try_catch exec t name c f).
Proof. unfold execute_try_catch. apply preserves_with_finally, preserves_try_except. Qed.

Lemma preserves_get_variable_value name lin col : preserves (_get_variable_value name lin col).
Proof.
  intros s. unfold _get_variable_value.
  destruct (find_scope name (scopes s) 0) as [[? ?]|]; [apply extends_refl|].
  destruct (functions s !! name); apply extends_refl.
Qed.

Lemma preserves_define_function name f :
  preserves (modify (fun s =>
    set_type_system
      (add_variable_annotation (type_system s) name (Some "funcion"))
      (set_functions (<[name := f]> (functions s)) s))).
Proof.
  intros s. unfold modify.
  eapply extends_trans;
    [|apply (extends_add_variable_annotation
               (set_functions (<[name := f]> (functions s)) s) name (Some "funcion"))].
  split; try ext_trivial.
  intros n [v Hv]. simpl. destruct (decide (n = name)) as [->|Hne].
  - rewrite lookup_insert_eq. by eexists.
  - rewrite lookup_insert_ne by done. by eexists.
Qed.

Lemma preserves_execute_node n : preserves (execute_node exec iterations n).
Proof.
  destruct n; cbn [execute_node];
    try (by pres);
    first
      [ apply preserves_execute_mientras | apply preserves_execute_para
      | apply preserves_execute_hacer_mientras | apply preserves_execute_try_catch
      | apply preserves_execute_asignacion | apply preserves_execute_operacion
      | apply preserves_execute_unaria | apply preserves_execute_llamada
      | apply preserves_execute_llamada_nativa | apply preserves_execute_acceso_miembro
      | apply preserves_execute_acceso_indice | apply preserves_get_variable_value
      | idtac ].
  - (* BLOQUE *)
    intros s. unfold bind, modify.
    apply try_finally_from; [pres|]. apply extends_after_enter.
  - (* FUNCION *)
    apply preserves_bind; [apply preserves_define_function | intros; pres].
  - (* OBJETO_LITERAL *)
    apply preserves_bind; [apply preserves_execute_properties | intros; pres].
Qed.

End Preserves.

Lemma preserves_execute fuel n : preserves (execute fuel n).
Proof.
  revert n. induction fuel as [|fuel IH]; intros n; [by intros s|].
  apply preserves_execute_node. exact IH.
Qed.

(** X14: however a node ends, by a value or by an exception, the loop
    counter [is_in_loop] is what it was before: every loop undoes its
    increment in a [finally] block. So [break] and [continua] outside a
    loop stay rejected, whatever ran before. *)
Theorem execute_restores_loop_depth fuel n s :
  match execute fuel n s with
  | Val _ s' | Exc _ s' => is_in_loop s' = is_in_loop s
  | _ => True
  end.
Proof.
  pose proof (preserves_execute fuel n s) as H.
  destruct (execute fuel n s); try done; apply H.
Qed.

(** X15: no node pops a scope frame that it did not push, nor lowers the
    function counter below its value at the start: the scope stack is at
    least as deep, and [is_in_function] at least as large, when the node
    ends, by a value or by an exception. *)
Theorem execute_keeps_frames fuel n s :
  match execute fuel n s with
  | Val _ s' | Exc _ s' =>
      (length (scopes s) <= length (scopes s'))%nat
      /\ is_in_function s <= is_in_function s'
  | _ => True
  end.
Proof.
  pose proof (preserves_execute fuel n s) as H.
  destruct (execute fuel n s); try done; split; apply H.
Qed.

(** X16: nothing is deleted by executing a node: a function that is
    defined stays defined, a list or dictionary that is allocated stays a
    list or a dictionary, and the output already written stays in front of
    what is written next. *)
Theorem execute_never_forgets fuel n s :
  match execute fuel n s with
  | Val _ s' | Exc _ s' =>
      (forall name, is_Some (functions s !! name) -> is_Some (functions s' !! name))
      /\ (forall (l : loc) o, heap s !! l = Some o ->
            exists o', heap s' !! l = Some o' /\ same_kind o o')
      /\ salida s `prefix_of` salida s'
  | _ => True
  end.
Proof.
  pose proof (preserves_execute fuel n s) as H.
  destruct (execute fuel n s); try done; (split; [|split]); apply H.
Qed.



(** X18: a name that has just been declared reads back as the declared
    value, and the declaration changes what no other name reads. *)
Theorem declare_then_get name v tipo const lin col s s' :
  _declare_variable name v tipo const lin col s = Val tt s' ->
  (forall lin' col', _get_variable_value name lin' col' s' = Val v s')
  /\ (forall other lin' col', other <> name ->
        _get_variable_value other lin' col' s'
        = match _get_variable_value other lin' col' s with
          | Val x _ => Val x s'
          | Exc e _ => Exc e s'
          | o => o
          end).
Proof.
  unfold _declare_variable.
  destruct (scopes s) as [|scope rest] eqn:Hsc; [done|].
  destruct (match scope !! name with Some b => is_const b | None => false end); [done|].
  destruct (bool_decide _ && const); [done|].
  destruct (if opt_truthy tipo then _ else None); [done|].
  intros [= <-].
  split.
  - intros lin' col'. unfold _get_variable_value.
    destruct (opt_truthy tipo); simpl; by rewrite lookup_insert_eq.
  - intros other lin' col' Hne. unfold _get_variable_value. rewrite Hsc.
    destruct (opt_truthy tipo); simpl; rewrite lookup_insert_ne by done;
      (destruct (scope !! other); [done|]);
      (destruct (find_scope other rest 1) as [[? ?]|]; [done|]);
      by destruct (functions s !! other).
Qed.

Lemma declare_then_get_witness :
  _get_variable_value "x" 0 0
    (set_scopes [<["x" := MkBinding (VInt 1) false "entero"]> ∅] init)
  = Val (VInt 1) (set_scopes [<["x" := MkBinding (VInt 1) false "entero"]> ∅] init).
Proof.
  apply (declare_then_get "x" (VInt 1) None false 0 0 init). reflexivity.
Defined.

Lemma write_list_element_in_range (l : loc) (i : Z) v s xs :
  heap s !! l = Some (HList xs) -> 0 <= i <= Z.of_nat (length xs) ->
  exists ys,
    write_list_element l (VInt i) "=" v s
    = Val tt (set_heap (<[l := HList ys]> (heap s)) s)
    /\ ys !! Z.to_nat i = Some v
    /\ (i < Z.of_nat (length ys))
    /\ length ys = (if (i <? Z.of_nat (length xs))%Z then length xs else S (length xs)).
Proof.
  intros Hl Hi.
  assert (forall ys,
    (if (0 <=? i)%Z && (i <? Z.of_nat (length xs))%Z
     then inl (<[Z.to_nat i := v]> xs)
     else if (i =? Z.of_nat (length xs))%Z && String.eqb "=" "="
          then inl (xs ++ [v])%list else inr tt) = inl ys ->
    write_list_element l (VInt i) "=" v s
    = Val tt (set_heap (<[l := HList ys]> (heap s)) s)) as Hw.
  { intros ys. unfold write_list_element, bind, lift_host, int_of_str_of, read_list, ret.
    rewrite Hl.
    destruct ((0 <=? i)%Z && (i <? Z.of_nat (length xs))%Z); [by intros [= <-]|].
    destruct ((i =? Z.of_nat (length xs))%Z && String.eqb "=" "="); [by intros [= <-]|].
    done. }
  assert ((0 <=? i)%Z = true) as H0 by (apply Z.leb_le; lia).
  destruct (Z.ltb_spec i (Z.of_nat (length xs))) as [Hlt|Hge].
  - exists (<[Z.to_nat i := v]> xs).
    split; [apply Hw; rewrite H0; simpl;
            by replace (i <? Z.of_nat (length xs))%Z with true
              by (symmetry; apply Z.ltb_lt; lia)|].
    rewrite length_insert.
    split; [apply list_lookup_insert_eq; lia|]. split; [lia | done].
  - exists (xs ++ [v])%list.
    split; [apply Hw; rewrite H0; simpl;
            replace (i <? Z.of_nat (length xs))%Z with false
              by (symmetry; apply Z.ltb_ge; lia);
            by replace (i =? Z.of_nat (length xs))%Z with true
              by (symmetry; apply Z.eqb_eq; lia)|].
    rewrite length_app. simpl.
    split; [|split; lia].
    replace (Z.to_nat i) with (length xs + 0)%nat by lia.
    by rewrite lookup_app_r, Nat.add_comm, Nat.add_sub by lia.
Qed.

Lemma execute_identificador fuel name s j b :
  find_scope name (scopes s) 0 = Some (j, b) ->
  execute (S fuel) (IDENTIFICADOR name) s = Val (valor_de b) s.
Proof. intros H. simpl. unfold _get_variable_value. by rewrite H. Qed.

(** X19: an element assigned to a list through a variable is the one read
    back at that index, for every index from zero up to and including the
    length of the list (the assignment at the length appends). *)
Theorem list_element_write_then_read fuel name (i : Z) rhs s rv s1 j b (l : loc) xs :
  execute (S fuel) rhs s = Val rv s1 ->
  find_scope name (scopes s1) 0 = Some (j, b) -> valor_de b = VList l ->
  heap s1 !! l = Some (HList xs) -> 0 <= i <= Z.of_nat (length xs) ->
  let target := ACCESO_INDICE (IDENTIFICADOR name) (NUMERO (NInt i)) in
  exists s2,
    execute (S (S fuel)) (ASIGNACION "=" target rhs) s = Val rv s2
    /\ execute (S (S fuel)) target s2 = Val rv s2.
Proof.
  intros Hrhs Hfind Hb Hl Hi target. subst target.
  destruct (write_list_element_in_range l i rv s1 xs Hl Hi) as (ys & Hw & Hy & Hlt & _).
  exists (set_heap (<[l := HList ys]> (heap s1)) s1).
  split.
  - rewrite (execute_S (S fuel)). unfold execute_node, execute_asignacion.
    unfold bind at 1. rewrite Hrhs.
    unfold bind at 1. unfold _get_lvalue_location. unfold bind at 1.
    rewrite (execute_identificador fuel name s1 j b Hfind), Hb.
    unfold bind at 1.
    change (execute (S fuel) (NUMERO (NInt i)) s1) with (Val (VInt i) s1).
    cbn [isinstance negb ret]. unfold bind at 1.
    change (String.eqb "=" "=") with true. cbn [negb ret].
    unfold bind at 1. rewrite Hw. reflexivity.
  - rewrite (execute_S (S fuel)). unfold execute_node, execute_acceso_indice.
    unfold bind at 1.
    rewrite (execute_identificador fuel name _ j b) by exact Hfind. rewrite Hb.
    unfold bind at 1.
    change (execute (S fuel) (NUMERO (NInt i)) ?s) with (Val (VInt i) s).
    cbn [as_int]. unfold bind at 1, read_list.
    cbn [heap set_heap].
    rewrite list_lookup_insert_eq by (by eapply lookup_lt_Some).
    replace ((0 <=? i)%Z && (i <? Z.of_nat (length ys))%Z) with true
      by (symmetry; apply andb_true_iff; split; [apply Z.leb_le | apply Z.ltb_lt]; lia).
    cbn [negb]. by rewrite Hy.
Qed.

Lemma list_element_write_then_read_witness :
  exists s2,
    execute 3 (ASIGNACION "=" (ACCESO_INDICE (IDENTIFICADOR "l") (NUMERO (NInt 2))) cinco)
      estado_lista = Val (VInt 5) s2
    /\ execute 3 (ACCESO_INDICE (IDENTIFICADOR "l") (NUMERO (NInt 2))) s2 = Val (VInt 5) s2.
Proof.
  apply (list_element_write_then_read 1 "l" 2 cinco estado_lista (VInt 5) estado_lista
           0%nat (MkBinding (VList 0%nat) false "lista") 0%nat [VInt 1; VInt 2]);
    [reflexivity | reflexivity | reflexivity | reflexivity | simpl; lia].
Defined.

(** X20: a property assigned to a dictionary object with the dot notation
    is read back with the dot notation and with the index notation on the
    property name. *)
Theorem object_property_write_then_read fuel name key rhs s rv s1 j b (l : loc) d :
  execute (S fuel) rhs s = Val rv s1 ->
  find_scope name (scopes s1) 0 = Some (j, b) -> valor_de b = VDict l ->
  heap s1 !! l = Some (HDict d) ->
  exists s2,
    execute (S (S fuel)) (ASIGNACION "=" (ACCESO_MIEMBRO (IDENTIFICADOR name) key) rhs) s
    = Val rv s2
    /\ execute (S (S fuel)) (ACCESO_MIEMBRO (IDENTIFICADOR name) key) s2 = Val rv s2
    /\ execute (S (S fuel)) (ACCESO_INDICE (IDENTIFICADOR name) (CADENA key)) s2 = Val rv s2.
Proof.
  intros Hrhs Hfind Hb Hl.
  exists (set_heap (<[l := HDict (<[key := rv]> d)]> (heap s1)) s1).
  assert (l < length (heap s1))%nat as Hlen by (by eapply lookup_lt_Some).
  split; [|split].
  - rewrite (execute_S (S fuel)). unfold execute_node, execute_asignacion.
    unfold bind at 1. rewrite Hrhs.
    unfold bind at 1. unfold _get_lvalue_location. unfold bind at 1.
    rewrite (execute_identificador fuel name s1 j b Hfind), Hb.
    cbn [ret]. unfold bind at 1.
    change (String.eqb "=" "=") with true. cbn [negb ret].
    unfold bind at 1. unfold bind at 1. unfold read_dict. rewrite Hl. reflexivity.
  - rewrite (execute_S (S fuel)). unfold execute_node, execute_acceso_miembro.
    unfold bind at 1.
    rewrite (execute_identificador fuel name _ j b) by exact Hfind. rewrite Hb.
    unfold bind at 1, read_dict. cbn [heap set_heap].
    rewrite list_lookup_insert_eq by done. by rewrite lookup_insert_eq.
  - rewrite (execute_S (S fuel)). unfold execute_node, execute_acceso_indice.
    unfold bind at 1.
    rewrite (execute_identificador fuel name _ j b) by exact Hfind. rewrite Hb.
    unfold bind at 1.
    change (execute (S fuel) (CADENA key) ?s) with (Val (VStr key) s).
    unfold bind at 1, read_dict. cbn [heap set_heap].
    rewrite list_lookup_insert_eq by done. by rewrite lookup_insert_eq.
Qed.

Lemma object_property_write_then_read_witness :
  exists s2,
    execute 3 (ASIGNACION "=" (ACCESO_MIEMBRO (IDENTIFICADOR "o") "k") cinco) estado_objeto
    = Val (VInt 5) s2
    /\ execute 3 (ACCESO_MIEMBRO (IDENTIFICADOR "o") "k") s2 = Val (VInt 5) s2
    /\ execute 3 (ACCESO_INDICE (IDENTIFICADOR "o") (CADENA "k")) s2 = Val (VInt 5) s2.
Proof.
  apply (object_property_write_then_read 1 "o" "k" cinco estado_objeto (VInt 5)
           estado_objeto 0%nat (MkBinding (VDict 0%nat) false "objeto") 0%nat ∅);
    reflexivity.
Defined.


Lemma node_truthy_false n : node_truthy n = false -> n = NADA.
Proof. by destruct n. Qed.

(** X21: removing a dead branch does not change what runs. With the
    children optimized, [optimize] replaces a conditional on a literal
    boolean by the branch taken, and a [mientras] on the literal false by
    nothing; executing the replacement gives the result and the state that
    executing the statement itself, on the optimized children, gives. *)
Theorem dead_branch_elimination_sound fuel b si_b sino_b cuerpo s :
  (forall si' sino',
     optimize si_b = inl si' -> optimize sino_b = inl sino' ->
     exists r, optimize (SI (BOOLEANO b) si_b sino_b) = inl r
               /\ execute (S (S fuel)) (SI (BOOLEANO b) si' sino') s
                  = execute (S fuel) r s)
  /\ (forall cuerpo',
        optimize cuerpo = inl cuerpo' ->
        optimize (MIENTRAS (BOOLEANO false) cuerpo) = inl NADA
        /\ execute (S (S fuel)) (MIENTRAS (BOOLEANO false) cuerpo') s
           = execute (S fuel) NADA s).
Proof.
  split.
  - intros si' sino' Hsi Hsino.
    exists (if b then si' else sino'). split.
    + cbn [optimize]. rewrite Hsi, Hsino. simpl. by destruct b.
    + rewrite (execute_S (S fuel)). unfold execute_node, bind.
      change (execute (S fuel) (BOOLEANO b) s) with (Val (VBool b) s).
      unfold is_true. cbn [truthy]. destruct b; [done|].
      destruct (node_truthy sino') eqn:E; [done|].
      apply node_truthy_false in E as ->. reflexivity.
  - intros cuerpo' Hc. split.
    + cbn [optimize]. by rewrite Hc.
    + rewrite (execute_S (S fuel)). unfold execute_node, execute_mientras, bind, modify.
      unfold try_finally. cbn [mientras_loop]. unfold catch_break, bind.
      change (execute (S fuel) (BOOLEANO false) ?x) with (Val (VBool false) x).
      unfold is_true. cbn [truthy ret].
      destruct s. simpl. unfold add_in_loop. simpl. do 2 f_equal. lia.
Qed.

(** X22: a call with an argument to a function that has no parameters
    raises a [ZiskRuntimeError] from inside the wrapper, after the scope
    is entered and the function counter is raised and before the [try]
    that would undo them: the frame and the count stay. At top level
    [retorna] is rejected before such a call and accepted after it. *)
Theorem arity_error_leaks_function_context fuel name f n lc s :
  find_scope name (scopes s) 0 = None ->
  functions s !! name = Some (VFunction f) ->
  _zisk_params f = [] ->
  exists e,
    execute (S (S fuel)) (LLAMADA (IDENTIFICADOR name) [NUMERO n]) s
    = Exc (Zisk e) (add_in_function 1 (enter_scope s))
    /\ clase_error e = ZiskRuntimeError
    /\ (is_in_function s = 0 ->
        execute (S fuel) (RETORNA NADA lc) s
        = Exc (Zisk (MkError ZiskRuntimeError
                       "'retorna' solo puede usarse dentro de una función o método."
                       (fst lc) (snd lc))) s
        /\ execute (S fuel) (RETORNA NADA lc) (add_in_function 1 (enter_scope s))
           = Exc (ReturnException VNone) (add_in_function 1 (enter_scope s))).
Proof.
  intros Hfind Hf Hp. eexists. split; [|split].
  - rewrite (execute_S (S fuel)). unfold execute_node, execute_llamada.
    unfold bind at 1. cbn [execute_all]. unfold bind at 1.
    change (execute (S fuel) (NUMERO n) s) with (Val (value_of_numero n) s).
    cbn [ret]. unfold bind at 1. cbn [ret]. unfold bind at 1.
    assert (execute (S fuel) (IDENTIFICADOR name) s = Val (VFunction f) s) as ->.
    { simpl. unfold _get_variable_value. by rewrite Hfind, Hf. }
    cbn [callable negb]. unfold bind at 1.
    unfold validate_call. cbn [zisk_metadata]. rewrite Hp. cbn [ret].
    unfold bind at 1. unfold wrap_call_type_error, call_value, zisk_function_wrapper.
    unfold bind at 1. unfold modify at 1. unfold bind at 1. unfold modify at 1.
    rewrite Hp. cbn [length Nat.eqb negb]. reflexivity.
  - reflexivity.
  - intros H0. split.
    + simpl. unfold bind, get_state. rewrite H0. reflexivity.
    + simpl. unfold bind, get_state. simpl. rewrite H0. reflexivity.
Qed.

Lemma arity_error_leaks_function_context_witness :
  exists e,
    execute 3 (LLAMADA (IDENTIFICADOR "f") [uno]) estado_funcion
    = Exc (Zisk e) (add_in_function 1 (enter_scope estado_funcion))
    /\ clase_error e = ZiskRuntimeError.
Proof.
  destruct (arity_error_leaks_function_context 1 "f" (MkFunction "f" [] None (BLOQUE []))
              (NInt 1) (1, 1) estado_funcion eq_refl eq_refl eq_refl) as (e & H1 & H2 & _).
  exists e. split; [exact H1 | exact H2].
Defined.

End EngineProperties.
